(** * manage_step_seq: the step/sequence registry

    A shallow embedding of [src/manage_step_seq.py] and the properties of
    its canonicalizers, reverse index, registry operations and persistence.

    Conventions of the embedding.
    - A Python [str] is a [string]; the character classes below are those of
      Python on ASCII text, which is what the registry holds (canonical step
      names are ASCII by the regular expression, sequence keys by the token
      allow-list).  Codes above 127 are treated as neither letter, digit nor
      whitespace.
    - A Python [dict] that is iterated ([db["map"]]) is an association list
      in insertion order; the reverse cache, only ever looked up, is a
      [gmap].
    - [input], [print], the storage path and the temporary file live in an
      explicit [world]; a function with effects is a state-and-exception
      computation over it.  A printed line is a constructor carrying the
      values the message interpolates.
    - [json.load] and [json.dump] are library code: a file holds a JSON
      object (or a torn write of one), not its characters.  The object is a
      registry document: an integer version and a map from strings to lists
      of strings.
    - [print] and the removal of the temporary file are taken to succeed.
    - [main], the argument decoder, is embedded as the action it ends in:
      the call of one operation on a path, or a usage line. *)

From Stdlib Require Import ZArith NArith Ascii String List.
From stdpp Require Import base decidable option list sorting strings gmap.

#[local] Set Warnings "-clear-no-such-hyp".

Local Open Scope string_scope.
Local Open Scope list_scope.

(** ** Python string primitives *)

Module Py.

Definition code (c : ascii) : N := N_of_ascii c.

Definition between (lo hi : N) (c : ascii) : bool :=
  (lo <=? code c)%N && (code c <=? hi)%N.

(** [str.isupper], [str.islower], [str.isdigit], [str.isspace] on one
    character. *)
Definition isupper (c : ascii) : bool := between 65 90 c.
Definition islower (c : ascii) : bool := between 97 122 c.
Definition isdigit (c : ascii) : bool := between 48 57 c.
Definition isspace (c : ascii) : bool := between 9 13 c || between 28 32 c.

(** [any(p(ch) for ch in s)] *)
Fixpoint any (p : ascii -> bool) (s : string) : bool :=
  match s with
  | EmptyString => false
  | String c s' => p c || any p s'
  end.

Fixpoint all (p : ascii -> bool) (s : string) : bool :=
  match s with
  | EmptyString => true
  | String c s' => p c && all p s'
  end.

(** [str.upper] *)
Definition upper_char (c : ascii) : ascii :=
  if islower c then ascii_of_N (code c - 32) else c.

Fixpoint upper (s : string) : string :=
  match s with
  | EmptyString => EmptyString
  | String c s' => String (upper_char c) (upper s')
  end.

(** [str.lower] *)
Definition lower_char (c : ascii) : ascii :=
  if isupper c then ascii_of_N (code c + 32) else c.

Fixpoint lower (s : string) : string :=
  match s with
  | EmptyString => EmptyString
  | String c s' => String (lower_char c) (lower s')
  end.

(** [str.strip] with no argument: whitespace off both ends. *)
Fixpoint lstrip (s : string) : string :=
  match s with
  | EmptyString => EmptyString
  | String c s' => if isspace c then lstrip s' else s
  end.

Fixpoint rstrip (s : string) : string :=
  match s with
  | EmptyString => EmptyString
  | String c s' =>
      match rstrip s' with
      | EmptyString => if isspace c then EmptyString else String c EmptyString
      | r => String c r
      end
  end.

Definition strip (s : string) : string := rstrip (lstrip s).

(** [str.split] with no argument: the maximal runs of non-whitespace
    characters.  A non-space character followed by another one extends the
    first word of the rest. *)
Fixpoint split (s : string) : list string :=
  match s with
  | EmptyString => []
  | String c s' =>
      if isspace c then split s'
      else
        match split s' with
        | w :: ws =>
            match s' with
            | String c' _ =>
                if isspace c' then String c EmptyString :: w :: ws
                else String c w :: ws
            | EmptyString => [String c EmptyString]
            end
        | [] => [String c EmptyString]
        end
  end.

(** [sep.join(parts)] *)
Definition join (sep : string) (parts : list string) : string :=
  String.concat sep parts.

(** Truthiness of a string: [if s:] / [if not s:]. *)
Definition truthy (s : string) : bool :=
  match s with EmptyString => false | String _ _ => true end.

(** [x in xs] for a list or set of strings. *)
Definition mem (x : string) (xs : list string) : bool :=
  bool_decide (x ∈ xs).

(** [list.sort] on strings: the sorted permutation for the code-point
    order, here through a merge sort. *)
Definition sort (l : list string) : list string := merge_sort String.le l.

End Py.

(** ** Validation and canonicalization *)

Inductive result (E A : Type) : Type :=
| Ok (a : A)
| Err (e : E).
Arguments Ok {E A} a.
Arguments Err {E A} e.

(** The five [ValueError]s of [normalize_step_name], in source order. *)
Inductive step_error : Type :=
| EmptyStepName
| UppercaseAndPunctuation
| UppercaseOnly
| PunctuationOnly
| InvalidFormat.

Definition step_error_message (e : step_error) : string :=
  match e with
  | EmptyStepName => "Step name cannot be empty."
  | UppercaseAndPunctuation =>
      "Use lowercase only and remove punctuation (letters/digits + single spaces)."
  | UppercaseOnly => "Use lowercase only (letters/digits + single spaces)."
  | PunctuationOnly => "Remove punctuation; allowed: letters/digits + single spaces."
  | InvalidFormat =>
      "Invalid step name; allowed: lowercase letters/digits with single spaces."
  end.

(** The character class [[a-z0-9]] of [_STEP_NAME_RE]. *)
Definition name_char (c : ascii) : bool :=
  Py.between 97 122 c || Py.between 48 57 c.

(** [_STEP_NAME_RE.fullmatch]: [^[a-z0-9]+(?: [a-z0-9]+)*$] against the
    whole string. *)
Fixpoint step_name_fullmatch (s : string) : bool :=
  match s with
  | EmptyString => false
  | String c s' =>
      name_char c &&
      match s' with
      | EmptyString => true
      | String c' s'' =>
          if Ascii.eqb c' " " then step_name_fullmatch s''
          else step_name_fullmatch s'
      end
  end.

Definition forbidden_char (ch : ascii) : bool :=
  negb (Py.islower ch || Py.isdigit ch || Py.isspace ch).

Definition normalize_step_name (raw : string) : result step_error string :=
  let s := Py.join " " (Py.split (Py.strip raw)) in
  if negb (Py.truthy s) then Err EmptyStepName
  else if negb (step_name_fullmatch s) then
    let has_upper := Py.any Py.isupper raw in
    let has_forbidden := Py.any forbidden_char raw in
    if has_upper && has_forbidden then Err UppercaseAndPunctuation
    else if has_upper then Err UppercaseOnly
    else if has_forbidden then Err PunctuationOnly
    else Err InvalidFormat
  else Ok s.

Definition ALLOWED_TOKENS : list string :=
  [ "UP"; "DOWN"; "LEFT"; "RIGHT"; "ENTER"; "OK"; "ESC"; "BACK"; "TAB"; "SPACE";
    "WAIT"; "WAIT1"; "WAIT2"; "WAIT3"; "WAIT5"; "WAIT10" ].

Inductive seq_error : Type :=
| EmptySequence
| UnknownTokens (unknown : list string).

(** A separator character of [[,\s]]. *)
Definition sep_char (c : ascii) : bool := Ascii.eqb c "," || Py.isspace c.

(** [re.split(r"[,\s]+", s)]: the fields between maximal separator runs,
    with an empty field before a leading run and after a trailing one. *)
Fixpoint re_split_seps (s : string) : list string :=
  match s with
  | EmptyString => [EmptyString]
  | String c s' =>
      if sep_char c then
        match s' with
        | String c' _ =>
            if sep_char c' then re_split_seps s'
            else EmptyString :: re_split_seps s'
        | EmptyString => [EmptyString; EmptyString]
        end
      else
        match re_split_seps s' with
        | f :: fs => String c f :: fs
        | [] => [String c EmptyString]
        end
  end.

(** [[t.strip().upper() for t in pieces if t.strip()]] *)
Definition tokens_of (pieces : list string) : list string :=
  map (fun t => Py.upper (Py.strip t))
      (List.filter (fun t => Py.truthy (Py.strip t)) pieces).

Definition canonicalize_sequence_with (allowed : list string) (seq_str : string)
  : result seq_error string :=
  let tokens := tokens_of (re_split_seps seq_str) in
  match tokens with
  | [] => Err EmptySequence
  | _ =>
      let unknown :=
        match allowed with
        | [] => []
        | _ => List.filter (fun t => negb (Py.mem t allowed)) tokens
        end in
      match unknown with
      | [] => Ok (Py.join "," tokens)
      | _ => Err (UnknownTokens unknown)
      end
  end.

Definition canonicalize_sequence : string -> result seq_error string :=
  canonicalize_sequence_with ALLOWED_TOKENS.

(** ** The registry document *)

(** [db["map"]]: sequence key to step list, in insertion order. *)
Definition dict : Type := list (string * list string).

(** The loaded document: [db["version"]] and [db["map"]]. *)
Record document : Type := Document { version : Z; dmap : dict }.

Definition VERSION : Z := 1.

(** [m.get(k)] *)
Fixpoint dict_get (m : dict) (k : string) : option (list string) :=
  match m with
  | [] => None
  | (k', v) :: m' => if decide (k' = k) then Some v else dict_get m' k
  end.

(** [m[k] = v]: an existing key keeps its position, a new one goes last. *)
Fixpoint dict_set (m : dict) (k : string) (v : list string) : dict :=
  match m with
  | [] => [(k, v)]
  | (k', v') :: m' =>
      if decide (k' = k) then (k, v) :: m' else (k', v') :: dict_set m' k v
  end.

(** [del m[k]] *)
Fixpoint dict_del (m : dict) (k : string) : dict :=
  match m with
  | [] => []
  | (k', v) :: m' => if decide (k' = k) then m' else (k', v) :: dict_del m' k
  end.

(** [list(m.keys())] *)
Definition dict_keys (m : dict) : list string := map fst m.

(** Python exceptions raised or propagated by the program. *)
Inductive exn : Type :=
| StepNameError (e : step_error)
| SequenceError (e : seq_error)
| InconsistentJSON (step seq_seen seq_now : string)
| EOFError
| JSONDecodeError
| OSError
| KeyError (key : string)
| SystemExit (status : Z).

(** A [for] loop whose body may raise. *)
Fixpoint for_each {A S : Type} (body : S -> A -> result exn S)
    (xs : list A) (st : S) : result exn S :=
  match xs with
  | [] => Ok st
  | x :: xs' =>
      match body st x with
      | Ok st' => for_each body xs' st'
      | Err e => Err e
      end
  end.

(** ** The reverse cache *)

(** The body of the inner loop of [build_reverse_cache]: the clash test,
    then [rev[s] = seq]. *)
Definition rev_step (seq : string) (rev : gmap string string) (s : string)
  : result exn (gmap string string) :=
  match rev !! s with
  | Some seen =>
      if decide (seen <> seq) then Err (InconsistentJSON s seen seq)
      else Ok (<[s := seq]> rev)
  | None => Ok (<[s := seq]> rev)
  end.

(** The inner loop, over the steps of one item. *)
Definition rev_item (rev : gmap string string) (item : string * list string)
  : result exn (gmap string string) :=
  for_each (rev_step (fst item)) (snd item) rev.

(** [build_reverse_cache]: the outer loop over [db["map"].items()]. *)
Definition build_reverse_cache (db : document) : result exn (gmap string string) :=
  for_each rev_item (dmap db) ∅.

(** [owns m s a]: step [s] is listed under sequence key [a]. *)
Definition owns (m : dict) (s a : string) : Prop :=
  exists steps, (a, steps) ∈ m /\ s ∈ steps.

(** No step name under two different sequence keys. *)
Definition unique_owner (m : dict) : Prop :=
  forall s a b, owns m s a -> owns m s b -> a = b.

(** ** The world: storage, input and output *)

(** What a file holds: a JSON object, of which only the ["version"] and
    ["map"] members matter (either may be missing), or the first [written]
    characters of the JSON text of [db], cut before its closing brace. *)
Inductive file : Type :=
| JsonFile (v : option Z) (m : option dict)
| Truncated (db : document) (written : nat).

(** The text [json.dump(db, f, indent=2)] writes, newline or not. *)
Definition json_of (db : document) : file :=
  JsonFile (Some (version db)) (Some (dmap db)).

(** The storage path and the temporary file of [tempfile.mkstemp]. *)
Record storage : Type := Storage { target : option file; temp : option file }.

(** Where, if anywhere, the operating system fails during a save. *)
Inductive failure : Type :=
| NoFailure
| MkstempFails
| DumpFails (written : nat)
| NewlineFails
| ReplaceFails.

(** The prompts of [input]: the six fixed texts, and the two questions of
    [confirm] with the names they mention. *)
Inductive prompt_text : Type :=
| AskStepName
| AskSequence
| AskNewStepName
| AskNewSequence
| AskStepToReassign
| AskOldStepName
| AskDeleteStep (step seq : string)
| AskRemoveEmpty (seq : string).

(** The lines the program prints, with the values they interpolate. *)
Inductive line : Type :=
| Prompt (p : prompt_text)
| SayRenameHint (e : step_error)
| SayError (e : exn)
| BannerAdd
| SayAlreadyExists (step seq : string)
| SayChooseNewName (step existing : string)
| SayNameExists
| SayAdded (step seq : string)
| SaySaved
| SayNotFoundRetry (step : string)
| SayNotFound (step : string)
| SayAlreadyUnder (step seq : string)
| SayReassigned (step old_seq new_seq : string)
| SayTakenRetry (step : string)
| SayTaken (step : string)
| SayRenamed (old_n new_n : string)
| SayCancelled
| SayRemoved (step : string)
| BannerList
| SayEntry (seq : string) (steps : list string)
| SayShowSeq (key : string) (steps : list string)
| SayShowStep (qn : string) (seq : option string)
| LintBadStep (s : string) (e : step_error)
| LintTwoOwners (s seen seq : string)
| LintBadSequence (seq : string) (e : seq_error)
| LintEmpty (seq : string)
| LintOK
| LintFailed
| SayGC (removed : Z).

(** The storage, the failure the next save will meet, the lines still to be
    read from standard input, and the lines printed so far. *)
Record world : Type := World {
  disk : storage;
  failing : failure;
  stdin : list string;
  stdout : list line
}.

Definition with_disk (d : storage) (w : world) : world :=
  World d (failing w) (stdin w) (stdout w).
Definition with_stdin (i : list string) (w : world) : world :=
  World (disk w) (failing w) i (stdout w).
Definition more_stdout (ls : list line) (w : world) : world :=
  World (disk w) (failing w) (stdin w) (stdout w ++ ls).

(** Computations that read and write the world and may raise. *)
Definition M (A : Type) : Type := world -> result exn A * world.

#[global] Instance M_ret : MRet M := fun A a w => (Ok a, w).
#[global] Instance M_bind : MBind M := fun A B k m w =>
  match m w with
  | (Ok a, w') => k a w'
  | (Err e, w') => (Err e, w')
  end.

Definition raise {A : Type} (e : exn) : M A := fun w => (Err e, w).

Definition lift {A : Type} (r : result exn A) : M A := fun w => (r, w).

Definition print (l : line) : M unit := fun w => (Ok tt, more_stdout [l] w).

(** [input(prompt)]: shows the prompt, reads one line, [EOFError] at end of
    input. *)
Definition input (p : prompt_text) : M string := fun w =>
  match stdin w with
  | [] => (Err EOFError, more_stdout [Prompt p] w)
  | l :: rest => (Ok l, with_stdin rest (more_stdout [Prompt p] w))
  end.

(** A loop over the input lines, as a function of the lines left: result,
    lines left afterwards, lines printed. *)
Definition reading (A : Type) : Type := result exn A * list string * list line.

Definition said {A : Type} (ls : list line) (r : reading A) : reading A :=
  let '(a, rest, out) := r in (a, rest, ls ++ out).

Definition run_reading {A : Type} (f : list string -> reading A) : M A := fun w =>
  let '(a, rest, out) := f (stdin w) in (a, with_stdin rest (more_stdout out w)).

(** [prompt_valid_step_name]: ask until a line normalizes. *)
Fixpoint prompt_valid_step_name_lines (prompt_text : prompt_text)
    (lines : list string) : reading string :=
  match lines with
  | [] => (Err EOFError, [], [Prompt prompt_text])
  | raw :: rest =>
      match normalize_step_name (Py.strip raw) with
      | Ok s => (Ok s, rest, [Prompt prompt_text])
      | Err e =>
          said [Prompt prompt_text; SayRenameHint e]
               (prompt_valid_step_name_lines prompt_text rest)
      end
  end.

Definition prompt_valid_step_name (prompt_text : prompt_text) : M string :=
  run_reading (prompt_valid_step_name_lines prompt_text).

(** [prompt_sequence]: ask until a line canonicalizes. *)
Fixpoint prompt_sequence_lines (prompt_text : prompt_text)
    (lines : list string) : reading string :=
  match lines with
  | [] => (Err EOFError, [], [Prompt prompt_text])
  | raw :: rest =>
      match canonicalize_sequence (Py.strip raw) with
      | Ok s => (Ok s, rest, [Prompt prompt_text])
      | Err e =>
          said [Prompt prompt_text; SayError (SequenceError e)]
               (prompt_sequence_lines prompt_text rest)
      end
  end.

Definition prompt_sequence (prompt_text : prompt_text) : M string :=
  run_reading (prompt_sequence_lines prompt_text).

Definition prompt_step (prompt_text : prompt_text) : M string :=
  prompt_valid_step_name prompt_text.

(** [confirm(prompt)] with [default_no=True]. *)
Definition confirm (prompt : prompt_text) : M bool :=
  raw ← input prompt;
  let ans := Py.lower (Py.strip raw) in
  if negb (Py.truthy ans) then mret false
  else mret (Py.mem ans ["y"; "yes"]).

(** ** IO helpers *)

(** [load_db]: the empty document when the path does not exist, else the
    parsed file with its two members defaulted. *)
Definition load_db : M document := fun w =>
  match target (disk w) with
  | None => (Ok (Document VERSION []), w)
  | Some (JsonFile v m) => (Ok (Document (default VERSION v) (default [] m)), w)
  | Some (Truncated _ _) => (Err JSONDecodeError, w)
  end.

(** The [finally] clause: the temporary file is removed if it is there. *)
Definition cleanup (d : storage) : storage := Storage (target d) None.

(** [atomic_save], one storage state per action: after [mkstemp], after
    [json.dump], after the final newline, after [os.replace], after the
    [finally] clean-up.  An interrupted run stops in one of these states;
    [os.replace] is one action. *)
Definition atomic_save_trace (f : failure) (db : document) (d : storage)
  : list storage * result exn unit :=
  let created := Storage (target d) (Some (Truncated db 0)) in
  let dumped := Storage (target d) (Some (json_of db)) in
  let replaced := Storage (Some (json_of db)) None in
  match f with
  | MkstempFails => ([], Err OSError)
  | DumpFails n =>
      let torn := Storage (target d) (Some (Truncated db n)) in
      ([created; torn; cleanup torn], Err OSError)
  | NewlineFails => ([created; dumped; cleanup dumped], Err OSError)
  | ReplaceFails => ([created; dumped; dumped; cleanup dumped], Err OSError)
  | NoFailure => ([created; dumped; dumped; replaced; replaced], Ok tt)
  end.

(** [atomic_save] as the operations see it: the last state, and the
    exception if any. *)
Definition atomic_save (db : document) : M unit := fun w =>
  let '(trace, r) := atomic_save_trace (failing w) db (disk w) in
  (r, with_disk (List.last trace (disk w)) w).

(** ** Operations *)

(** [k in d] on the reverse cache. *)
Definition in_cache (k : string) (step_to_seq : gmap string string) : bool :=
  bool_decide (is_Some (step_to_seq !! k)).

(** [d[k]], which raises [KeyError] on a missing key. *)
Definition getitem (m : dict) (k : string) : M (list string) :=
  match dict_get m k with
  | Some v => mret v
  | None => raise (KeyError k)
  end.

(** [m.setdefault(k, v)], as the dictionary it leaves behind. *)
Definition dict_setdefault (m : dict) (k : string) (v : list string) : dict :=
  match dict_get m k with
  | Some _ => m
  | None => dict_set m k v
  end.

(** The insertion shared by [op_add] and [op_reassign]:
    [lst = m.setdefault(seq, [])], then, if [step not in lst],
    [lst.append(step)] and [lst.sort()] on the list held by the map. *)
Definition insert_sorted (m : dict) (seq step : string) : dict :=
  let m1 := dict_setdefault m seq [] in
  let lst := default [] (dict_get m1 seq) in
  if Py.mem step lst then m1
  else dict_set m1 seq (Py.sort (lst ++ [step])).

(** [if not arg:] on an optional command-line argument. *)
Definition given (arg : option string) : option string :=
  match arg with
  | Some a => if Py.truthy a then Some a else None
  | None => None
  end.

(** The renaming loop of [op_add]:
    [while True: new_name = prompt_valid_step_name("New step name: ")],
    going round again while the name is in the cache.  Both loops read one
    line per round, so they are written as one recursion on the lines;
    [new_name_lines_unfold] below is the loop as the source nests it. *)
Fixpoint new_name_lines (step_to_seq : gmap string string)
    (lines : list string) : reading string :=
  match lines with
  | [] => (Err EOFError, [], [Prompt AskNewStepName])
  | raw :: rest =>
      match normalize_step_name (Py.strip raw) with
      | Err e =>
          said [Prompt AskNewStepName; SayRenameHint e]
               (new_name_lines step_to_seq rest)
      | Ok new_name =>
          if in_cache new_name step_to_seq then
            said [Prompt AskNewStepName; SayNameExists]
                 (new_name_lines step_to_seq rest)
          else (Ok new_name, rest, [Prompt AskNewStepName])
      end
  end.

(** [op_add] *)
Definition op_add : M unit :=
  db ← load_db;
  step_to_seq ← lift (build_reverse_cache db);
  print BannerAdd;;
  step ← prompt_valid_step_name AskStepName;
  raw_seq ← input AskSequence;
  match canonicalize_sequence (Py.strip raw_seq) with
  | Err e => print (SayError (SequenceError e))
  | Ok seq =>
      let existing := step_to_seq !! step in
      if bool_decide (existing = Some seq) then print (SayAlreadyExists step seq)
      else
        step ← match existing with
               | Some existing =>
                   if Py.truthy existing && bool_decide (existing <> seq) then
                     print (SayChooseNewName step existing);;
                     run_reading (new_name_lines step_to_seq)
                   else mret step
               | None => mret step
               end;
        let db := Document (version db) (insert_sorted (dmap db) seq step) in
        atomic_save db;;
        print (SayAdded step seq);;
        print SaySaved
  end.

(** An argument that is normalized when given and valid, and prompted for
    otherwise (the opening of [op_reassign] and [op_rename]). *)
Definition step_argument (arg : option string) (ask : prompt_text) : M string :=
  match given arg with
  | None => prompt_step ask
  | Some a =>
      match normalize_step_name a with
      | Ok s => mret s
      | Err e => print (SayError (StepNameError e));; prompt_step ask
      end
  end.

(** [op_reassign]; [found] is [None] where the source returns after the
    second miss. *)
Definition op_reassign (step new_seq_raw : option string) : M unit :=
  db ← load_db;
  step_to_seq ← lift (build_reverse_cache db);
  step_n ← step_argument step AskStepToReassign;
  found ← (if in_cache step_n step_to_seq then mret (Some step_n)
           else
             print (SayNotFoundRetry step_n);;
             step_n ← prompt_step AskStepToReassign;
             if in_cache step_n step_to_seq then mret (Some step_n)
             else print (SayNotFound step_n);; mret None);
  match found with
  | None => mret tt
  | Some step_n =>
      new_seq ← match given new_seq_raw with
                | None => prompt_sequence AskNewSequence
                | Some raw =>
                    match canonicalize_sequence raw with
                    | Ok k => mret k
                    | Err e =>
                        print (SayError (SequenceError e));;
                        prompt_sequence AskNewSequence
                    end
                end;
      old_seq ← match step_to_seq !! step_n with
                | Some k => mret k
                | None => raise (KeyError step_n)
                end;
      if bool_decide (old_seq = new_seq) then print (SayAlreadyUnder step_n new_seq)
      else
        old_list ← getitem (dmap db) old_seq;
        let m1 := dict_set (dmap db) old_seq
                    (List.filter (fun s => bool_decide (s <> step_n)) old_list) in
        let db := Document (version db) (insert_sorted m1 new_seq step_n) in
        atomic_save db;;
        print (SayReassigned step_n old_seq new_seq);;
        print SaySaved
  end.

(** [op_rename] *)
Definition op_rename (old new : option string) : M unit :=
  db ← load_db;
  step_to_seq ← lift (build_reverse_cache db);
  old_n ← step_argument old AskOldStepName;
  found ← (if in_cache old_n step_to_seq then mret (Some old_n)
           else
             print (SayNotFoundRetry old_n);;
             old_n ← prompt_step AskOldStepName;
             if in_cache old_n step_to_seq then mret (Some old_n)
             else print (SayNotFound old_n);; mret None);
  match found with
  | None => mret tt
  | Some old_n =>
      new_n ← step_argument new AskNewStepName;
      free ← (if in_cache new_n step_to_seq then
                print (SayTakenRetry new_n);;
                new_n ← prompt_step AskNewStepName;
                if in_cache new_n step_to_seq then print (SayTaken new_n);; mret None
                else mret (Some new_n)
              else mret (Some new_n));
      match free with
      | None => mret tt
      | Some new_n =>
          seq ← match step_to_seq !! old_n with
                | Some k => mret k
                | None => raise (KeyError old_n)
                end;
          steps ← getitem (dmap db) seq;
          let renamed :=
            map (fun s => if bool_decide (s = old_n) then new_n else s) steps in
          let db := Document (version db) (dict_set (dmap db) seq (Py.sort renamed)) in
          atomic_save db;;
          print (SayRenamed old_n new_n);;
          print SaySaved
      end
  end.

(** [op_remove]; [given] is the test [if not seq]. *)
Definition op_remove (step : string) (assume_yes : bool) : M unit :=
  db ← load_db;
  step_to_seq ← lift (build_reverse_cache db);
  match normalize_step_name step with
  | Err e => print (SayError (StepNameError e))
  | Ok step_n =>
      match given (step_to_seq !! step_n) with
      | None => print (SayNotFound step_n)
      | Some seq =>
          go ← (if negb assume_yes then confirm (AskDeleteStep step_n seq)
                else mret true);
          if negb go then print SayCancelled
          else
            steps ← getitem (dmap db) seq;
            let kept := List.filter (fun s => bool_decide (s <> step_n)) steps in
            let m1 := dict_set (dmap db) seq kept in
            m2 ← match kept with
                 | [] =>
                     drop ← (if assume_yes then mret true
                             else confirm (AskRemoveEmpty seq));
                     mret (if drop : bool then dict_del m1 seq else m1)
                 | _ => mret m1
                 end;
            atomic_save (Document (version db) m2);;
            print (SayRemoved step_n);;
            print SaySaved
      end
  end.

(** A [for] loop of effects. *)
Fixpoint for_M {A : Type} (xs : list A) (body : A -> M unit) : M unit :=
  match xs with
  | [] => mret tt
  | x :: xs' => body x;; for_M xs' body
  end.

(** [op_list] *)
Definition op_list : M unit :=
  db ← load_db;
  print BannerList;;
  for_M (Py.sort (dict_keys (dmap db)))
    (fun seq => steps ← getitem (dmap db) seq; print (SayEntry seq steps)).

(** [op_show]; only [canonicalize_sequence] can raise inside its [try]. *)
Definition op_show (query : string) : M unit :=
  db ← load_db;
  let q := Py.strip query in
  match canonicalize_sequence q with
  | Ok key => print (SayShowSeq key (default [] (dict_get (dmap db) key)))
  | Err _ =>
      match normalize_step_name q with
      | Err e => print (SayError (StepNameError e))
      | Ok qn =>
          step_to_seq ← lift (build_reverse_cache db);
          print (SayShowStep qn (step_to_seq !! qn))
      end
  end.

(** The state of the first loop of [op_lint]: [seen], [ok], and what has been
    printed. *)
Definition lint_state : Type := gmap string string * bool * list line.

(** One round of the first loop: the name check, the owner check, then
    [seen[s] = seq]. *)
Definition lint_step (seq : string) (st : lint_state) (s : string) : lint_state :=
  let '(seen, ok, out) := st in
  let '(ok, out) :=
    match normalize_step_name s with
    | Ok _ => (ok, out)
    | Err e => (false, out ++ [LintBadStep s e])
    end in
  let '(ok, out) :=
    match seen !! s with
    | Some prev =>
        if decide (prev <> seq) then (false, out ++ [LintTwoOwners s prev seq])
        else (ok, out)
    | None => (ok, out)
    end in
  (<[s := seq]> seen, ok, out).

Definition lint_item (st : lint_state) (item : string * list string) : lint_state :=
  fold_left (lint_step (fst item)) (snd item) st.

(** One round of the second loop, over the keys. *)
Definition lint_key (st : bool * list line) (seq : string) : bool * list line :=
  match canonicalize_sequence seq with
  | Ok _ => st
  | Err e => (false, snd st ++ [LintBadSequence seq e])
  end.

(** One round of the third loop: the warning for an empty list. *)
Definition lint_empty (out : list line) (item : string * list string) : list line :=
  match snd item with
  | [] => out ++ [LintEmpty (fst item)]
  | _ => out
  end.

(** Everything [op_lint] prints before its verdict, and the verdict. *)
Definition lint_report (m : dict) : bool * list line :=
  let '(_, ok, out) := fold_left lint_item m (∅, true, []) in
  let '(ok, out) := fold_left lint_key (dict_keys m) (ok, out) in
  (ok, fold_left lint_empty m out).

(** Several [print]s in a row. *)
Definition print_lines (ls : list line) : M unit := fun w => (Ok tt, more_stdout ls w).

(** [op_lint]; [sys.exit(1)] is the exception [SystemExit]. *)
Definition op_lint : M unit :=
  db ← load_db;
  let '(ok, out) := lint_report (dmap db) in
  print_lines out;;
  if ok then print LintOK
  else print LintFailed;; raise (SystemExit 1).

(** The loop of [op_gc] over [list(db["map"].keys())]. *)
Definition gc_key (m : dict) (k : string) : result exn dict :=
  match dict_get m k with
  | Some [] => Ok (dict_del m k)
  | Some _ => Ok m
  | None => Err (KeyError k)
  end.

(** [op_gc] *)
Definition op_gc : M unit :=
  db ← load_db;
  let before := length (dmap db) in
  m ← lift (for_each gc_key (dict_keys (dmap db)) (dmap db));
  let after := length m in
  (if bool_decide (before <> after) then atomic_save (Document (version db) m)
   else mret tt);;
  print (SayGC (Z.of_nat before - Z.of_nat after)).

(** A run from a storage state and the lines typed, no failure planned. *)
Definition fresh (d : option document) (lines : list string) : world :=
  World (Storage (option_map json_of d) None) NoFailure lines [].

(** What the storage path holds. *)
Definition stored (w : world) : option file := target (disk w).

(** ** The command line *)

Definition DEFAULT_FILE : string := "sequences.json".

(** [a.startswith("--")] *)
Definition is_flag (a : string) : bool := String.prefix "--" a.

(** [xs.index(x)], for an [x] that is in [xs]; [None] when it is not. *)
Fixpoint list_index (x : string) (xs : list string) : option nat :=
  match xs with
  | [] => None
  | y :: ys => if decide (y = x) then Some 0 else S <$> list_index x ys
  end.

(** The one exception [main] raises itself: [args[i+1]] past the end. *)
Inductive main_exn : Type :=
| IndexError.

(** The calls [main] ends in, with the arguments it passes besides the
    path. *)
Inductive call : Type :=
| CallAdd
| CallReassign (step new_seq_raw : option string)
| CallRename (old new : option string)
| CallRemove (step : string) (assume_yes : bool)
| CallList
| CallShow (query : string)
| CallLint
| CallGc.

(** The three lines [main] prints itself. *)
Inductive usage : Type :=
| UsageRm
| UsageShow
| UsageCommands.

(** What [main] does with the decoded arguments: one call of an operation on
    [db_path], or one usage line. *)
Inductive action : Type :=
| Call (db_path : string) (c : call)
| Usage (u : usage).

(** The operation a call runs, against the storage at its path. *)
Definition run_call (c : call) : M unit :=
  match c with
  | CallAdd => op_add
  | CallReassign step new_seq_raw => op_reassign step new_seq_raw
  | CallRename old new => op_rename old new
  | CallRemove step assume_yes => op_remove step assume_yes
  | CallList => op_list
  | CallShow query => op_show query
  | CallLint => op_lint
  | CallGc => op_gc
  end.

(** The opening of [main]: [--file PATH] is taken out of the arguments. *)
Definition file_option (args : list string) : result main_exn (string * list string) :=
  match list_index "--file" args with
  | Some i =>
      match args !! (i + 1) with
      | Some db_path => Ok (db_path, take i args ++ drop (i + 2) args)
      | None => Err IndexError
      end
  | None => Ok (DEFAULT_FILE, args)
  end.

(** The [if]/[elif] chain of [main]. *)
Definition dispatch (db_path : string) (args : list string) : action :=
  match args !! 0 with
  | None => Call db_path CallAdd
  | Some cmd =>
      if decide (cmd = "add") then Call db_path CallAdd
      else if decide (cmd = "reassign") then
        let step_arg := if decide (2 <= length args) then args !! 1 else None in
        let seq_arg :=
          if decide (3 <= length args) then Some (Py.join " " (drop 2 args)) else None in
        Call db_path (CallReassign step_arg seq_arg)
      else if decide (cmd = "rename") then
        let old_arg :=
          match args !! 1 with
          | Some a => if negb (is_flag a) then Some a else None
          | None => None
          end in
        let new_arg :=
          if decide (3 <= length args) then
            Some (Py.join " " (List.filter (fun a => negb (is_flag a)) (drop 2 args)))
          else None in
        Call db_path (CallRename old_arg new_arg)
      else if decide (cmd = "rm") then
        if decide (length args < 2) then Usage UsageRm
        else
          let assume_yes := Py.mem "--yes" args in
          let step_arg :=
            Py.join " " (List.filter (fun a => negb (is_flag a)) (drop 1 args)) in
          Call db_path (CallRemove step_arg assume_yes)
      else if decide (cmd = "list") then Call db_path CallList
      else if decide (cmd = "show") then
        if decide (length args < 2) then Usage UsageShow
        else Call db_path (CallShow (Py.join " " (drop 1 args)))
      else if decide (cmd = "lint") then Call db_path CallLint
      else if decide (cmd = "gc") then Call db_path CallGc
      else Usage UsageCommands
  end.

(** [main], on [sys.argv[1:]]. *)
Definition main (argv : list string) : result main_exn action :=
  match file_option argv with
  | Ok (db_path, args) => Ok (dispatch db_path args)
  | Err e => Err e
  end.

(** * Vocabulary of the properties *)

(** The same invocation (arguments, typed lines, failure plan) started on
    the storage its first run left behind. *)
Definition rerun (op : M unit) (w : world) : result exn unit * world :=
  op (with_disk (disk (snd (op w))) w).

(** [confirm]'s reading of a typed answer. *)
Definition affirmative (raw : string) : bool :=
  let ans := Py.lower (Py.strip raw) in
  if negb (Py.truthy ans) then false else Py.mem ans ["y"; "yes"].

(** What [op_reassign] does once both arguments are given and valid and the
    step is in the cache. *)
Definition moved (m : dict) (s A B : string) (listA : list string) : dict :=
  insert_sorted (dict_set m A (List.filter (fun x => bool_decide (x <> s)) listA)) B s.

(** The map [op_remove] writes. *)
Definition removed (m : dict) (s seq : string) (steps : list string) (drop : bool) : dict :=
  let kept := List.filter (fun x => bool_decide (x <> s)) steps in
  let m1 := dict_set m seq kept in
  match kept with
  | [] => if drop then dict_del m1 seq else m1
  | _ => m1
  end.

(** The map [op_rename] writes. *)
Definition renamed (m : dict) (o n seq : string) (steps : list string) : dict :=
  dict_set m seq (Py.sort (map (fun s => if bool_decide (s = o) then n else s) steps)).

(** The entries [op_gc] keeps. *)
Definition gc_map (m : dict) : dict :=
  List.filter (fun item => match snd item with [] => false | _ => true end) m.

(** The part of [op_add] that follows the two prompts ([op_add_prompts]
    below). *)
Definition add_tail (db : document) (step_to_seq : gmap string string)
    (step seq : string) : M unit :=
  let existing := step_to_seq !! step in
  if bool_decide (existing = Some seq) then print (SayAlreadyExists step seq)
  else
    step ← match existing with
           | Some existing =>
               if Py.truthy existing && bool_decide (existing <> seq) then
                 print (SayChooseNewName step existing);;
                 run_reading (new_name_lines step_to_seq)
               else mret step
           | None => mret step
           end;
    let db := Document (version db) (insert_sorted (dmap db) seq step) in
    atomic_save db;;
    print (SayAdded step seq);;
    print SaySaved.

(** A raw sequence as it is typed: tokens, each followed by a run of
    separator characters. *)
Fixpoint spell (body : list (string * string)) : string :=
  match body with
  | [] => EmptyString
  | (tok, sp) :: body' => tok +:+ sp +:+ spell body'
  end.

(** A token: not empty, no separator character in it. *)
Definition token_text (tok : string) : Prop :=
  tok <> EmptyString /\ Py.all (fun c => negb (sep_char c)) tok = true.

(** A run of commas and whitespace, possibly empty. *)
Definition separator_run (sp : string) : Prop := Py.all sep_char sp = true.

(** Every token but the last is followed by at least one separator. *)
Fixpoint well_spelled (body : list (string * string)) : Prop :=
  match body with
  | [] => True
  | (tok, sp) :: body' =>
      token_text tok /\ separator_run sp /\ (body' <> [] -> sp <> EmptyString) /\
      well_spelled body'
  end.

(** The pieces that survive [if t.strip()]. *)
Definition live (pieces : list string) : list string :=
  List.filter (fun t => Py.truthy (Py.strip t)) pieces.

(** The (sequence, step) pairs of a map, in the order the loops visit them. *)
Definition occurrences (m : dict) : list (string * string) :=
  flat_map (fun item => map (fun s => (fst item, s)) (snd item)) m.

(** What one round of the first loop of [op_lint] prints. *)
Definition step_lines (seen : gmap string string) (seq s : string) : list line :=
  match normalize_step_name s with
  | Ok _ => []
  | Err e => [LintBadStep s e]
  end ++
  match seen !! s with
  | Some prev => if decide (prev <> seq) then [LintTwoOwners s prev seq] else []
  | None => []
  end.

(** What the first loop prints over a list of pairs, from a given [seen]. *)
Fixpoint occurrence_lines (seen : gmap string string) (occs : list (string * string))
  : list line :=
  match occs with
  | [] => []
  | (k, s) :: occs' => step_lines seen k s ++ occurrence_lines (<[s := k]> seen) occs'
  end.

(** [seen] after those pairs. *)
Fixpoint seen_after (seen : gmap string string) (occs : list (string * string))
  : gmap string string :=
  match occs with
  | [] => seen
  | (k, s) :: occs' => seen_after (<[s := k]> seen) occs'
  end.

(** What the second loop prints. *)
Definition key_lines (keys : list string) : list line :=
  flat_map (fun k => match canonicalize_sequence k with
                     | Ok _ => []
                     | Err e => [LintBadSequence k e]
                     end) keys.

(** What the third loop prints. *)
Definition empty_lines (m : dict) : list line :=
  flat_map (fun item => match snd item with
                        | [] => [LintEmpty (fst item)]
                        | _ => []
                        end) m.

(** Nothing printed. *)
Definition quiet (ls : list line) : bool :=
  match ls with [] => true | _ => false end.

(** An error-class finding of [op_lint]: a step name on which
    [normalize_step_name] raises, a sequence key on which
    [canonicalize_sequence] raises, or a step under two different keys. *)
Definition lint_error (m : dict) : Prop :=
  (exists s a e, owns m s a /\ normalize_step_name s = Err e) \/
  (exists s a b, owns m s a /\ owns m s b /\ a <> b) \/
  (exists k e, k ∈ dict_keys m /\ canonicalize_sequence k = Err e).

(** Three small documents: a step under two keys and an empty sequence; a
    step under the empty-string key; one step under one key. *)
Definition inconsistent_store : document :=
  Document 1 [("DOWN", ["open menu"]); ("UP", ["open menu"]); ("ENTER", [])].

Definition empty_key_store : document := Document 1 [(EmptyString, ["open menu"])].

Definition one_step_store : document := Document 1 [("UP", ["open menu"])].

(** A step written twice in one list, beside a step under two keys. *)
Definition repeat_and_clash_store : document :=
  Document 1 [("DOWN", ["open menu"; "open menu"]); ("UP", ["close menu"]);
              ("ENTER", ["close menu"])].

(** A key in lowercase with a space for separator, and a step name with two
    spaces between its words. *)
Definition loose_store : document := Document 1 [("down down", ["open  menu"])].

(** A word of a step name: one or more characters of [[a-z0-9]]. *)
Definition name_word (w : string) : Prop :=
  w <> EmptyString /\ Py.all name_char w = true.

(** A run of whitespace, possibly empty. *)
Definition space_run (sp : string) : Prop := Py.all Py.isspace sp = true.

(** Words, each followed by a run of whitespace that is empty only after
    the last one. *)
Fixpoint well_worded (body : list (string * string)) : Prop :=
  match body with
  | [] => True
  | (w, sp) :: body' =>
      name_word w /\ space_run sp /\ (body' <> [] -> sp <> EmptyString) /\
      well_worded body'
  end.

(** Text within the character set the embedding follows Python on. *)
Definition ascii_text (s : string) : Prop :=
  Py.all (fun c => (Py.code c <? 128)%N) s = true.

(** A piece of text with no whitespace in it, as [str.split] returns them. *)
Definition solid (w : string) : Prop :=
  w <> EmptyString /\ Py.all (fun c => negb (Py.isspace c)) w = true.

(** The eight operations, with whatever arguments they are called. *)
Inductive operation : M unit -> Prop :=
| operation_add : operation op_add
| operation_reassign step new_seq_raw : operation (op_reassign step new_seq_raw)
| operation_rename old new : operation (op_rename old new)
| operation_remove step assume_yes : operation (op_remove step assume_yes)
| operation_list : operation op_list
| operation_show query : operation (op_show query)
| operation_lint : operation op_lint
| operation_gc : operation op_gc.

(** The three that answer a question. *)
Inductive query_operation : M unit -> Prop :=
| query_list : query_operation op_list
| query_show query : query_operation (op_show query)
| query_lint : query_operation op_lint.

(** A computation that does nothing but print. *)
Definition prints_only {A : Type} (m : M A) : Prop :=
  forall w, exists out, snd (m w) = more_stdout out w.

(** A computation that leaves the storage and the failure plan alone. *)
Definition reads_only {A : Type} (m : M A) : Prop :=
  forall w, disk (snd (m w)) = disk w /\ failing (snd (m w)) = failing w.

(** How a run may leave the storage path: holding what it held; or, when no
    failure is planned, holding a complete document. *)
Definition settled (w w' : world) : Prop :=
  failing w' = failing w /\
  (target (disk w') = target (disk w) \/
   (failing w = NoFailure /\ exists db, target (disk w') = Some (json_of db))).

Definition commits {A : Type} (m : M A) : Prop :=
  forall w, settled w (snd (m w)).

(** What a prompt loop prints for the lines it rejects: the prompt, then
    the complaint. *)
Definition step_rejections (p : prompt_text) (lines : list string) : list line :=
  flat_map (fun raw => match normalize_step_name (Py.strip raw) with
                       | Ok _ => []
                       | Err e => [Prompt p; SayRenameHint e]
                       end) lines.

Definition sequence_rejections (p : prompt_text) (lines : list string) : list line :=
  flat_map (fun raw => match canonicalize_sequence (Py.strip raw) with
                       | Ok _ => []
                       | Err e => [Prompt p; SayError (SequenceError e)]
                       end) lines.

(** A line the renaming loop of [op_add] does not take: one that does not
    normalize, or the name of a step of the registry. *)
Definition refused_name (step_to_seq : gmap string string) (raw : string) : Prop :=
  match normalize_step_name (Py.strip raw) with
  | Ok name => is_Some (step_to_seq !! name)
  | Err _ => True
  end.

(** The world after one line has been read at a prompt. *)
Definition answered (p : prompt_text) (rest : list string) (w : world) : world :=
  with_stdin rest (more_stdout [Prompt p] w).

(** The keys [op_gc] deletes: those with an empty list. *)
Definition empty_keys (m : dict) : list string :=
  dict_keys (List.filter (fun item => match snd item with [] => true | _ => false end) m).

(** The lines [op_list] prints for the keys, in the order given. *)
Definition entries (m : dict) (keys : list string) : list line :=
  map (fun k => SayEntry k (default [] (dict_get m k))) keys.

(** The exceptions an operation of the embedding can end in: a file that
    is not JSON, a step under two keys, the end of the input, a failed save,
    and the exit status of [lint]. *)
Definition escapes (e : exn) : Prop :=
  e = JSONDecodeError \/ (exists s a b, e = InconsistentJSON s a b) \/
  e = EOFError \/ e = OSError \/ e = SystemExit 1.

(** * Properties *)

(** ** Running a computation *)

Lemma bind_run {A B : Type} (m : M A) (k : A -> M B) (w : world) :
  (m ≫= k) w =
  match m w with
  | (Ok a, w') => k a w'
  | (Err e, w') => (Err e, w')
  end.
Proof. reflexivity. Qed.

(** Running a computation one bind at a time. *)
Lemma ret_run {A : Type} (a : A) (w : world) : (mret a : M A) w = (Ok a, w).
Proof. reflexivity. Qed.

Lemma print_run (l : line) (w : world) : print l w = (Ok tt, more_stdout [l] w).
Proof. reflexivity. Qed.

Lemma lift_run {A : Type} (r : result exn A) (w : world) : lift r w = (r, w).
Proof. reflexivity. Qed.

Lemma raise_run {A : Type} (e : exn) (w : world) : (raise e : M A) w = (Err e, w).
Proof. reflexivity. Qed.

Ltac exec :=
  repeat first
    [ rewrite bind_run | rewrite ret_run | rewrite print_run | rewrite lift_run
    | rewrite raise_run | progress cbn beta iota ].

Lemma run_reading_run {A : Type} (f : list string -> reading A) w :
  run_reading f w =
  let '(a, rest, out) := f (stdin w) in (a, with_stdin rest (more_stdout out w)).
Proof. reflexivity. Qed.

Lemma confirm_run (p : prompt_text) (w : world) :
  confirm p w =
  match stdin w with
  | [] => (Err EOFError, more_stdout [Prompt p] w)
  | raw :: rest => (Ok (affirmative raw), with_stdin rest (more_stdout [Prompt p] w))
  end.
Proof.
  unfold confirm, input, affirmative. exec. destruct (stdin w) as [| raw rest]; [done |].
  exec. by destruct (negb (Py.truthy (Py.lower (Py.strip raw)))).
Qed.

Lemma atomic_save_ok (db : document) (w : world) :
  failing w = NoFailure ->
  atomic_save db w = (Ok tt, with_disk (Storage (Some (json_of db)) None) w).
Proof. intros Hf. unfold atomic_save. by rewrite Hf. Qed.

Lemma with_disk_same (w : world) : with_disk (disk w) w = w.
Proof. by destruct w. Qed.

Lemma load_db_json (db : document) (w : world) :
  let w' := with_disk (Storage (Some (json_of db)) None) w in
  load_db w' = (Ok db, w').
Proof. by destruct db. Qed.

Lemma stored_document w (db db' : document) :
  load_db w = (Ok db, w) -> stored w = Some (json_of db') -> db = db'.
Proof.
  unfold load_db, stored. intros Hload Hst. rewrite Hst in Hload.
  destruct db'. simpl in Hload. by injection Hload as <-.
Qed.

Lemma prompt_valid_step_name_eof (p : prompt_text) w :
  stdin w = [] -> prompt_valid_step_name p w = (Err EOFError, more_stdout [Prompt p] w).
Proof.
  destruct w as [d f i out]. simpl. intros ->. reflexivity.
Qed.

Lemma rerun_unchanged (op : M unit) w :
  disk (snd (op w)) = disk w -> rerun op w = op w.
Proof. intros H. unfold rerun. by rewrite H, with_disk_same. Qed.

Lemma truthy_nonempty (e : string) : e <> EmptyString -> Py.truthy e = true.
Proof. by destruct e. Qed.

Lemma normalize_ok_nonempty (raw s : string) :
  normalize_step_name raw = Ok s -> given (Some raw) = Some raw.
Proof. by destruct raw. Qed.

Lemma canonicalize_ok_nonempty (raw k : string) :
  canonicalize_sequence raw = Ok k -> given (Some raw) = Some raw.
Proof. by destruct raw. Qed.

(** ** The reverse cache is the ownership relation *)

Section ReverseCache.

Implicit Types (rev : gmap string string) (m : dict).

Lemma owns_nil s a : ~ owns [] s a.
Proof. intros (steps & H & _). inversion H. Qed.

Lemma owns_cons k v m s a :
  owns ((k, v) :: m) s a <-> (a = k /\ s ∈ v) \/ owns m s a.
Proof.
  unfold owns. split.
  - intros (steps & Hin & Hs). apply elem_of_cons in Hin as [Heq | Hin].
    + inversion Heq; subst. by left.
    + right. eauto.
  - intros [[-> Hs] | (steps & Hin & Hs)].
    + exists v. split; [apply elem_of_cons; by left | done].
    + exists steps. split; [apply elem_of_cons; by right | done].
Qed.

Lemma owns_app m1 m2 s a : owns (m1 ++ m2) s a <-> owns m1 s a \/ owns m2 s a.
Proof.
  unfold owns. setoid_rewrite elem_of_app. naive_solver.
Qed.

Lemma rev_step_ok_inv seq rev x rev1 :
  rev_step seq rev x = Ok rev1 ->
  rev1 = <[x := seq]> rev /\ forall a, rev !! x = Some a -> a = seq.
Proof.
  unfold rev_step. destruct (rev !! x) as [seen |]; [| intros [= <-]; by split].
  destruct (decide (seen <> seq)) as [Hne | Heq]; [done |].
  intros [= <-]. split; [done |]. intros a [= <-].
  by destruct (decide (seen = seq)).
Qed.

(** The inner loop over one step list: what a successful pass means. *)
Lemma rev_steps_inv seq steps rev rev' :
  for_each (rev_step seq) steps rev = Ok rev' ->
  (forall s a, s ∈ steps -> rev !! s = Some a -> a = seq) /\
  (forall s a, rev' !! s = Some a <-> (rev !! s = Some a \/ (s ∈ steps /\ a = seq))).
Proof.
  revert rev. induction steps as [| x steps IH]; intros rev; simpl.
  - intros [= <-]. split; [by intros s a ?%elem_of_nil |].
    intros s a. rewrite elem_of_nil. tauto.
  - destruct (rev_step seq rev x) as [rev1 |] eqn:Hx; [| done].
    apply rev_step_ok_inv in Hx as [-> Hx].
    intros [Hc Hl]%IH. split.
    + intros s a [-> | Hs]%elem_of_cons; [apply Hx |].
      intros Ha. apply (Hc s a Hs).
      destruct (decide (x = s)) as [-> | Hne].
      * rewrite lookup_insert_eq. f_equal. symmetry. by apply Hx.
      * by rewrite lookup_insert_ne.
    + intros s a. rewrite Hl, elem_of_cons.
      destruct (decide (x = s)) as [-> | Hne].
      * rewrite lookup_insert_eq. split.
        -- intros [[= <-] | [? ->]]; right; auto.
        -- intros [Hs | [_ ->]]; [| by left].
           left. f_equal. symmetry. by apply Hx.
      * rewrite lookup_insert_ne by done.
        split; [intros [? | [? ->]]; auto | intros [? | [[? | ?] ->]]; auto].
        congruence.
Qed.

(** ... and what a failing pass means: the clash is with the cache the
    pass started from. *)
Lemma rev_steps_err seq steps rev e :
  for_each (rev_step seq) steps rev = Err e ->
  exists s a, e = InconsistentJSON s a seq /\ a <> seq /\ s ∈ steps /\ rev !! s = Some a.
Proof.
  revert rev. induction steps as [| x steps IH]; intros rev; simpl; [done |].
  destruct (rev_step seq rev x) as [rev1 | e1] eqn:Hx.
  - apply rev_step_ok_inv in Hx as [-> Hx].
    intros (s & a & -> & Hne & Hs & Hl)%IH. exists s, a.
    repeat split; [done | by right |].
    destruct (decide (x = s)) as [-> | Hxs].
    + rewrite lookup_insert_eq in Hl. congruence.
    + by rewrite lookup_insert_ne in Hl.
  - intros [= <-]. unfold rev_step in Hx.
    destruct (rev !! x) as [seen |] eqn:Hl; [| done].
    destruct (decide (seen <> seq)); [| done].
    injection Hx as <-. exists x, seen. repeat split; try done. by left.
Qed.

Lemma rev_items_inv m rev rev' :
  for_each rev_item m rev = Ok rev' ->
  (forall s a b, rev !! s = Some a -> owns m s b -> a = b) /\
  unique_owner m /\
  (forall s a, rev' !! s = Some a <-> (rev !! s = Some a \/ owns m s a)).
Proof.
  revert rev. induction m as [| [k v] m IH]; intros rev; simpl.
  - intros [= <-]. split; [by intros s a b _ ?%owns_nil |].
    split; [by intros s a b ?%owns_nil |].
    intros s a. split; [by left | by intros [? | ?%owns_nil]].
  - unfold rev_item at 1. simpl.
    destruct (for_each (rev_step k) v rev) as [rev1 |] eqn:H1; [| done].
    apply rev_steps_inv in H1 as [Hc1 Hl1].
    intros (Hc & Hu & Hl)%IH.
    assert (forall s a b, rev !! s = Some a -> owns ((k, v) :: m) s b -> a = b) as Hrev.
    { intros s a b Ha [[-> Hs] | Hb]%owns_cons; [by apply (Hc1 s a) |].
      apply (Hc s a b); [apply Hl1; by left | done]. }
    split; [done |]. split.
    + intros s a b [[-> Ha] | Ha]%owns_cons [[-> Hb] | Hb]%owns_cons.
      * done.
      * apply (Hc s k b); [apply Hl1; by right | done].
      * symmetry. apply (Hc s k a); [apply Hl1; by right | done].
      * by apply (Hu s).
    + intros s a. rewrite Hl, Hl1, owns_cons. tauto.
Qed.

Lemma rev_items_err m rev e :
  for_each rev_item m rev = Err e ->
  exists s a b, e = InconsistentJSON s a b /\ a <> b /\
    (rev !! s = Some a \/ owns m s a) /\ owns m s b.
Proof.
  revert rev. induction m as [| [k v] m IH]; intros rev; simpl; [done |].
  unfold rev_item at 1. simpl.
  destruct (for_each (rev_step k) v rev) as [rev1 |e1] eqn:H1.
  - apply rev_steps_inv in H1 as [_ Hl1].
    intros (s & a & b & -> & Hne & Ha & Hb)%IH.
    exists s, a, b. repeat split; [done | | apply owns_cons; by right].
    destruct Ha as [Ha | Ha]; [| right; apply owns_cons; by right].
    apply Hl1 in Ha as [Ha | [Hs ->]]; [by left |].
    right. apply owns_cons. by left.
  - intros [= <-]. apply rev_steps_err in H1 as (s & a & -> & Hne & Hs & Hl).
    exists s, a, k. repeat split; [done | by left | apply owns_cons; by left].
Qed.

(** A failing build names a step that sits under two different keys. *)
Lemma build_reverse_cache_err db e :
  build_reverse_cache db = Err e ->
  exists s a b, e = InconsistentJSON s a b /\ a <> b /\
    owns (dmap db) s a /\ owns (dmap db) s b.
Proof.
  intros (s & a & b & -> & Hne & [Ha | Ha] & Hb)%rev_items_err.
  - by rewrite lookup_empty in Ha.
  - by exists s, a, b.
Qed.

(** A successful build is exactly the ownership relation of the map. *)
Lemma build_reverse_cache_lookup db idx :
  build_reverse_cache db = Ok idx ->
  forall s a, idx !! s = Some a <-> owns (dmap db) s a.
Proof.
  intros (_ & _ & Hl)%rev_items_inv s a. rewrite Hl, lookup_empty.
  split; [by intros [? | ?] | by right].
Qed.

Lemma build_reverse_cache_unique db idx :
  build_reverse_cache db = Ok idx -> unique_owner (dmap db).
Proof. by intros (_ & ? & _)%rev_items_inv. Qed.

Lemma build_reverse_cache_ok db :
  unique_owner (dmap db) -> exists idx, build_reverse_cache db = Ok idx.
Proof.
  intros Hu. destruct (build_reverse_cache db) as [idx | e] eqn:Hb; [by exists idx |].
  apply build_reverse_cache_err in Hb as (s & a & b & _ & Hne & Ha & Hb).
  destruct Hne. by apply (Hu s).
Qed.

Lemma cache_lookup_None (db : document) (idx : gmap string string) s :
  build_reverse_cache db = Ok idx -> (forall a, ~ owns (dmap db) s a) -> idx !! s = None.
Proof.
  intros Hb Hno. destruct (idx !! s) as [a |] eqn:Hs; [| done].
  destruct (Hno a). by apply (build_reverse_cache_lookup db idx Hb).
Qed.

End ReverseCache.

(** C10, as stated, fails: a step written twice in one list and under no
    other key does not make the build succeed when another step sits under
    two keys; the build raises the inconsistency of that other step. *)
Lemma repeats_do_not_excuse_another_clash :
  let m := dmap repeat_and_clash_store in
  ("DOWN", ["open menu"; "open menu"]) ∈ m /\
  count_occ string_dec ["open menu"; "open menu"] "open menu" = 2 /\
  (forall b, owns m "open menu" b -> b = "DOWN") /\
  build_reverse_cache repeat_and_clash_store =
    Err (InconsistentJSON "close menu" "UP" "ENTER").
Proof.
  split; [apply list_elem_of_here |]. split; [reflexivity |]. split; [| reflexivity].
  intros b (steps & Hin & Hs). simpl in Hin.
  repeat (apply elem_of_cons in Hin as [[= -> ->] | Hin]); try done;
    try (by apply elem_of_nil in Hin);
    repeat (apply elem_of_cons in Hs as [[=] | Hs]); by apply elem_of_nil in Hs.
Qed.

(** C10, amended: a step repeated inside one sequence's list, and listed
    under no other key, does not trip the integrity check: when no other
    step sits under two different keys, the reverse cache is built and maps
    the step to that one sequence. *)
Theorem build_reverse_cache_allows_repeats (db : document) (s a : string)
    (steps : list string) :
  (a, steps) ∈ dmap db ->
  1 < count_occ string_dec steps s ->
  (forall b, owns (dmap db) s b -> b = a) ->
  (forall t b c, t <> s -> owns (dmap db) t b -> owns (dmap db) t c -> b = c) ->
  exists idx, build_reverse_cache db = Ok idx /\ idx !! s = Some a.
Proof.
  intros Hin Hcount Hs Hothers.
  assert (unique_owner (dmap db)) as Hu.
  { intros t b c Hb Hc. destruct (decide (t = s)) as [-> | Hne].
    - by rewrite (Hs b Hb), (Hs c Hc).
    - by apply (Hothers t). }
  destruct (build_reverse_cache_ok db Hu) as [idx Hidx].
  exists idx. split; [done |].
  apply (build_reverse_cache_lookup db idx Hidx). exists steps. split; [done |].
  apply list_elem_of_In, (count_occ_In string_dec). lia.
Qed.

Lemma build_reverse_cache_allows_repeats_witness :
  exists idx,
    build_reverse_cache (Document 1 [("DOWN,DOWN", ["open menu"; "open menu"])]) = Ok idx
    /\ idx !! "open menu" = Some "DOWN,DOWN".
Proof.
  apply (build_reverse_cache_allows_repeats _ "open menu" "DOWN,DOWN"
           ["open menu"; "open menu"]).
  - simpl. apply list_elem_of_here.
  - vm_compute. lia.
  - intros b (steps & Hin%list_elem_of_singleton & _). simpl in Hin. congruence.
  - intros t b c Hne (steps & Hin%list_elem_of_singleton & Ht) _.
    simpl in Hin. injection Hin as -> ->.
    by repeat (apply elem_of_cons in Ht as [-> | Ht]); try apply elem_of_nil in Ht.
Defined.

(** ** Step names: the error classification *)

Lemma isupper_forbidden (c : ascii) : Py.isupper c = true -> forbidden_char c = true.
Proof. destruct c as [[] [] [] [] [] [] [] []]; vm_compute; congruence. Qed.

Lemma any_isupper_forbidden (raw : string) :
  Py.any Py.isupper raw = true -> Py.any forbidden_char raw = true.
Proof.
  induction raw as [| c raw IH]; simpl; [done |].
  intros [Hc | Hraw]%orb_true_iff; apply orb_true_iff.
  - left. by apply isupper_forbidden.
  - right. by apply IH.
Qed.

(** The "uppercase only" branch of [normalize_step_name] is dead: an
    uppercase letter is itself counted as a forbidden character. *)
Lemma normalize_never_uppercase_only (raw : string) :
  normalize_step_name raw <> Err UppercaseOnly.
Proof.
  unfold normalize_step_name.
  destruct (negb (Py.truthy _)); [done |].
  destruct (negb (step_name_fullmatch _)); [| done].
  destruct (Py.any Py.isupper raw) eqn:Hup.
  - by rewrite (any_isupper_forbidden raw Hup).
  - simpl. by destruct (Py.any forbidden_char raw).
Qed.

(** C4: an input whose only fault is an uppercase letter is answered with
    the combined "lowercase only and remove punctuation" message, not with
    the "lowercase only" one, which no input ever receives. *)
Theorem uppercase_only_input_gets_combined_message :
  normalize_step_name "Open menu" = Err UppercaseAndPunctuation /\
  Py.any forbidden_char (Py.lower "Open menu") = false /\
  step_error_message UppercaseAndPunctuation <> step_error_message UppercaseOnly /\
  forall raw, normalize_step_name raw <> Err UppercaseOnly.
Proof.
  split; [by vm_compute |]. split; [by vm_compute |]. split; [by vm_compute |].
  apply normalize_never_uppercase_only.
Qed.

(** ** Sequences: separators do not matter *)

Section Separators.

Implicit Types (s t tok sp rest : string) (c : ascii).

Lemma app_String c s t : String c s +:+ t = String c (s +:+ t).
Proof. reflexivity. Qed.

Lemma app_empty_r s : s +:+ EmptyString = s.
Proof. induction s as [| c s IH]; [done |]. by rewrite app_String, IH. Qed.

Lemma re_split_seps_head c s :
  sep_char c = true -> exists fs, re_split_seps (String c s) = EmptyString :: fs.
Proof.
  revert c. induction s as [| c' s IH]; intros c Hc; simpl; rewrite Hc.
  - by eexists.
  - destruct (sep_char c') eqn:Hc'; [| by eexists].
    destruct (IH c' Hc') as [fs Hfs]. exists fs. rewrite <- Hfs. simpl. by rewrite Hc'.
Qed.

Lemma re_split_seps_cons s : exists f fs, re_split_seps s = f :: fs.
Proof.
  induction s as [| c s (f & fs & IH)]; simpl; [by eexists _, _ |].
  destruct (sep_char c).
  - destruct s as [| c' s]; [by eexists _, _ |].
    destruct (sep_char c'); [by exists f, fs | by eexists _, _].
  - rewrite IH. by eexists _, _.
Qed.

Lemma re_split_seps_token tok rest f fs :
  Py.all (fun c => negb (sep_char c)) tok = true ->
  re_split_seps rest = f :: fs ->
  re_split_seps (tok +:+ rest) = (tok +:+ f) :: fs.
Proof.
  intros Htok Hrest. induction tok as [| c tok IH]; simpl in Htok.
  - done.
  - apply andb_true_iff in Htok as [Hc Htok]. rewrite app_String. simpl.
    apply negb_true_iff in Hc. by rewrite Hc, (IH Htok).
Qed.

Lemma live_skips_separator c s :
  sep_char c = true -> live (re_split_seps (String c s)) = live (re_split_seps s).
Proof.
  intros Hc. destruct s as [| c' s]; simpl; rewrite Hc; [done |].
  by destruct (sep_char c').
Qed.

Lemma live_skips_run sp rest :
  separator_run sp -> live (re_split_seps (sp +:+ rest)) = live (re_split_seps rest).
Proof.
  unfold separator_run. induction sp as [| c sp IH]; [done |].
  intros Hsp. simpl in Hsp. apply andb_true_iff in Hsp as [Hc Hsp].
  rewrite app_String, live_skips_separator by done.
  by apply IH.
Qed.

Lemma not_sep_not_space c : negb (sep_char c) = true -> Py.isspace c = false.
Proof.
  unfold sep_char. intros H%negb_true_iff. by apply orb_false_iff in H as [_ ?].
Qed.

Lemma rstrip_token tok :
  Py.all (fun c => negb (sep_char c)) tok = true -> Py.rstrip tok = tok.
Proof.
  induction tok as [| c tok IH]; simpl; [done |].
  intros [Hc Htok]%andb_true_iff. rewrite (IH Htok), (not_sep_not_space c Hc).
  by destruct tok.
Qed.

Lemma strip_token tok :
  Py.all (fun c => negb (sep_char c)) tok = true -> Py.strip tok = tok.
Proof.
  intros Htok. unfold Py.strip.
  assert (Py.lstrip tok = tok) as ->; [| by apply rstrip_token].
  destruct tok as [| c tok]; [done |]. simpl in *.
  apply andb_true_iff in Htok as [Hc _]. by rewrite (not_sep_not_space c Hc).
Qed.

(** The live pieces of a well-spelled input are its tokens. *)
Lemma live_spell body :
  well_spelled body -> live (re_split_seps (spell body)) = map fst body.
Proof.
  induction body as [| [tok sp] body IH]; [done |].
  intros ([Hne Htok] & Hsp & Hlast & Hbody). simpl spell.
  assert (exists fs, re_split_seps (sp +:+ spell body) = EmptyString :: fs) as [fs Hfs].
  { destruct sp as [| c sp].
    - destruct body as [| item body]; [by eexists |]. by destruct Hlast.
    - unfold separator_run in Hsp. simpl in Hsp.
      apply andb_true_iff in Hsp as [Hc _]. rewrite app_String.
      by apply re_split_seps_head. }
  rewrite (re_split_seps_token tok _ EmptyString fs Htok Hfs), app_empty_r.
  simpl. rewrite (strip_token tok Htok).
  destruct tok as [| c tok]; [done |]. simpl. f_equal.
  rewrite <- (IH Hbody), <- (live_skips_run sp (spell body) Hsp), Hfs. done.
Qed.

Lemma tokens_of_spelling lead body :
  separator_run lead -> well_spelled body ->
  tokens_of (re_split_seps (lead +:+ spell body)) =
  map (fun t => Py.upper (Py.strip t)) (map fst body).
Proof.
  intros Hlead Hbody. unfold tokens_of. fold (live (re_split_seps (lead +:+ spell body))).
  by rewrite live_skips_run, live_spell.
Qed.

End Separators.

(** C6: two raw inputs with the same tokens in the same order, whatever
    commas and whitespace separate (or surround) them, canonicalize alike. *)
Theorem canonicalize_sequence_separator_blind
    (lead1 lead2 : string) (body1 body2 : list (string * string)) :
  separator_run lead1 -> separator_run lead2 ->
  well_spelled body1 -> well_spelled body2 ->
  map fst body1 = map fst body2 ->
  canonicalize_sequence (lead1 +:+ spell body1) =
  canonicalize_sequence (lead2 +:+ spell body2).
Proof.
  intros Hl1 Hl2 Hb1 Hb2 Htoks.
  unfold canonicalize_sequence, canonicalize_sequence_with.
  by rewrite !tokens_of_spelling, Htoks.
Qed.

Lemma canonicalize_sequence_separator_blind_witness :
  canonicalize_sequence "down, down" = canonicalize_sequence "down down" /\
  canonicalize_sequence "down down" = Ok "DOWN,DOWN".
Proof.
  split; [| by vm_compute].
  apply (canonicalize_sequence_separator_blind EmptyString EmptyString
           [("down", ", "); ("down", EmptyString)] [("down", " "); ("down", EmptyString)]);
    by vm_compute.
Defined.

(** ** Persistence *)

Ltac each_state Hd :=
  repeat (apply elem_of_cons in Hd as [-> | Hd]); [.. | by apply elem_of_nil in Hd].

(** C3: whatever fails during a save, and wherever a run is interrupted,
    the storage path holds the previous content until the replace, and the
    complete new document after it; a save that fails leaves it untouched. *)
Theorem atomic_save_crash_safe (f : failure) (db : document) (d : storage) :
  let '(trace, r) := atomic_save_trace f db d in
  (forall d', d' ∈ trace -> is_Some (temp d') -> target d' = target d) /\
  (forall d', d' ∈ trace ->
     target d' = target d \/ (f = NoFailure /\ target d' = Some (json_of db))) /\
  (f <> NoFailure ->
     r = Err OSError /\ forall d', d' ∈ trace -> target d' = target d) /\
  (f = NoFailure ->
     r = Ok tt /\ target (List.last trace d) = Some (json_of db)) /\
  (forall w, disk w = d -> failing w = f ->
     fst (atomic_save db w) = r /\
     (r <> Ok tt -> target (disk (snd (atomic_save db w))) = target d)).
Proof.
  destruct f; cbn [atomic_save_trace]; (split; [| split; [| split; [| split]]]).
  all: try (intros d' Hd' Ht; each_state Hd'; cbn in *;
            first [reflexivity | by destruct (is_Some_None Ht)]).
  all: try (intros d' Hd'; each_state Hd'; cbn; first [by left | by right]).
  all: try (intros Hf; first [congruence | split; [reflexivity |]];
            first [reflexivity | intros d' Hd'; each_state Hd'; reflexivity]).
  all: intros w <- Hf; unfold atomic_save; rewrite Hf; cbn; split; try done.
Qed.

(** ** The integrity check at the head of an operation *)

(** C2, as stated, fails: [op_gc] never builds the reverse cache, so on a
    store with a step under two keys it runs to the end and rewrites the
    storage; [op_list] and [op_lint] do not build it either. *)
Lemma gc_rewrites_inconsistent_store :
  let w := fresh (Some inconsistent_store) [] in
  build_reverse_cache inconsistent_store = Err (InconsistentJSON "open menu" "DOWN" "UP") /\
  fst (op_gc w) = Ok tt /\
  stored (snd (op_gc w)) =
    Some (json_of (Document 1 [("DOWN", ["open menu"]); ("UP", ["open menu"])])) /\
  stored (snd (op_gc w)) <> stored w /\
  fst (op_list w) = Ok tt /\
  fst (op_lint w) = Err (SystemExit 1).
Proof. by vm_compute. Qed.

(** C2, amended: [op_add], [op_reassign], [op_rename] and [op_remove] build
    the reverse cache right after loading, and [op_show] does once the query
    has failed to parse as a sequence and parsed as a step name; when a step
    sits under two keys they raise the inconsistency, having read, printed
    and written nothing. *)
Theorem index_guard_stops_operation (w : world) (db : document) (e : exn) :
  load_db w = (Ok db, w) ->
  build_reverse_cache db = Err e ->
  (exists s a b, e = InconsistentJSON s a b /\ a <> b /\
     owns (dmap db) s a /\ owns (dmap db) s b) /\
  op_add w = (Err e, w) /\
  (forall step new_seq_raw, op_reassign step new_seq_raw w = (Err e, w)) /\
  (forall old new, op_rename old new w = (Err e, w)) /\
  (forall step assume_yes, op_remove step assume_yes w = (Err e, w)) /\
  (forall query se qn,
     canonicalize_sequence (Py.strip query) = Err se ->
     normalize_step_name (Py.strip query) = Ok qn ->
     op_show query w = (Err e, w)).
Proof.
  intros Hload Hbuild. split; [by apply build_reverse_cache_err |].
  repeat split; intros;
    unfold op_add, op_reassign, op_rename, op_remove, op_show;
    rewrite bind_run, Hload; simpl.
  1-4: by rewrite bind_run; unfold lift; rewrite Hbuild.
  rewrite H, H0. by rewrite bind_run; unfold lift; rewrite Hbuild.
Qed.

Lemma index_guard_stops_operation_witness :
  let w := fresh (Some inconsistent_store) ["open menu"; "UP"] in
  let e := InconsistentJSON "open menu" "DOWN" "UP" in
  op_add w = (Err e, w) /\ op_remove "open menu" true w = (Err e, w).
Proof.
  intros w e.
  destruct (index_guard_stops_operation w inconsistent_store e)
    as (_ & Hadd & _ & _ & Hrm & _); [reflexivity | by vm_compute |].
  split; [exact Hadd | exact (Hrm "open menu" true)].
Defined.

(** ** Lint *)

Section Lint.

Implicit Types (seen : gmap string string) (m : dict) (out : list line).

Lemma quiet_app (xs ys : list line) : quiet (xs ++ ys) = quiet xs && quiet ys.
Proof. by destruct xs. Qed.

Lemma quiet_false (xs : list line) : quiet xs = false <-> exists l, l ∈ xs.
Proof.
  destruct xs as [| l xs]; simpl; split; try done.
  - by intros [l ?%elem_of_nil].
  - intros _. exists l. apply list_elem_of_here.
Qed.

Lemma occurrences_owns m s k : (k, s) ∈ occurrences m <-> owns m s k.
Proof.
  unfold occurrences, owns. rewrite list_elem_of_In, in_flat_map. split.
  - intros ([k' steps] & Hin & Hs). simpl in Hs.
    apply in_map_iff in Hs as (s' & [= -> ->] & Hs).
    exists steps. by rewrite !list_elem_of_In.
  - intros (steps & Hin & Hs). exists (k, steps).
    rewrite <- list_elem_of_In. split; [done |]. simpl.
    apply in_map_iff. exists s. by rewrite <- list_elem_of_In.
Qed.

Lemma lint_step_run seq seen ok out s :
  lint_step seq (seen, ok, out) s =
  (<[s := seq]> seen, ok && quiet (step_lines seen seq s), out ++ step_lines seen seq s).
Proof.
  unfold lint_step, step_lines.
  destruct (normalize_step_name s) as [? | e]; destruct (seen !! s) as [prev |];
    try destruct (decide (prev <> seq)); simpl;
    rewrite ?app_nil_r, ?andb_true_r, ?andb_false_r, <- ?app_assoc; done.
Qed.

Lemma lint_steps_run seq seen ok out steps :
  fold_left (lint_step seq) steps (seen, ok, out) =
  let occs := map (fun s => (seq, s)) steps in
  (seen_after seen occs, ok && quiet (occurrence_lines seen occs),
   out ++ occurrence_lines seen occs).
Proof.
  revert seen ok out. induction steps as [| s steps IH]; intros seen ok out;
    cbn [fold_left map occurrence_lines seen_after].
  - by rewrite andb_true_r, app_nil_r.
  - rewrite lint_step_run, IH. cbn zeta.
    by rewrite quiet_app, andb_assoc, <- app_assoc.
Qed.

Lemma seen_after_app seen xs ys :
  seen_after seen (xs ++ ys) = seen_after (seen_after seen xs) ys.
Proof. revert seen. induction xs as [| [k s] xs IH]; intros seen; simpl; auto. Qed.

Lemma occurrence_lines_app seen xs ys :
  occurrence_lines seen (xs ++ ys) =
  occurrence_lines seen xs ++ occurrence_lines (seen_after seen xs) ys.
Proof.
  revert seen. induction xs as [| [k s] xs IH]; intros seen; simpl; [done |].
  by rewrite IH, <- app_assoc.
Qed.

Lemma lint_items_run m seen ok out :
  fold_left lint_item m (seen, ok, out) =
  (seen_after seen (occurrences m),
   ok && quiet (occurrence_lines seen (occurrences m)),
   out ++ occurrence_lines seen (occurrences m)).
Proof.
  revert seen ok out. induction m as [| [k v] m IH]; intros seen ok out; simpl.
  - by rewrite andb_true_r, app_nil_r.
  - unfold lint_item at 2. simpl. rewrite lint_steps_run. simpl. rewrite IH.
    by rewrite seen_after_app, occurrence_lines_app, quiet_app, andb_assoc, <- app_assoc.
Qed.

Lemma lint_keys_run keys ok out :
  fold_left lint_key keys (ok, out) = (ok && quiet (key_lines keys), out ++ key_lines keys).
Proof.
  revert ok out. induction keys as [| k keys IH]; intros ok out; simpl.
  - by rewrite andb_true_r, app_nil_r.
  - change (key_lines (k :: keys)) with
      (match canonicalize_sequence k with
       | Ok _ => []
       | Err e => [LintBadSequence k e]
       end ++ key_lines keys).
    unfold lint_key at 2.
    destruct (canonicalize_sequence k) as [? | e]; simpl; rewrite IH; [done |].
    by rewrite andb_false_r, <- app_assoc.
Qed.

Lemma lint_empties_run m out : fold_left lint_empty m out = out ++ empty_lines m.
Proof.
  revert out. induction m as [| [k v] m IH]; intros out; simpl.
  - by rewrite app_nil_r.
  - change (empty_lines ((k, v) :: m)) with
      (match v with [] => [LintEmpty k] | _ => [] end ++ empty_lines m).
    unfold lint_empty at 2. rewrite IH.
    destruct v; simpl; [by rewrite <- app_assoc | done].
Qed.

Lemma lint_report_run m :
  lint_report m =
  (quiet (occurrence_lines ∅ (occurrences m)) && quiet (key_lines (dict_keys m)),
   occurrence_lines ∅ (occurrences m) ++ key_lines (dict_keys m) ++ empty_lines m).
Proof.
  unfold lint_report. rewrite lint_items_run, lint_keys_run, lint_empties_run.
  simpl. by rewrite <- app_assoc.
Qed.

(** Completeness of the first loop. *)
Lemma bad_step_reported seen occs k s e :
  (k, s) ∈ occs -> normalize_step_name s = Err e ->
  LintBadStep s e ∈ occurrence_lines seen occs.
Proof.
  revert seen. induction occs as [| [k' s'] occs IH]; intros seen Hin He.
  - by apply elem_of_nil in Hin.
  - simpl. apply elem_of_app. apply elem_of_cons in Hin as [[= <- <-] | Hin].
    + left. unfold step_lines. rewrite He. apply elem_of_app. left. apply list_elem_of_here.
    + right. by apply IH.
Qed.

Lemma seen_clash_reported seen occs s a b :
  seen !! s = Some a -> (b, s) ∈ occs -> a <> b ->
  exists x y, LintTwoOwners s x y ∈ occurrence_lines seen occs.
Proof.
  revert seen. induction occs as [| [k s'] occs IH]; intros seen Hseen Hin Hne.
  - by apply elem_of_nil in Hin.
  - simpl. destruct (decide (s' = s)) as [-> | Hs].
    + destruct (decide (a = k)) as [-> | Hak].
      * apply elem_of_cons in Hin as [[= ->] | Hin]; [done |].
        destruct (IH (<[s := k]> seen)) as (x & y & Hxy); [by rewrite lookup_insert_eq | done.. |].
        exists x, y. apply elem_of_app. by right.
      * exists a, k. apply elem_of_app. left. unfold step_lines. rewrite Hseen.
        rewrite decide_True by done. apply elem_of_app. right. apply list_elem_of_here.
    + apply elem_of_cons in Hin as [[= _ ->] | Hin]; [done |].
      destruct (IH (<[s' := k]> seen)) as (x & y & Hxy);
        [by rewrite lookup_insert_ne | done.. |].
      exists x, y. apply elem_of_app. by right.
Qed.

Lemma two_owners_reported seen occs s a b :
  (a, s) ∈ occs -> (b, s) ∈ occs -> a <> b ->
  exists x y, LintTwoOwners s x y ∈ occurrence_lines seen occs.
Proof.
  revert seen. induction occs as [| [k s'] occs IH]; intros seen Ha Hb Hne.
  - by apply elem_of_nil in Ha.
  - simpl.
    assert (forall x y, LintTwoOwners s x y ∈ occurrence_lines (<[s' := k]> seen) occs ->
            exists x y, LintTwoOwners s x y ∈
              step_lines seen k s' ++ occurrence_lines (<[s' := k]> seen) occs) as Hlater.
    { intros x y Hxy. exists x, y. apply elem_of_app. by right. }
    apply elem_of_cons in Ha as [Ha | Ha]; apply elem_of_cons in Hb as [Hb | Hb];
      simplify_eq.
    + destruct (seen_clash_reported (<[s' := k]> seen) occs s' k b) as (x & y & Hxy);
        [by rewrite lookup_insert_eq | done.. |]. by apply (Hlater x y).
    + destruct (seen_clash_reported (<[s' := k]> seen) occs s' k a) as (x & y & Hxy);
        [by rewrite lookup_insert_eq | done | by apply not_eq_sym |]. by apply (Hlater x y).
    + destruct (IH (<[s' := k]> seen)) as (x & y & Hxy); [done.. |]. by apply (Hlater x y).
Qed.

(** Soundness of the first loop: every line it prints is a real finding. *)
Lemma occurrence_lines_sound seen occs l :
  l ∈ occurrence_lines seen occs ->
  (exists s e k, l = LintBadStep s e /\ (k, s) ∈ occs /\ normalize_step_name s = Err e) \/
  (exists s a b, l = LintTwoOwners s a b /\ a <> b /\ (b, s) ∈ occs /\
     (seen !! s = Some a \/ (a, s) ∈ occs)).
Proof.
  revert seen. induction occs as [| [k s'] occs IH]; intros seen; simpl.
  - by intros ?%elem_of_nil.
  - intros [Hl | Hl]%elem_of_app.
    + unfold step_lines in Hl. apply elem_of_app in Hl as [Hl | Hl].
      * destruct (normalize_step_name s') as [? | e] eqn:He; [by apply elem_of_nil in Hl |].
        apply list_elem_of_singleton in Hl as ->. left. exists s', e, k.
        repeat split; [apply list_elem_of_here | done].
      * destruct (seen !! s') as [prev |] eqn:Hs; [| by apply elem_of_nil in Hl].
        destruct (decide (prev <> k)); [| by apply elem_of_nil in Hl].
        apply list_elem_of_singleton in Hl as ->. right. exists s', prev, k.
        repeat split; [done | apply list_elem_of_here | by left].
    + apply IH in Hl as [(s & e & k' & -> & Hin & He) | (s & a & b & -> & Hne & Hb & Ha)].
      * left. exists s, e, k'. repeat split; [by apply list_elem_of_further | done].
      * right. exists s, a, b. repeat split; [done | by apply list_elem_of_further |].
        destruct Ha as [Ha | Ha]; [| right; by apply list_elem_of_further].
        destruct (decide (s' = s)) as [-> | Hs].
        -- rewrite lookup_insert_eq in Ha. injection Ha as ->. right. apply list_elem_of_here.
        -- rewrite lookup_insert_ne in Ha by done. by left.
Qed.

Lemma bad_key_reported keys k e :
  k ∈ keys -> canonicalize_sequence k = Err e -> LintBadSequence k e ∈ key_lines keys.
Proof.
  intros Hin He. unfold key_lines. apply list_elem_of_In, in_flat_map.
  exists k. split; [by apply list_elem_of_In |]. rewrite He. by left.
Qed.

Lemma key_lines_sound keys l :
  l ∈ key_lines keys ->
  exists k e, l = LintBadSequence k e /\ k ∈ keys /\ canonicalize_sequence k = Err e.
Proof.
  unfold key_lines. intros (k & Hin & Hl)%list_elem_of_In%in_flat_map.
  destruct (canonicalize_sequence k) as [? | e] eqn:He; [done |].
  destruct Hl as [<- | []]. exists k, e. by rewrite list_elem_of_In.
Qed.

Lemma empty_reported m k : (k, []) ∈ m -> LintEmpty k ∈ empty_lines m.
Proof.
  intros Hin. unfold empty_lines. apply list_elem_of_In, in_flat_map.
  exists (k, []). split; [by apply list_elem_of_In | by left].
Qed.

(** The verdict: [ok] ends up false exactly when there is a finding. *)
Lemma lint_report_verdict m : fst (lint_report m) = false <-> lint_error m.
Proof.
  rewrite lint_report_run. simpl. rewrite andb_false_iff, !quiet_false. split.
  - intros [[l Hl] | [l Hl]].
    + apply occurrence_lines_sound in Hl
        as [(s & e & k & _ & Hin & He) | (s & a & b & _ & Hne & Hb & [Ha | Ha])].
      * left. exists s, k, e. split; [by apply occurrences_owns | done].
      * by rewrite lookup_empty in Ha.
      * right. left. exists s, a, b. by rewrite <- !occurrences_owns.
    + apply key_lines_sound in Hl as (k & e & _ & Hin & He).
      right. right. by exists k, e.
  - intros [(s & a & e & Hin & He) | [(s & a & b & Ha & Hb & Hne) | (k & e & Hin & He)]].
    + left. exists (LintBadStep s e).
      apply (bad_step_reported _ _ a); [by apply occurrences_owns | done].
    + left. destruct (two_owners_reported ∅ (occurrences m) s a b) as (x & y & Hxy);
        [by apply occurrences_owns.. | done |]. by exists (LintTwoOwners s x y).
    + right. exists (LintBadSequence k e). by apply bad_key_reported.
Qed.

End Lint.

(** X31: what [op_lint] reports.  It goes through the whole document: every
    step name on which [normalize_step_name] raises, every step under two
    keys, every sequence key on which [canonicalize_sequence] raises and
    every empty sequence is printed; it exits with status 1 exactly when
    there is a finding of the first three kinds (an empty sequence is not
    one) and returns normally otherwise; the storage is never touched. *)
Theorem lint_collects_and_judges (w : world) (db : document) :
  load_db w = (Ok db, w) ->
  let r := fst (op_lint w) in
  let w' := snd (op_lint w) in
  let m := dmap db in
  disk w' = disk w /\
  (forall s a e, owns m s a -> normalize_step_name s = Err e ->
     LintBadStep s e ∈ stdout w') /\
  (forall s a b, owns m s a -> owns m s b -> a <> b ->
     exists x y, LintTwoOwners s x y ∈ stdout w') /\
  (forall k e, k ∈ dict_keys m -> canonicalize_sequence k = Err e ->
     LintBadSequence k e ∈ stdout w') /\
  (forall k, (k, []) ∈ m -> LintEmpty k ∈ stdout w') /\
  (r = Err (SystemExit 1) <-> lint_error m) /\
  (r = Ok tt <-> ~ lint_error m).
Proof.
  intros Hload. unfold op_lint. rewrite bind_run, Hload.
  pose proof (lint_report_verdict (dmap db)) as Hverdict.
  rewrite lint_report_run in *. simpl in Hverdict.
  set (occ := occurrence_lines ∅ (occurrences (dmap db))) in *.
  set (keyl := key_lines (dict_keys (dmap db))) in *.
  set (emp := empty_lines (dmap db)).
  assert (forall l, l ∈ occ ++ keyl ++ emp ->
          forall tail, l ∈ (stdout w ++ occ ++ keyl ++ emp) ++ tail) as Hout.
  { intros l Hl tail. apply elem_of_app. left. apply elem_of_app. by right. }
  destruct (quiet occ && quiet keyl) eqn:Hok; cbn.
  - repeat split; try done.
    + intros s a e Ha He. apply Hout, elem_of_app. left.
      apply (bad_step_reported _ _ a); [by apply occurrences_owns | done].
    + intros s a b Ha Hb Hne.
      destruct (two_owners_reported ∅ (occurrences (dmap db)) s a b) as (x & y & Hxy);
        [by apply occurrences_owns.. | done |].
      exists x, y. apply Hout, elem_of_app. by left.
    + intros k e Hk He. apply Hout, elem_of_app. right. apply elem_of_app. left.
      by apply bad_key_reported.
    + intros k Hk. apply Hout, elem_of_app. right. apply elem_of_app. right.
      by apply empty_reported.
    + intros He%Hverdict. done.
    + intros _ He%Hverdict. done.
  - repeat split; try done.
    + intros s a e Ha He. apply Hout, elem_of_app. left.
      apply (bad_step_reported _ _ a); [by apply occurrences_owns | done].
    + intros s a b Ha Hb Hne.
      destruct (two_owners_reported ∅ (occurrences (dmap db)) s a b) as (x & y & Hxy);
        [by apply occurrences_owns.. | done |].
      exists x, y. apply Hout, elem_of_app. by left.
    + intros k e Hk He. apply Hout, elem_of_app. right. apply elem_of_app. left.
      by apply bad_key_reported.
    + intros k Hk. apply Hout, elem_of_app. right. apply elem_of_app. right.
      by apply empty_reported.
    + intros _. by apply Hverdict.
    + intros Hno. destruct Hno. by apply Hverdict.
Qed.

Lemma lint_collects_and_judges_witness :
  let w := fresh (Some (Document 1 [("DOWN", []); ("UP", ["Open menu"])])) [] in
  disk (snd (op_lint w)) = disk w /\
  LintBadStep "Open menu" UppercaseAndPunctuation ∈ stdout (snd (op_lint w)) /\
  LintEmpty "DOWN" ∈ stdout (snd (op_lint w)) /\
  fst (op_lint w) = Err (SystemExit 1).
Proof.
  intros w.
  destruct (lint_collects_and_judges w (Document 1 [("DOWN", []); ("UP", ["Open menu"])]))
    as (Hdisk & Hstep & _ & _ & Hempty & Hfail & _); [reflexivity |].
  split; [exact Hdisk |]. split; [| split].
  - apply (Hstep "Open menu" "UP"); [| reflexivity].
    exists ["Open menu"]. split; [| apply list_elem_of_here].
    simpl. apply list_elem_of_further, list_elem_of_here.
  - apply Hempty. simpl. apply list_elem_of_here.
  - apply Hfail. left. exists "Open menu", "UP", UppercaseAndPunctuation.
    split; [| reflexivity].
    exists ["Open menu"]. split; [| apply list_elem_of_here].
    simpl. apply list_elem_of_further, list_elem_of_here.
Defined.

(** ** Dictionaries, ownership and what the operations write *)

Section Dict.

Implicit Types (m : dict) (k s a : string) (v : list string) (w : world).

Lemma dict_get_elem m k v : dict_get m k = Some v -> (k, v) ∈ m.
Proof.
  induction m as [| [k' v'] m IH]; simpl; [done |].
  destruct (decide (k' = k)) as [-> | Hne].
  - intros [= ->]. apply list_elem_of_here.
  - intros H. apply list_elem_of_further. by apply IH.
Qed.

Lemma dict_get_is_Some m k : is_Some (dict_get m k) <-> k ∈ dict_keys m.
Proof.
  unfold dict_keys. induction m as [| [k' v'] m IH]; simpl.
  - split; [by intros [? ?] | by intros ?%elem_of_nil].
  - rewrite elem_of_cons. simpl. destruct (decide (k' = k)) as [-> | Hne].
    + split; [by left | by eexists].
    + rewrite IH. split; [by right | intros [-> | ?]; done].
Qed.

Lemma dict_get_nodup m k v : NoDup (dict_keys m) -> (k, v) ∈ m -> dict_get m k = Some v.
Proof.
  unfold dict_keys. induction m as [| [k' v'] m IH]; simpl.
  - by intros _ ?%elem_of_nil.
  - intros [Hk' Hnd]%NoDup_cons [[= -> ->] | Hin]%elem_of_cons.
    + by rewrite decide_True.
    + rewrite decide_False; [by apply IH |].
      intros ->. apply Hk'. apply list_elem_of_fmap. by exists (k, v).
Qed.

Lemma dict_get_set m k v k' :
  dict_get (dict_set m k v) k' = if decide (k = k') then Some v else dict_get m k'.
Proof.
  induction m as [| [k0 v0] m IH]; simpl.
  - by destruct (decide (k = k')).
  - destruct (decide (k0 = k)) as [-> | Hne]; simpl.
    + by destruct (decide (k = k')).
    + rewrite IH. destruct (decide (k0 = k')) as [-> | ?]; [| done].
      by rewrite decide_False by done.
Qed.

Lemma dict_get_setdefault m k v k' :
  dict_get (dict_setdefault m k v) k' =
  if decide (k = k') then Some (default v (dict_get m k)) else dict_get m k'.
Proof.
  unfold dict_setdefault. destruct (dict_get m k) as [v0 |] eqn:Hk.
  - destruct (decide (k = k')) as [<- | ?]; [done | done].
  - rewrite dict_get_set. by destruct (decide (k = k')).
Qed.

Lemma sort_elem (l : list string) (x : string) : x ∈ Py.sort l <-> x ∈ l.
Proof. unfold Py.sort. by rewrite merge_sort_Permutation. Qed.

Lemma sort_sorted (l : list string) : Sorted String.le (Py.sort l).
Proof. apply Sorted_merge_sort. apply _. Qed.

Lemma mem_true (x : string) (l : list string) : Py.mem x l = true <-> x ∈ l.
Proof. unfold Py.mem. apply bool_decide_eq_true. Qed.

Lemma mem_false (x : string) (l : list string) : Py.mem x l = false <-> x ∉ l.
Proof. unfold Py.mem. apply bool_decide_eq_false. Qed.

(** The list a key holds after [insert_sorted]. *)
Lemma dict_get_insert_sorted m seq step k :
  dict_get (insert_sorted m seq step) k =
  if decide (seq = k) then
    let lst := default [] (dict_get m seq) in
    Some (if Py.mem step lst then lst else Py.sort (lst ++ [step]))
  else dict_get m k.
Proof.
  unfold insert_sorted. rewrite !dict_get_setdefault, decide_True by done. simpl.
  destruct (Py.mem step (default [] (dict_get m seq))).
  - rewrite dict_get_setdefault. by destruct (decide (seq = k)).
  - rewrite dict_get_set, dict_get_setdefault. by destruct (decide (seq = k)).
Qed.

Lemma cache_owner_listed (db : document) (idx : gmap string string) (s a : string) :
  build_reverse_cache db = Ok idx -> idx !! s = Some a ->
  exists steps, dict_get (dmap db) a = Some steps.
Proof.
  intros Hb Hs. apply (build_reverse_cache_lookup db idx Hb) in Hs as (steps & Hin & _).
  apply dict_get_is_Some. unfold dict_keys. apply list_elem_of_fmap. by exists (a, steps).
Qed.

(** With distinct keys, ownership is a lookup. *)
Lemma owns_get m s a :
  NoDup (dict_keys m) -> owns m s a <-> s ∈ default [] (dict_get m a).
Proof.
  intros Hnd. split.
  - intros (steps & Hin & Hs). by rewrite (dict_get_nodup m a steps).
  - destruct (dict_get m a) as [steps |] eqn:Ha; simpl; [| by intros ?%elem_of_nil].
    intros Hs. exists steps. split; [by apply dict_get_elem | done].
Qed.

Lemma dict_keys_set m k v :
  dict_keys (dict_set m k v) =
  if bool_decide (k ∈ dict_keys m) then dict_keys m else dict_keys m ++ [k].
Proof.
  unfold dict_keys. induction m as [| [k' v'] m IH]; simpl; [done |].
  destruct (decide (k' = k)) as [-> | Hne]; simpl.
  - rewrite bool_decide_true; [done | apply list_elem_of_here].
  - rewrite IH. destruct (bool_decide (k ∈ map fst m)) eqn:Hk.
    + apply bool_decide_eq_true in Hk. rewrite bool_decide_true; [done |].
      by apply list_elem_of_further.
    + apply bool_decide_eq_false in Hk. rewrite bool_decide_false; [done |].
      intros [-> | ?]%elem_of_cons; done.
Qed.

Lemma NoDup_dict_set m k v : NoDup (dict_keys m) -> NoDup (dict_keys (dict_set m k v)).
Proof.
  intros Hnd. rewrite dict_keys_set. destruct (bool_decide (k ∈ dict_keys m)) eqn:Hk; [done |].
  apply bool_decide_eq_false in Hk. apply NoDup_app. repeat split; [done | | apply NoDup_singleton].
  intros x Hx ->%list_elem_of_singleton. done.
Qed.

Lemma NoDup_dict_setdefault m k v :
  NoDup (dict_keys m) -> NoDup (dict_keys (dict_setdefault m k v)).
Proof. unfold dict_setdefault. destruct (dict_get m k); [done | apply NoDup_dict_set]. Qed.

Lemma NoDup_insert_sorted m seq step :
  NoDup (dict_keys m) -> NoDup (dict_keys (insert_sorted m seq step)).
Proof.
  intros Hnd. unfold insert_sorted. destruct (Py.mem _ _).
  - by apply NoDup_dict_setdefault.
  - by apply NoDup_dict_set, NoDup_dict_setdefault.
Qed.

Lemma dict_keys_del m k : dict_keys (dict_del m k) ⊆ dict_keys m.
Proof.
  unfold dict_keys. induction m as [| [k' v'] m IH]; simpl; [done |].
  destruct (decide (k' = k)); simpl; [set_solver | set_solver].
Qed.

Lemma NoDup_dict_del m k : NoDup (dict_keys m) -> NoDup (dict_keys (dict_del m k)).
Proof.
  unfold dict_keys. induction m as [| [k' v'] m IH]; simpl; [done |].
  intros [Hk' Hnd]%NoDup_cons. destruct (decide (k' = k)); simpl; [done |].
  apply NoDup_cons. split; [| by apply IH].
  intros Hin. apply Hk'. by apply (dict_keys_del m k).
Qed.

Lemma dict_get_del m k k' :
  NoDup (dict_keys m) ->
  dict_get (dict_del m k) k' = if decide (k = k') then None else dict_get m k'.
Proof.
  unfold dict_keys. induction m as [| [k0 v0] m IH]; simpl.
  - intros _. by destruct (decide (k = k')).
  - intros [Hk0 Hnd]%NoDup_cons. destruct (decide (k0 = k)) as [-> | Hne]; simpl.
    + destruct (decide (k = k')) as [<- | ?]; [| done].
      destruct (dict_get m k) eqn:Hget; [| done].
      destruct Hk0. apply dict_get_is_Some. by eexists.
    + rewrite (IH Hnd). destruct (decide (k0 = k')) as [-> | ?]; [| done].
      by rewrite decide_False.
Qed.

(** Ownership after [insert_sorted]. *)
Lemma owns_insert_sorted m seq step s a :
  NoDup (dict_keys m) ->
  owns (insert_sorted m seq step) s a <-> owns m s a \/ (s = step /\ a = seq).
Proof.
  intros Hnd. rewrite !owns_get by (done || by apply NoDup_insert_sorted).
  rewrite dict_get_insert_sorted. destruct (decide (seq = a)) as [<- | Hne]; simpl.
  - destruct (Py.mem step (default [] (dict_get m seq))) eqn:Hmem.
    + apply mem_true in Hmem. split; [by left | intros [? | [-> _]]; done].
    + rewrite sort_elem, elem_of_app, list_elem_of_singleton. split.
      * intros [? | ->]; [by left | by right].
      * intros [? | [-> _]]; [by left | by right].
  - split; [by left | intros [? | [_ ->]]; done].
Qed.

Lemma owns_dict_set m k v s a :
  NoDup (dict_keys m) ->
  owns (dict_set m k v) s a <-> (a = k /\ s ∈ v) \/ (a <> k /\ owns m s a).
Proof.
  intros Hnd. rewrite !owns_get by (done || by apply NoDup_dict_set).
  rewrite dict_get_set. destruct (decide (k = a)) as [<- | Hne]; simpl.
  - split; [by left | intros [[_ ?] | [? _]]; done].
  - split; [by right | intros [[-> _] | [_ ?]]; done].
Qed.

Lemma owns_dict_del m k s a :
  NoDup (dict_keys m) -> owns (dict_del m k) s a <-> a <> k /\ owns m s a.
Proof.
  intros Hnd. rewrite !owns_get by (done || by apply NoDup_dict_del).
  rewrite dict_get_del by done. destruct (decide (k = a)) as [<- | Hne]; simpl.
  - split; [by intros ?%elem_of_nil | by intros [? _]].
  - split; [done | by intros [_ ?]].
Qed.

Lemma filter_out_elem (s x : string) (l : list string) :
  x ∈ List.filter (fun y => bool_decide (y <> s)) l <-> x ∈ l /\ x <> s.
Proof. by rewrite list_elem_of_In, filter_In, bool_decide_eq_true, <- list_elem_of_In. Qed.

Lemma rename_elem (o n x : string) (steps : list string) :
  x ∈ map (fun s => if bool_decide (s = o) then n else s) steps <->
  (x = n /\ o ∈ steps) \/ (x ∈ steps /\ x <> o).
Proof.
  rewrite list_elem_of_In, in_map_iff. setoid_rewrite <- list_elem_of_In. split.
  - intros (y & <- & Hy). destruct (decide (y = o)) as [-> | Hne].
    + rewrite bool_decide_true by done. by left.
    + rewrite bool_decide_false by done. by right.
  - intros [[-> Ho] | [Hx Hne]].
    + exists o. by rewrite bool_decide_true.
    + exists x. by rewrite bool_decide_false.
Qed.

Lemma owns_removed m s seq steps drop s' a :
  NoDup (dict_keys m) -> dict_get m seq = Some steps ->
  owns (removed m s seq steps drop) s' a ->
  owns m s' a /\ (a = seq -> s' <> s).
Proof.
  intros Hnd Hget. unfold removed.
  assert (owns (dict_set m seq (List.filter (fun x => bool_decide (x <> s)) steps)) s' a ->
          owns m s' a /\ (a = seq -> s' <> s)) as Hset.
  { intros [[-> [Hin Hne]%filter_out_elem] | [Hne Ho]]%owns_dict_set; [| done..].
    split; [| done]. apply owns_get; [done |]. by rewrite Hget. }
  destruct (List.filter _ steps) eqn:Hkept; [| done].
  destruct drop; [| done].
  intros [_ Ho]%owns_dict_del; [| by apply NoDup_dict_set]. by apply Hset.
Qed.

Lemma NoDup_removed m s seq steps drop :
  NoDup (dict_keys m) -> NoDup (dict_keys (removed m s seq steps drop)).
Proof.
  intros Hnd. unfold removed. destruct (List.filter _ steps); [| by apply NoDup_dict_set].
  destruct drop; [by apply NoDup_dict_del, NoDup_dict_set | by apply NoDup_dict_set].
Qed.

End Dict.

Section GC.

Implicit Types (m pre post : dict) (k : string).

Lemma dict_get_app_fresh pre post k :
  k ∉ dict_keys pre -> dict_get (pre ++ post) k = dict_get post k.
Proof.
  unfold dict_keys. induction pre as [| [k' v'] pre IH]; simpl; [done |].
  intros Hk. apply not_elem_of_cons in Hk as [Hne Hk].
  rewrite decide_False by done. by apply IH.
Qed.

Lemma dict_del_app_fresh pre post k :
  k ∉ dict_keys pre -> dict_del (pre ++ post) k = pre ++ dict_del post k.
Proof.
  unfold dict_keys. induction pre as [| [k' v'] pre IH]; simpl; [done |].
  intros Hk. apply not_elem_of_cons in Hk as [Hne Hk].
  rewrite decide_False by done. by rewrite IH.
Qed.

Lemma dict_keys_app pre post : dict_keys (pre ++ post) = dict_keys pre ++ dict_keys post.
Proof. unfold dict_keys. apply map_app. Qed.

Lemma gc_map_app pre post : gc_map (pre ++ post) = gc_map pre ++ gc_map post.
Proof. unfold gc_map. apply List.filter_app. Qed.

Lemma gc_loop pre post :
  NoDup (dict_keys (pre ++ post)) ->
  gc_map pre = pre ->
  for_each gc_key (dict_keys post) (pre ++ post) = Ok (pre ++ gc_map post).
Proof.
  revert pre. induction post as [| [k v] post IH]; intros pre Hnd Hpre; simpl.
  - by rewrite !app_nil_r.
  - rewrite dict_keys_app in Hnd. simpl in Hnd.
    assert (k ∉ dict_keys pre) as Hk.
    { apply NoDup_ListNoDup, NoDup_remove_2 in Hnd. rewrite list_elem_of_In.
      intros Hin. apply Hnd, in_or_app. by left. }
    unfold gc_key at 1. rewrite dict_get_app_fresh by done. simpl.
    rewrite decide_True by done. destruct v as [| x v].
    + rewrite dict_del_app_fresh by done. simpl. rewrite decide_True by done.
      apply IH; [| done]. rewrite dict_keys_app.
      by apply NoDup_ListNoDup, NoDup_remove_1 in Hnd; apply NoDup_ListNoDup.
    + replace (pre ++ (k, x :: v) :: post) with ((pre ++ [(k, x :: v)]) ++ post)
        by (by rewrite <- app_assoc).
      rewrite IH.
      * by rewrite <- app_assoc.
      * by rewrite <- app_assoc, dict_keys_app.
      * by rewrite gc_map_app, Hpre.
Qed.

Lemma gc_map_idem m : gc_map (gc_map m) = gc_map m.
Proof.
  unfold gc_map. induction m as [| [k v] m IH]; simpl; [done |].
  destruct v; simpl; [done | by rewrite IH].
Qed.

Lemma NoDup_gc_map m : NoDup (dict_keys m) -> NoDup (dict_keys (gc_map m)).
Proof.
  unfold dict_keys, gc_map. induction m as [| [k v] m IH]; simpl; [done |].
  intros [Hk Hnd]%NoDup_cons.
  assert (k ∉ map fst (List.filter
            (fun item : string * list string =>
               match snd item with [] => false | _ => true end) m)) as Hk'.
  { intros (item & -> & Hin%list_elem_of_In%filter_In)%list_elem_of_fmap.
    apply Hk, list_elem_of_fmap. exists item. split; [done |].
    apply list_elem_of_In. tauto. }
  destruct v; simpl; [by apply IH |]. apply NoDup_cons. split; [done | by apply IH].
Qed.

Lemma gc_map_length m : length (gc_map m) <= length m.
Proof. apply List.filter_length_le. Qed.

End GC.

Section Unique.

Implicit Types (m : dict) (k s a : string) (v : list string) (w : world).

Lemma inserted_unique (db : document) (idx : gmap string string) (seq step : string) :
  NoDup (dict_keys (dmap db)) ->
  build_reverse_cache db = Ok idx ->
  idx !! step = None ->
  unique_owner (insert_sorted (dmap db) seq step).
Proof.
  intros Hnd Hb Hfree s a b [Ha | [-> ->]]%owns_insert_sorted
    [Hb' | [Hs ->]]%owns_insert_sorted; try done.
  - by apply (build_reverse_cache_unique db idx Hb s).
  - subst s. apply (build_reverse_cache_lookup db idx Hb) in Ha. congruence.
  - apply (build_reverse_cache_lookup db idx Hb) in Hb'. congruence.
Qed.

Lemma moved_unique (db : document) (idx : gmap string string) (s A B : string)
    (listA : list string) :
  NoDup (dict_keys (dmap db)) ->
  build_reverse_cache db = Ok idx ->
  idx !! s = Some A ->
  dict_get (dmap db) A = Some listA ->
  unique_owner (moved (dmap db) s A B listA).
Proof.
  intros Hnd Hb Hidx HA.
  assert (forall s' a, owns (moved (dmap db) s A B listA) s' a ->
            (s' = s /\ a = B) \/ (s' <> s /\ owns (dmap db) s' a)) as Hown.
  { intros s' a. unfold moved.
    rewrite owns_insert_sorted by (by apply NoDup_dict_set).
    rewrite owns_dict_set by done. rewrite filter_out_elem.
    intros [[[-> [Hin Hs']] | [Ha Ho]] | [-> ->]]; [| | by left].
    - right. split; [done |]. apply owns_get; [done |]. by rewrite HA.
    - right. split; [| done]. intros ->. apply Ha.
      apply (build_reverse_cache_unique db idx Hb s); [done |].
      by apply (build_reverse_cache_lookup db idx Hb). }
  intros s' a b [[-> ->] | [Hsa Ha]]%Hown [[Hs' ->] | [Hsb Hb']]%Hown; subst; try done.
  by apply (build_reverse_cache_unique db idx Hb s').
Qed.

Lemma renamed_unique (db : document) (idx : gmap string string) (o n seq : string)
    (steps : list string) :
  NoDup (dict_keys (dmap db)) ->
  build_reverse_cache db = Ok idx ->
  idx !! o = Some seq ->
  idx !! n = None ->
  dict_get (dmap db) seq = Some steps ->
  unique_owner (renamed (dmap db) o n seq steps).
Proof.
  intros Hnd Hb Hio Hin Hget.
  assert (forall s a, owns (renamed (dmap db) o n seq steps) s a ->
            (s = n /\ a = seq) \/ (s <> n /\ owns (dmap db) s a)) as Hown.
  { intros s a [[-> Hs] | [Hne Hs]]%owns_dict_set; [| | done].
    - apply sort_elem, rename_elem in Hs as [[-> _] | [Hs Hne]]; [by left |].
      destruct (decide (s = n)) as [-> | Hsn]; [by left |].
      right. split; [done |]. apply owns_get; [done |]. by rewrite Hget.
    - right. split; [| done]. intros ->.
      apply (build_reverse_cache_lookup db idx Hb) in Hs. congruence. }
  intros s a b [[-> ->] | [Hsa Ha]]%Hown [[Hs ->] | [Hsb Hb']]%Hown; subst; try done.
  by apply (build_reverse_cache_unique db idx Hb s).
Qed.

Lemma removed_unique m s seq steps drop :
  NoDup (dict_keys m) -> unique_owner m -> dict_get m seq = Some steps ->
  unique_owner (removed m s seq steps drop).
Proof.
  intros Hnd Hu Hget s' a b [Ha _]%owns_removed [Hb _]%owns_removed; try done.
  by apply (Hu s').
Qed.

Lemma gc_unique m : unique_owner m -> unique_owner (gc_map m).
Proof.
  intros Hu s a b (sa & Ha & Hsa) (sb & Hb & Hsb). apply (Hu s).
  - exists sa. split; [| done]. apply list_elem_of_In in Ha. apply filter_In in Ha as [Ha _].
    by apply list_elem_of_In.
  - exists sb. split; [| done]. apply list_elem_of_In in Hb. apply filter_In in Hb as [Hb _].
    by apply list_elem_of_In.
Qed.

(** The old name is gone after a rename, the removed step after a removal. *)
Lemma renamed_forgets (db : document) (idx : gmap string string) (o n seq : string)
    (steps : list string) a :
  NoDup (dict_keys (dmap db)) ->
  build_reverse_cache db = Ok idx ->
  idx !! o = Some seq ->
  idx !! n = None ->
  ~ owns (renamed (dmap db) o n seq steps) o a.
Proof.
  intros Hnd Hb Hio Hin [[-> Hs] | [Hne Hs]]%owns_dict_set; [| | done].
  - apply sort_elem, rename_elem in Hs as [[-> _] | [_ Hne]]; [congruence | done].
  - apply Hne. apply (build_reverse_cache_unique db idx Hb o); [done |].
    by apply (build_reverse_cache_lookup db idx Hb).
Qed.

Lemma removed_forgets (db : document) (idx : gmap string string) (s seq : string)
    (steps : list string) (drop : bool) a :
  NoDup (dict_keys (dmap db)) ->
  build_reverse_cache db = Ok idx ->
  idx !! s = Some seq ->
  dict_get (dmap db) seq = Some steps ->
  ~ owns (removed (dmap db) s seq steps drop) s a.
Proof.
  intros Hnd Hb Hidx Hget [Ha Hne]%owns_removed; try done. apply Hne; [| done].
  apply (build_reverse_cache_unique db idx Hb s); [done |].
  by apply (build_reverse_cache_lookup db idx Hb).
Qed.

End Unique.

(** ** The paths of the operations *)

#[local] Arguments given : simpl never.
#[local] Arguments normalize_step_name : simpl never.
#[local] Arguments canonicalize_sequence : simpl never.
#[local] Arguments insert_sorted : simpl never.
#[local] Arguments in_cache : simpl never.
#[local] Arguments Py.sort : simpl never.
#[local] Arguments Py.strip : simpl never.

(** A leaf of a run that has not touched the storage. *)
Ltac quiet_leaf := intros [= <- <-]; by left.

Ltac destruct_inner x :=
  lazymatch x with
  | context [match ?y with _ => _ end] => destruct_inner y
  | _ => destruct x eqn:?
  end.

(** Runs a computation to each of its ends, splitting on whatever a
    [match] is stuck on, innermost first. *)
Ltac crunch :=
  repeat progress
    (exec; rewrite ?run_reading_run, ?confirm_run;
     cbn [stdin more_stdout with_stdin];
     try (rewrite atomic_save_ok by (cbn; assumption));
     try match goal with
         | |- context [match ?x with _ => _ end] => destruct_inner x
         end).

Section Paths.

Implicit Types (m : dict) (k s a : string) (v : list string) (w : world).

(** The renaming loop, as the source nests it: one call of
    [prompt_valid_step_name], then round again if the name is taken. *)
Lemma new_name_lines_unfold (idx : gmap string string) (lines : list string) :
  new_name_lines idx lines =
  match prompt_valid_step_name_lines AskNewStepName lines with
  | (Ok new_name, rest, out) =>
      if in_cache new_name idx then
        said (out ++ [SayNameExists]) (new_name_lines idx rest)
      else (Ok new_name, rest, out)
  | (Err e, rest, out) => (Err e, rest, out)
  end.
Proof.
  induction lines as [| raw lines IH]; [done |]. simpl.
  destruct (normalize_step_name (Py.strip raw)) as [name | e].
  - done.
  - rewrite IH. destruct (prompt_valid_step_name_lines AskNewStepName lines)
      as [[[name | e'] rest] out]; simpl; [| done].
    destruct (in_cache name idx); [| done].
    by destruct (new_name_lines idx rest) as [[r rest'] out'].
Qed.

(** A name the loop returns is valid and not in the cache. *)
Lemma new_name_lines_fresh (idx : gmap string string) (lines rest : list string)
    (name : string) (out : list line) :
  new_name_lines idx lines = (Ok name, rest, out) -> idx !! name = None.
Proof.
  revert out. induction lines as [| raw lines IH]; intros out; simpl; [done |].
  destruct (normalize_step_name (Py.strip raw)) as [name' | e].
  - unfold in_cache. destruct (idx !! name') as [a |] eqn:Hn.
    + rewrite bool_decide_true by (by eexists).
      destruct (new_name_lines idx lines) as [[r rest'] out'] eqn:Hl. simpl.
      intros [= -> -> _]. by apply (IH out').
    + rewrite bool_decide_false by (by intros [? ?]). by intros [= <- _ _].
  - destruct (new_name_lines idx lines) as [[r rest'] out'] eqn:Hl. simpl.
    intros [= -> -> _]. by apply (IH out').
Qed.

(** Once the name it returned is taken too, the same lines run dry. *)
Lemma new_name_lines_again (idx idx1 : gmap string string) (lines : list string)
    (name : string) (out : list line) :
  new_name_lines idx lines = (Ok name, [], out) ->
  (forall s, is_Some (idx !! s) -> is_Some (idx1 !! s)) ->
  is_Some (idx1 !! name) ->
  exists out1, new_name_lines idx1 lines = (Err EOFError, [], out1).
Proof.
  intros Hrun Hsub Hname. revert out Hrun.
  induction lines as [| raw lines IH]; intros out; simpl; [done |].
  destruct (normalize_step_name (Py.strip raw)) as [name' | e].
  - unfold in_cache. destruct (idx !! name') as [a |] eqn:Hn.
    + rewrite !bool_decide_true by (eauto || by eexists).
      destruct (new_name_lines idx lines) as [[r rest'] out'] eqn:Hl. simpl.
      intros [= -> -> _]. destruct (IH out' eq_refl) as [out1 ->]. by eexists.
    + rewrite (bool_decide_false (is_Some None)) by (by intros [? ?]).
      intros [= -> -> _]. rewrite bool_decide_true by done. simpl. by eexists.
  - destruct (new_name_lines idx lines) as [[r rest'] out'] eqn:Hl. simpl.
    intros [= -> -> _]. destruct (IH out' eq_refl) as [out1 ->]. by eexists.
Qed.

Lemma op_add_prompts w (db : document) (idx : gmap string string)
    (step raw_seq seq : string) (rest : list string) (out : list line) :
  load_db w = (Ok db, w) ->
  build_reverse_cache db = Ok idx ->
  prompt_valid_step_name_lines AskStepName (stdin w) = (Ok step, raw_seq :: rest, out) ->
  canonicalize_sequence (Py.strip raw_seq) = Ok seq ->
  op_add w =
  add_tail db idx step seq
    (with_stdin rest
       (more_stdout [Prompt AskSequence]
          (with_stdin (raw_seq :: rest) (more_stdout out (more_stdout [BannerAdd] w))))).
Proof.
  intros Hload Hbuild Hstep Hseq.
  unfold op_add, prompt_valid_step_name, input. exec. rewrite Hload. exec.
  rewrite Hbuild. exec. rewrite run_reading_run. simpl stdin. rewrite Hstep. exec.
  simpl stdin. exec. by rewrite Hseq.
Qed.

(** Either [op_add] leaves the storage as it was, or it has written the
    document with one step inserted: the step typed, when the cache has no
    owner for it or the empty key as owner, or else the fresh name the
    renaming loop returned. *)
Lemma op_add_effect w (db : document) :
  failing w = NoFailure ->
  load_db w = (Ok db, w) ->
  disk (snd (op_add w)) = disk w \/
  exists idx step raw_seq rest out seq step',
    build_reverse_cache db = Ok idx /\
    prompt_valid_step_name_lines AskStepName (stdin w) = (Ok step, raw_seq :: rest, out) /\
    canonicalize_sequence (Py.strip raw_seq) = Ok seq /\
    idx !! step <> Some seq /\
    ((step' = step /\ (idx !! step = None \/ idx !! step = Some EmptyString) /\
      stdin (snd (op_add w)) = rest)
     \/
     (exists e out', idx !! step = Some e /\ e <> EmptyString /\
        new_name_lines idx rest = (Ok step', stdin (snd (op_add w)), out'))) /\
    fst (op_add w) = Ok tt /\
    disk (snd (op_add w)) =
      Storage (Some (json_of (Document (version db)
                                (insert_sorted (dmap db) seq step')))) None.
Proof.
  intros Hfail Hload.
  destruct (op_add w) as [r w'] eqn:Hrun. simpl. revert Hrun.
  unfold op_add, prompt_valid_step_name, input. exec. rewrite Hload. exec.
  destruct (build_reverse_cache db) as [idx |] eqn:Hbuild; exec; [| quiet_leaf].
  rewrite run_reading_run. simpl stdin.
  destruct (prompt_valid_step_name_lines AskStepName (stdin w))
    as [[[step | e] lines] out] eqn:Hstep; exec; [| quiet_leaf].
  simpl stdin. destruct lines as [| raw_seq rest]; exec; [quiet_leaf |].
  destruct (canonicalize_sequence (Py.strip raw_seq)) as [seq | e] eqn:Hseq; exec;
    [| quiet_leaf].
  destruct (decide (idx !! step = Some seq)) as [Hsame | Hdiff].
  { rewrite bool_decide_true by done. exec. quiet_leaf. }
  rewrite bool_decide_false by done. exec.
  destruct (idx !! step) as [e |] eqn:Hidx.
  - destruct (Py.truthy e) eqn:He; unfold andb.
    + rewrite bool_decide_true by congruence. exec.
      rewrite run_reading_run. simpl stdin.
      destruct (new_name_lines idx rest) as [[[step' | e'] rest'] out'] eqn:Hnew; exec;
        [| quiet_leaf].
      rewrite atomic_save_ok by done. exec. intros [= <- <-]. right.
      exists idx, step, raw_seq, rest, out, seq, step'. rewrite Hidx.
      split_and!; try done. right. exists e, out'.
      split_and!; try done. by intros ->.
    + exec. rewrite atomic_save_ok by done. exec. intros [= <- <-]. right.
      exists idx, step, raw_seq, rest, out, seq, step. rewrite Hidx.
      split_and!; try done. left. split_and!; try done. right.
      by destruct e.
  - exec. rewrite atomic_save_ok by done. exec. intros [= <- <-]. right.
    exists idx, step, raw_seq, rest, out, seq, step. rewrite Hidx.
    split_and!; try done. left. split_and!; try done. by left.
Qed.

Lemma op_reassign_run (w : world) (db : document) (idx : gmap string string)
    (step_raw seq_raw s A B : string) (listA : list string) :
  failing w = NoFailure ->
  load_db w = (Ok db, w) ->
  build_reverse_cache db = Ok idx ->
  normalize_step_name step_raw = Ok s ->
  canonicalize_sequence seq_raw = Ok B ->
  idx !! s = Some A ->
  dict_get (dmap db) A = Some listA ->
  op_reassign (Some step_raw) (Some seq_raw) w =
  if decide (A = B) then (Ok tt, more_stdout [SayAlreadyUnder s B] w)
  else
    (Ok tt,
     more_stdout [SaySaved]
       (more_stdout [SayReassigned s A B]
          (with_disk
             (Storage (Some (json_of (Document (version db) (moved (dmap db) s A B listA))))
                      None) w))).
Proof.
  intros Hfail Hload Hbuild Hstep Hseq Hidx HA.
  unfold op_reassign, step_argument, in_cache, getitem.
  rewrite (normalize_ok_nonempty _ _ Hstep), Hstep.
  rewrite (canonicalize_ok_nonempty _ _ Hseq), Hseq.
  exec. rewrite Hload. exec. rewrite Hbuild. exec.
  rewrite Hidx, bool_decide_true by (by eexists). exec. rewrite Hidx. exec.
  destruct (decide (A = B)) as [-> | Hne].
  - rewrite bool_decide_true by done. by exec.
  - rewrite bool_decide_false by done. exec. rewrite HA. exec.
    unfold atomic_save. rewrite Hfail. by exec.
Qed.

Lemma op_reassign_effect (w : world) (db : document) (step new_seq_raw : option string) :
  failing w = NoFailure ->
  load_db w = (Ok db, w) ->
  disk (snd (op_reassign step new_seq_raw w)) = disk w \/
  exists idx s A B listA,
    build_reverse_cache db = Ok idx /\ idx !! s = Some A /\ A <> B /\
    dict_get (dmap db) A = Some listA /\
    fst (op_reassign step new_seq_raw w) = Ok tt /\
    disk (snd (op_reassign step new_seq_raw w)) =
      Storage (Some (json_of (Document (version db) (moved (dmap db) s A B listA)))) None.
Proof.
  intros Hfail Hload.
  destruct (op_reassign step new_seq_raw w) as [r w'] eqn:Hrun. simpl. revert Hrun.
  unfold op_reassign, step_argument, prompt_step, prompt_sequence, prompt_valid_step_name,
    getitem, in_cache.
  exec. rewrite Hload. crunch.
  all: try quiet_leaf.
  all: intros [= <- <-]; right; do 5 eexists; unfold moved; split_and!.
  all: try reflexivity; try eassumption.
  all: intros ->;
    match goal with
    | H : bool_decide (?x = ?x) = false |- _ => by apply bool_decide_eq_false in H
    end.
Qed.

Lemma op_rename_run w (db : document) (idx : gmap string string)
    (old_raw new_raw o n seq : string) (steps : list string) :
  failing w = NoFailure ->
  load_db w = (Ok db, w) ->
  build_reverse_cache db = Ok idx ->
  normalize_step_name old_raw = Ok o ->
  normalize_step_name new_raw = Ok n ->
  idx !! o = Some seq ->
  idx !! n = None ->
  dict_get (dmap db) seq = Some steps ->
  op_rename (Some old_raw) (Some new_raw) w =
  (Ok tt,
   more_stdout [SaySaved]
     (more_stdout [SayRenamed o n]
        (with_disk
           (Storage (Some (json_of (Document (version db) (renamed (dmap db) o n seq steps))))
                    None) w))).
Proof.
  intros Hfail Hload Hbuild Ho Hn Hio Hin Hget.
  unfold op_rename, step_argument, in_cache, getitem.
  rewrite (normalize_ok_nonempty _ _ Ho), Ho, (normalize_ok_nonempty _ _ Hn), Hn.
  exec. rewrite Hload. exec. rewrite Hbuild. exec.
  rewrite Hio, bool_decide_true by (by eexists). exec.
  rewrite Hin, bool_decide_false by (by intros [? ?]). exec.
  rewrite Hio. exec. rewrite Hget. exec. rewrite atomic_save_ok by done. by exec.
Qed.

Lemma op_rename_effect (w : world) (db : document) (old new : option string) :
  failing w = NoFailure ->
  load_db w = (Ok db, w) ->
  disk (snd (op_rename old new w)) = disk w \/
  exists idx o n seq steps,
    build_reverse_cache db = Ok idx /\ idx !! o = Some seq /\ idx !! n = None /\
    dict_get (dmap db) seq = Some steps /\
    fst (op_rename old new w) = Ok tt /\
    disk (snd (op_rename old new w)) =
      Storage (Some (json_of (Document (version db) (renamed (dmap db) o n seq steps)))) None.
Proof.
  intros Hfail Hload.
  destruct (op_rename old new w) as [r w'] eqn:Hrun. simpl. revert Hrun.
  unfold op_rename, step_argument, prompt_step, prompt_valid_step_name, getitem, in_cache.
  exec. rewrite Hload. crunch.
  all: try quiet_leaf.
  all: intros [= <- <-]; right; do 5 eexists; unfold renamed; split_and!.
  all: try reflexivity; try eassumption.
  all: apply eq_None_not_Some;
    match goal with
    | H : bool_decide (is_Some ?o) = false |- ~ is_Some ?o =>
        by apply bool_decide_eq_false in H
    end.
Qed.

(** Either [op_remove] leaves the storage as it was, or it has written the
    document without the step. *)
Lemma op_remove_effect (w : world) (db : document) (step : string) (assume_yes : bool) :
  failing w = NoFailure ->
  load_db w = (Ok db, w) ->
  disk (snd (op_remove step assume_yes w)) = disk w \/
  exists idx s seq steps drop,
    build_reverse_cache db = Ok idx /\ normalize_step_name step = Ok s /\
    idx !! s = Some seq /\ seq <> EmptyString /\ dict_get (dmap db) seq = Some steps /\
    fst (op_remove step assume_yes w) = Ok tt /\
    (assume_yes = true -> drop = true) /\
    disk (snd (op_remove step assume_yes w)) =
      Storage (Some (json_of (Document (version db)
                                (removed (dmap db) s seq steps drop)))) None.
Proof.
  intros Hfail Hload.
  destruct (op_remove step assume_yes w) as [r w'] eqn:Hrun. simpl. revert Hrun.
  unfold op_remove, getitem, given. exec. rewrite Hload. exec.
  destruct (build_reverse_cache db) as [idx |] eqn:Hbuild; exec; [| quiet_leaf].
  destruct (normalize_step_name step) as [s |] eqn:Hs; exec; [| quiet_leaf].
  destruct (idx !! s) as [seq |] eqn:Hidx; exec; [| quiet_leaf].
  destruct (Py.truthy seq) eqn:Hseq; exec; [| quiet_leaf].
  assert (seq <> EmptyString) as Hne by (by intros ->).
  destruct (dict_get (dmap db) seq) as [steps |] eqn:Hget.
  2:{ destruct assume_yes; unfold negb; exec; [quiet_leaf |]. rewrite confirm_run.
      destruct (stdin w); exec; [quiet_leaf |]. destruct (affirmative _); exec; quiet_leaf. }
  destruct assume_yes; unfold negb; exec.
  - destruct (List.filter (fun s0 => bool_decide (s0 <> s)) steps) eqn:Hkept; exec;
      rewrite atomic_save_ok by done; exec;
      intros [= <- <-]; right; exists idx, s, seq, steps, true; unfold removed;
      rewrite ?Hkept; by repeat split.
  - rewrite confirm_run. destruct (stdin w) as [| a1 rest] eqn:Hin; exec; [quiet_leaf |].
    destruct (affirmative a1); exec; [| quiet_leaf].
    destruct (List.filter (fun s0 => bool_decide (s0 <> s)) steps) eqn:Hkept; exec.
    + rewrite confirm_run. simpl. destruct rest as [| a2 rest']; exec; [quiet_leaf |].
      rewrite atomic_save_ok by done. exec.
      intros [= <- <-]; right; exists idx, s, seq, steps, (affirmative a2); unfold removed;
      rewrite ?Hkept; by repeat split.
    + rewrite atomic_save_ok by done. exec.
      intros [= <- <-]; right; exists idx, s, seq, steps, false; unfold removed;
      rewrite ?Hkept; by repeat split.
Qed.

Lemma op_gc_run (w : world) (db : document) :
  failing w = NoFailure ->
  load_db w = (Ok db, w) ->
  NoDup (dict_keys (dmap db)) ->
  op_gc w =
  let m := gc_map (dmap db) in
  let removed := (Z.of_nat (length (dmap db)) - Z.of_nat (length m))%Z in
  if decide (length (dmap db) = length m) then (Ok tt, more_stdout [SayGC removed] w)
  else
    (Ok tt,
     more_stdout [SayGC removed]
       (with_disk (Storage (Some (json_of (Document (version db) m))) None) w)).
Proof.
  intros Hfail Hload Hnd. unfold op_gc. exec. rewrite Hload. exec.
  pose proof (gc_loop [] (dmap db) Hnd eq_refl) as Hloop.
  change ([] ++ dmap db) with (dmap db) in Hloop.
  change ([] ++ gc_map (dmap db)) with (gc_map (dmap db)) in Hloop.
  rewrite Hloop. exec.
  destruct (decide (length (dmap db) = length (gc_map (dmap db)))) as [Heq | Hne].
  - rewrite bool_decide_false by (by intros ?). by exec.
  - rewrite bool_decide_true by done. exec. unfold atomic_save. rewrite Hfail. by exec.
Qed.

End Paths.

(** ** Reassign *)

(** C7: moving step [s] from its sequence [A] to another sequence [B] takes
    it out of [A]'s list, puts it into [B]'s list (a new entry if [B] had
    none) and sorts that list, and writes the document; the key [A] stays,
    even with an empty list.  With [A = B] nothing is written. *)
Theorem reassign_moves_step (w : world) (db : document) (idx : gmap string string)
    (step_raw seq_raw s A B : string) :
  failing w = NoFailure ->
  load_db w = (Ok db, w) ->
  build_reverse_cache db = Ok idx ->
  normalize_step_name step_raw = Ok s ->
  canonicalize_sequence seq_raw = Ok B ->
  idx !! s = Some A ->
  let r := fst (op_reassign (Some step_raw) (Some seq_raw) w) in
  let w' := snd (op_reassign (Some step_raw) (Some seq_raw) w) in
  r = Ok tt /\ stdin w' = stdin w /\
  (A = B -> disk w' = disk w /\ stdout w' = stdout w ++ [SayAlreadyUnder s B]) /\
  (A <> B ->
   exists listA m',
     dict_get (dmap db) A = Some listA /\
     stored w' = Some (json_of (Document (version db) m')) /\
     dict_get m' A = Some (List.filter (fun x => bool_decide (x <> s)) listA) /\
     A ∈ dict_keys m' /\
     (s ∉ List.filter (fun x => bool_decide (x <> s)) listA) /\
     dict_get m' B = Some (Py.sort (default [] (dict_get (dmap db) B) ++ [s])) /\
     s ∈ Py.sort (default [] (dict_get (dmap db) B) ++ [s]) /\
     Sorted String.le (Py.sort (default [] (dict_get (dmap db) B) ++ [s])) /\
     (forall k, k <> A -> k <> B -> dict_get m' k = dict_get (dmap db) k)).
Proof.
  intros Hfail Hload Hbuild Hstep Hseq Hidx.
  destruct (cache_owner_listed db idx s A Hbuild Hidx) as [listA HA].
  rewrite (op_reassign_run w db idx step_raw seq_raw s A B listA) by done.
  destruct (decide (A = B)) as [-> | Hne]; cbn; [by repeat split |].
  repeat split; try done.
  exists listA, (moved (dmap db) s A B listA). split; [done |]. split; [reflexivity |].
  assert (s ∉ default [] (dict_get (dmap db) B)) as HsB.
  { intros Hs. destruct (dict_get (dmap db) B) as [lstB |] eqn:HB; [| by apply elem_of_nil in Hs].
    apply Hne. assert (idx !! s = Some B) as HsB; [| congruence].
    apply (build_reverse_cache_lookup db idx Hbuild). exists lstB.
    split; [by apply dict_get_elem | done]. }
  assert (dict_get (dict_set (dmap db) A
            (List.filter (fun x => bool_decide (x <> s)) listA)) B = dict_get (dmap db) B) as HB1.
  { by rewrite dict_get_set, decide_False. }
  unfold moved. repeat split.
  + rewrite dict_get_insert_sorted, decide_False by done.
    by rewrite dict_get_set, decide_True.
  + apply dict_get_is_Some. rewrite dict_get_insert_sorted, decide_False by done.
    rewrite dict_get_set, decide_True by done. by eexists.
  + intros [_ Hs]%list_elem_of_In%filter_In. by apply bool_decide_eq_true in Hs.
  + rewrite dict_get_insert_sorted, decide_True by done. cbn zeta. rewrite HB1.
    apply mem_false in HsB. by rewrite HsB.
  + apply sort_elem, elem_of_app. right. apply list_elem_of_here.
  + apply sort_sorted.
  + intros k HkA HkB. rewrite dict_get_insert_sorted, decide_False by done.
    by rewrite dict_get_set, decide_False.
Qed.

Lemma reassign_moves_step_witness :
  let w := fresh (Some (Document 1 [("DOWN,DOWN", ["open the menu"])])) [] in
  fst (op_reassign (Some "open the menu") (Some "up") w) = Ok tt /\
  stored (snd (op_reassign (Some "open the menu") (Some "up") w)) =
    Some (json_of (Document 1 [("DOWN,DOWN", []); ("UP", ["open the menu"])])).
Proof.
  intros w. split; [| by vm_compute].
  apply (reassign_moves_step w (Document 1 [("DOWN,DOWN", ["open the menu"])])
           {[ "open the menu" := "DOWN,DOWN" ]}
           "open the menu" "up" "open the menu" "DOWN,DOWN" "UP");
    by vm_compute.
Defined.

(** ** A sequence key that is the empty string *)

(** C8: a step whose owning key is the empty string is in the reverse
    cache, yet [op_remove] tests the key for truth and reports the step as
    not found: nothing is deleted and nothing is written, even with
    [assume_yes]. *)
Theorem remove_misses_step_under_empty_key :
  let w := fresh (Some empty_key_store) [] in
  (exists idx, build_reverse_cache empty_key_store = Ok idx /\
               idx !! "open menu" = Some EmptyString) /\
  op_remove "open menu" true w = (Ok tt, more_stdout [SayNotFound "open menu"] w) /\
  stored (snd (op_remove "open menu" true w)) = Some (json_of empty_key_store).
Proof.
  intros w. split; [| by vm_compute].
  exists {[ "open menu" := EmptyString ]}. by vm_compute.
Qed.

(** C1: from a document in which every step has one owner, [op_add] runs
    to success and leaves a step under two different keys: the owner found
    in the cache is the empty string, which the test [existing and ...]
    takes for no owner at all. *)
Theorem add_breaks_uniqueness_under_empty_key :
  let w := fresh (Some empty_key_store) ["open menu"; "DOWN"] in
  let after := Document 1 [(EmptyString, ["open menu"]); ("DOWN", ["open menu"])] in
  unique_owner (dmap empty_key_store) /\
  fst (op_add w) = Ok tt /\
  stored (snd (op_add w)) = Some (json_of after) /\
  owns (dmap after) "open menu" EmptyString /\ owns (dmap after) "open menu" "DOWN" /\
  ~ unique_owner (dmap after).
Proof.
  intros w after.
  assert (owns (dmap after) "open menu" EmptyString) as H1.
  { exists ["open menu"]. split; [apply list_elem_of_here | apply list_elem_of_here]. }
  assert (owns (dmap after) "open menu" "DOWN") as H2.
  { exists ["open menu"].
    split; [apply list_elem_of_further, list_elem_of_here | apply list_elem_of_here]. }
  split.
  { apply (build_reverse_cache_unique empty_key_store {[ "open menu" := EmptyString ]}).
    by vm_compute. }
  repeat split; try done; try by vm_compute.
  intros Hu. by specialize (Hu _ _ _ H1 H2).
Qed.

Section NonEmptyKeys.

Implicit Types (m : dict) (k s a : string) (v : list string) (w : world).

(** X1: removal, for an owner key that is not the empty
    string: once the deletion is confirmed (or [assume_yes] holds) the
    document is written without the step, whatever the answer about the
    emptied sequence; a declined second question leaves the empty list. *)
Lemma op_remove_persists w (db : document) (idx : gmap string string)
    (step s seq : string) (steps : list string) :
  failing w = NoFailure ->
  load_db w = (Ok db, w) ->
  build_reverse_cache db = Ok idx ->
  normalize_step_name step = Ok s ->
  idx !! s = Some seq ->
  seq <> EmptyString ->
  dict_get (dmap db) seq = Some steps ->
  let kept := List.filter (fun x => bool_decide (x <> s)) steps in
  let saved drop r := fst r = Ok tt /\
    stored (snd r) = Some (json_of (Document (version db)
                                      (removed (dmap db) s seq steps drop))) in
  saved true (op_remove step true w) /\
  (forall a1 rest, stdin w = a1 :: rest -> affirmative a1 = true ->
     (kept <> [] -> saved false (op_remove step false w)) /\
     (forall a2 rest', kept = [] -> rest = a2 :: rest' ->
        saved (affirmative a2) (op_remove step false w) /\
        (affirmative a2 = false ->
         dict_get (removed (dmap db) s seq steps false) seq = Some []))).
Proof.
  intros Hfail Hload Hb Hs Hidx Hne Hget kept saved.
  assert (forall yes, op_remove step yes w =
    (go ← (if negb yes then confirm (AskDeleteStep s seq) else mret true);
     if negb go then print SayCancelled
     else
       m2 ← match kept with
            | [] =>
                drop ← (if yes then mret true else confirm (AskRemoveEmpty seq));
                mret (if drop : bool then dict_del (dict_set (dmap db) seq kept) seq
                      else dict_set (dmap db) seq kept)
            | _ => mret (dict_set (dmap db) seq kept)
            end;
       atomic_save (Document (version db) m2);;
       print (SayRemoved s);;
       print SaySaved) w) as Hrun.
  { intros yes. unfold op_remove, given, getitem. exec. rewrite Hload. exec.
    rewrite Hb. exec. rewrite Hs. exec. rewrite Hidx, (truthy_nonempty seq Hne). exec.
    destruct (negb yes); exec; [| by rewrite Hget; exec].
    destruct (confirm (AskDeleteStep s seq) w) as [[[] | ?] ?]; exec; try done.
    by rewrite Hget; exec. }
  unfold saved, removed. fold kept. split.
  - rewrite Hrun. unfold negb. exec.
    destruct kept eqn:Hk; exec; rewrite atomic_save_ok by done; exec; done.
  - intros a1 rest Hin Ha1. split.
    + intros Hk. rewrite Hrun. unfold negb. exec. rewrite confirm_run, Hin. exec.
      rewrite Ha1. exec. destruct kept eqn:Hkept; [done |]. exec.
      rewrite atomic_save_ok by done. by exec.
    + intros a2 rest' Hk ->. rewrite Hrun. unfold negb. exec. rewrite confirm_run, Hin.
      exec. rewrite Ha1, Hk. exec. rewrite confirm_run. simpl stdin. exec.
      rewrite atomic_save_ok by done. exec. split; [done |].
      intros _. by rewrite dict_get_set, decide_True.
Qed.

(** X2: uniqueness of owners is kept from a document that has no
    empty-string key: whatever the arguments and the lines typed, what any
    of the five mutating operations leaves in the storage has every step
    under one key. *)
Lemma mutations_keep_unique_owner w (db : document) :
  failing w = NoFailure ->
  load_db w = (Ok db, w) ->
  NoDup (dict_keys (dmap db)) ->
  EmptyString ∉ dict_keys (dmap db) ->
  unique_owner (dmap db) ->
  forall w',
    (w' = snd (op_add w) \/
     (exists step new_seq_raw, w' = snd (op_reassign step new_seq_raw w)) \/
     (exists old new, w' = snd (op_rename old new w)) \/
     (exists step assume_yes, w' = snd (op_remove step assume_yes w)) \/
     w' = snd (op_gc w)) ->
  forall db', stored w' = Some (json_of db') -> unique_owner (dmap db').
Proof.
  intros Hfail Hload Hnd Hkey Hu w' Hop db' Hstored.
  assert (disk w' = disk w -> unique_owner (dmap db')) as Hsame.
  { intros Hd. unfold stored in Hstored. rewrite Hd in Hstored.
    by rewrite <- (stored_document w db db' Hload Hstored). }
  assert (forall d, disk w' = Storage (Some (json_of d)) None -> db' = d) as Hnew.
  { intros d Hd. unfold stored in Hstored. rewrite Hd in Hstored. simpl in Hstored.
    destruct d, db'. by injection Hstored as -> ->. }
  destruct Hop as [-> | [(step & new_seq_raw & ->) | [(old & new & ->) |
                  [(step & assume_yes & ->) | ->]]]].
  - destruct (op_add_effect w db Hfail Hload)
      as [Hd | (idx & step & raw_seq & rest & out & seq & step' & Hb & _ & _ & _ &
                Hcase & _ & Hd)]; [by apply Hsame |].
    rewrite (Hnew _ Hd). simpl.
    destruct Hcase as [(-> & [Hfree | Hempty] & _) | (e & out' & _ & _ & Hloop)].
    + by apply (inserted_unique db idx).
    + destruct Hkey.
      apply (build_reverse_cache_lookup db idx Hb) in Hempty as (steps & Hin & _).
      unfold dict_keys. apply list_elem_of_fmap. by exists (EmptyString, steps).
    + apply (inserted_unique db idx); [done.. |]. by apply new_name_lines_fresh in Hloop.
  - destruct (op_reassign_effect w db step new_seq_raw Hfail Hload)
      as [Hd | (idx & s & A & B & listA & Hb & Hidx & _ & HA & _ & Hd)];
      [by apply Hsame |].
    rewrite (Hnew _ Hd). by apply (moved_unique db idx).
  - destruct (op_rename_effect w db old new Hfail Hload)
      as [Hd | (idx & o & n & seq & steps & Hb & Hio & Hin & Hget & _ & Hd)];
      [by apply Hsame |].
    rewrite (Hnew _ Hd). by apply (renamed_unique db idx).
  - destruct (op_remove_effect w db step assume_yes Hfail Hload)
      as [Hd | (idx & s & seq & steps & drop & _ & _ & _ & _ & Hget & _ & _ & Hd)];
      [by apply Hsame |].
    rewrite (Hnew _ Hd). by apply removed_unique.
  - rewrite (op_gc_run w db) in Hstored by done. cbn zeta in Hstored.
    destruct (decide (length (dmap db) = length (gc_map (dmap db)))).
    + simpl in Hstored. by rewrite <- (stored_document w db db' Hload Hstored).
    + simpl in Hstored. destruct db'. injection Hstored as _ <-. by apply gc_unique.
Qed.

End NonEmptyKeys.

Lemma op_remove_persists_witness :
  let w := fresh (Some one_step_store) ["yes"; "n"] in
  fst (op_remove "open menu" false w) = Ok tt /\
  stored (snd (op_remove "open menu" false w)) = Some (json_of (Document 1 [("UP", [])])).
Proof.
  cbn zeta.
  pose proof (op_remove_persists (fresh (Some one_step_store) ["yes"; "n"]) one_step_store
                {["open menu" := "UP"]} "open menu" "open menu" "UP" ["open menu"]
                eq_refl eq_refl ltac:(by vm_compute) ltac:(by vm_compute) eq_refl
                ltac:(done) eq_refl) as [_ H].
  destruct (H "yes" ["n"] eq_refl) as [_ H2]; [by vm_compute|].
  destruct (H2 "n" [] eq_refl eq_refl) as [[Hok Hstored] _].
  split; [exact Hok | exact Hstored].
Defined.

Lemma mutations_keep_unique_owner_witness :
  unique_owner [("UP", ["close menu"; "open menu"])].
Proof.
  apply (mutations_keep_unique_owner (fresh (Some one_step_store) ["close menu"; "up"])
           one_step_store eq_refl eq_refl) with
    (w' := snd (op_add (fresh (Some one_step_store) ["close menu"; "up"])))
    (db' := Document 1 [("UP", ["close menu"; "open menu"])]).
  - apply (bool_decide_unpack _). by vm_compute.
  - apply (bool_decide_unpack _). by vm_compute.
  - apply (build_reverse_cache_unique one_step_store {["open menu" := "UP"]}).
    by vm_compute.
  - by left.
  - by vm_compute.
Defined.

(** ** Second runs *)

(** C5, as stated, fails for [op_rename]: with the lines "main menu",
    "open menu", "main menu" typed at its prompts, the first run renames
    "open menu" to "main menu" (the first line names no step, so the old
    name is asked again), and the same invocation on the result finds
    "main menu" at once, takes "open menu" as the new name, and renames the
    step back: a second change, neither a no-op nor a failure. *)
Lemma rename_rerun_renames_back :
  let w := fresh (Some one_step_store) ["main menu"; "open menu"; "main menu"] in
  let renamed := Document 1 [("UP", ["main menu"])] in
  op_rename None None w =
    (Ok tt,
     World (Storage (Some (json_of renamed)) None) NoFailure []
       [Prompt AskOldStepName; SayNotFoundRetry "main menu"; Prompt AskOldStepName;
        Prompt AskNewStepName; SayRenamed "open menu" "main menu"; SaySaved]) /\
  rerun (op_rename None None) w =
    (Ok tt,
     World (Storage (Some (json_of one_step_store)) None) NoFailure ["main menu"]
       [Prompt AskOldStepName; Prompt AskNewStepName;
        SayRenamed "main menu" "open menu"; SaySaved]) /\
  stored (snd (rerun (op_rename None None) w)) <> stored (snd (op_rename None None w)).
Proof. by vm_compute. Qed.

Section Reruns.

Implicit Types (m : dict) (k s a : string) (v : list string) (w : world).

(** A removed step is gone: the same [op_remove] on the result reports it
    as not found and writes nothing. *)
Lemma op_remove_rerun w (db : document) (step : string) (assume_yes : bool) :
  failing w = NoFailure ->
  load_db w = (Ok db, w) ->
  NoDup (dict_keys (dmap db)) ->
  disk (snd (rerun (op_remove step assume_yes) w)) = disk (snd (op_remove step assume_yes w)) /\
  (disk (snd (op_remove step assume_yes w)) <> disk w ->
   exists s, normalize_step_name step = Ok s /\
     rerun (op_remove step assume_yes) w =
       (Ok tt, more_stdout [SayNotFound s]
                 (with_disk (disk (snd (op_remove step assume_yes w))) w))).
Proof.
  intros Hfail Hload Hnd.
  destruct (op_remove_effect w db step assume_yes Hfail Hload)
    as [Hsame | (idx & s & seq & steps & drop & Hb & Hs & Hidx & Hne & Hget & _ & _ & Hdisk)].
  { split; [by rewrite rerun_unchanged | done]. }
  set (db1 := Document (version db) (removed (dmap db) s seq steps drop)) in *.
  assert (rerun (op_remove step assume_yes) w =
          (Ok tt, more_stdout [SayNotFound s]
                    (with_disk (disk (snd (op_remove step assume_yes w))) w))) as Hre.
  { unfold rerun. rewrite Hdisk.
    destruct (build_reverse_cache_ok db1) as [idx1 Hb1].
    { apply removed_unique; [done | | done]. by apply (build_reverse_cache_unique db idx). }
    assert (idx1 !! s = None) as Hs1.
    { apply (cache_lookup_None db1 idx1 s Hb1). intros a. by apply (removed_forgets db idx). }
    unfold op_remove, given. exec. rewrite load_db_json. exec.
    rewrite Hb1. exec. rewrite Hs. exec. by rewrite Hs1. }
  split; [by rewrite Hre | intros _; by exists s].
Qed.

(** A second [op_rename] with the same two names, and nothing typed, does
    not find the old one and stops where it asks for it again. *)
Lemma op_rename_rerun w (db : document) (idx : gmap string string)
    (old_raw new_raw o n seq : string) :
  failing w = NoFailure ->
  load_db w = (Ok db, w) ->
  NoDup (dict_keys (dmap db)) ->
  build_reverse_cache db = Ok idx ->
  normalize_step_name old_raw = Ok o ->
  normalize_step_name new_raw = Ok n ->
  idx !! o = Some seq ->
  idx !! n = None ->
  stdin w = [] ->
  fst (op_rename (Some old_raw) (Some new_raw) w) = Ok tt /\
  disk (snd (op_rename (Some old_raw) (Some new_raw) w)) <> disk w /\
  rerun (op_rename (Some old_raw) (Some new_raw)) w =
    (Err EOFError,
     more_stdout [Prompt AskOldStepName]
       (more_stdout [SayNotFoundRetry o]
          (with_disk (disk (snd (op_rename (Some old_raw) (Some new_raw) w))) w))).
Proof.
  intros Hfail Hload Hnd Hbuild Ho Hn Hio Hin Hstdin.
  destruct (cache_owner_listed db idx o seq Hbuild Hio) as [steps Hget].
  unfold rerun.
  rewrite (op_rename_run w db idx old_raw new_raw o n seq steps) by done. simpl.
  set (db1 := Document (version db) (renamed (dmap db) o n seq steps)).
  assert (forall a, ~ owns (dmap db1) o a) as Hgone
    by (intros a; by apply (renamed_forgets db idx)).
  destruct (build_reverse_cache_ok db1) as [idx1 Hb1];
    [by apply (renamed_unique db idx) |].
  assert (idx1 !! o = None) as Ho1 by (by apply (cache_lookup_None db1)).
  split; [done |]. split.
  { intros Heq. assert (load_db w = (Ok db1, w)) as Hload1.
    { unfold load_db. by rewrite <- Heq. }
    rewrite Hload in Hload1. injection Hload1 as Hdb.
    destruct (Hgone seq). rewrite <- Hdb.
    by apply (build_reverse_cache_lookup db idx Hbuild). }
  unfold op_rename, step_argument, in_cache, prompt_step.
  rewrite (normalize_ok_nonempty _ _ Ho), Ho.
  exec. rewrite load_db_json. exec. rewrite Hb1. exec.
  rewrite Ho1, bool_decide_false by (by intros [? ?]). exec.
  rewrite prompt_valid_step_name_eof by done. by exec.
Qed.

(** Running [op_add] again on what it wrote: the storage stays as the
    first run left it, provided the first run read every line typed. *)
Lemma op_add_rerun w (db : document) :
  failing w = NoFailure ->
  load_db w = (Ok db, w) ->
  NoDup (dict_keys (dmap db)) ->
  stdin (snd (op_add w)) = [] ->
  disk (snd (rerun op_add w)) = disk (snd (op_add w)).
Proof.
  intros Hfail Hload Hnd Hread.
  destruct (op_add_effect w db Hfail Hload)
    as [Hsame | (idx & step & raw_seq & rest & out & seq & step' & Hb & Hstep & Hseq &
                 Hdiff & Hcase & _ & Hdisk)].
  { by rewrite rerun_unchanged. }
  unfold rerun. rewrite Hdisk.
  set (db1 := Document (version db) (insert_sorted (dmap db) seq step')) in *.
  set (w1 := with_disk (Storage (Some (json_of db1)) None) w).
  assert (load_db w1 = (Ok db1, w1)) as Hload1 by apply load_db_json.
  destruct (build_reverse_cache db1) as [idx1 | e1] eqn:Hb1.
  2:{ unfold op_add. exec. rewrite Hload1. exec. by rewrite Hb1. }
  assert (forall s a, idx1 !! s = Some a <-> idx !! s = Some a \/ (s = step' /\ a = seq))
    as Hidx1.
  { intros s a. rewrite (build_reverse_cache_lookup db1 idx1 Hb1),
      (build_reverse_cache_lookup db idx Hb). by apply owns_insert_sorted. }
  rewrite (op_add_prompts w1 db1 idx1 step raw_seq seq rest out) by done.
  unfold add_tail.
  destruct Hcase as [(-> & Hfree & _) | (e & out' & He & Hne & Hnew)].
  - (* the step went in under the name typed *)
    assert (idx1 !! step = Some seq) as ->.
    { apply Hidx1. by right. }
    by rewrite bool_decide_true.
  - (* a fresh name was taken: the same lines now run dry *)
    rewrite Hread in Hnew.
    assert (idx1 !! step = Some e) as ->.
    { apply Hidx1. by left. }
    rewrite bool_decide_false by (rewrite He in Hdiff; congruence).
    rewrite (truthy_nonempty e Hne), bool_decide_true by (rewrite He in Hdiff; congruence).
    simpl andb. exec. rewrite run_reading_run. simpl stdin.
    destruct (new_name_lines_again idx idx1 rest step' out' Hnew) as [out1 ->].
    + intros s [a Ha]. exists a. apply Hidx1. by left.
    + exists seq. apply Hidx1. by right.
    + by exec.
Qed.

(** Adding twice, for a step that was in no list: the
    first run adds it under the name typed, the second says so. *)
Lemma op_add_rerun_reports w (db : document) (idx : gmap string string)
    (step raw_seq seq : string) (rest : list string) (out : list line) :
  failing w = NoFailure ->
  load_db w = (Ok db, w) ->
  NoDup (dict_keys (dmap db)) ->
  build_reverse_cache db = Ok idx ->
  prompt_valid_step_name_lines AskStepName (stdin w) = (Ok step, raw_seq :: rest, out) ->
  canonicalize_sequence (Py.strip raw_seq) = Ok seq ->
  idx !! step = None ->
  let after := Document (version db) (insert_sorted (dmap db) seq step) in
  fst (op_add w) = Ok tt /\
  stored (snd (op_add w)) = Some (json_of after) /\
  fst (rerun op_add w) = Ok tt /\
  stored (snd (rerun op_add w)) = Some (json_of after) /\
  SayAlreadyExists step seq ∈ stdout (snd (rerun op_add w)).
Proof.
  intros Hfail Hload Hnd Hb Hstep Hseq Hfree after.
  assert (op_add w =
          (Ok tt,
           more_stdout [SaySaved]
             (more_stdout [SayAdded step seq]
                (with_disk (Storage (Some (json_of after)) None)
                   (with_stdin rest
                      (more_stdout [Prompt AskSequence]
                         (with_stdin (raw_seq :: rest)
                            (more_stdout out (more_stdout [BannerAdd] w))))))))) as Hrun.
  { rewrite (op_add_prompts w db idx step raw_seq seq rest out) by done.
    unfold add_tail. rewrite Hfree. rewrite bool_decide_false by done. exec.
    rewrite atomic_save_ok by done. by exec. }
  unfold rerun. rewrite Hrun. simpl fst. simpl snd. simpl disk.
  set (w1 := with_disk (Storage (Some (json_of after)) None) w).
  assert (load_db w1 = (Ok after, w1)) as Hload1 by apply load_db_json.
  destruct (build_reverse_cache_ok after) as [idx1 Hb1];
    [by apply (inserted_unique db idx) |].
  assert (idx1 !! step = Some seq) as Hidx1.
  { apply (build_reverse_cache_lookup after idx1 Hb1), owns_insert_sorted; [done |].
    by right. }
  rewrite (op_add_prompts w1 after idx1 step raw_seq seq rest out) by done.
  unfold add_tail. rewrite Hidx1, bool_decide_true by done.
  split_and!; try done. cbn. apply elem_of_app. right. apply list_elem_of_here.
Qed.

(** Moving a step a second time finds it in place. *)
Lemma op_reassign_rerun w (db : document) (idx : gmap string string)
    (step_raw seq_raw s A B : string) :
  failing w = NoFailure ->
  load_db w = (Ok db, w) ->
  NoDup (dict_keys (dmap db)) ->
  build_reverse_cache db = Ok idx ->
  normalize_step_name step_raw = Ok s ->
  canonicalize_sequence seq_raw = Ok B ->
  idx !! s = Some A ->
  rerun (op_reassign (Some step_raw) (Some seq_raw)) w =
  (Ok tt,
   more_stdout [SayAlreadyUnder s B]
     (with_disk (disk (snd (op_reassign (Some step_raw) (Some seq_raw) w))) w)).
Proof.
  intros Hfail Hload Hnd Hb Hs HB Hidx.
  destruct (cache_owner_listed db idx s A Hb Hidx) as [listA HA].
  pose proof (op_reassign_run w db idx step_raw seq_raw s A B listA
                Hfail Hload Hb Hs HB Hidx HA) as Hrun.
  destruct (decide (A = B)) as [-> | Hne].
  { rewrite rerun_unchanged; rewrite Hrun; [| done]. simpl. by rewrite with_disk_same. }
  unfold rerun. rewrite Hrun. simpl snd. simpl disk.
  set (db1 := Document (version db) (moved (dmap db) s A B listA)).
  set (w1 := with_disk (Storage (Some (json_of db1)) None) w).
  assert (load_db w1 = (Ok db1, w1)) as Hload1 by apply load_db_json.
  destruct (build_reverse_cache_ok db1) as [idx1 Hb1]; [by apply (moved_unique db idx) |].
  assert (idx1 !! s = Some B) as Hidx1.
  { apply (build_reverse_cache_lookup db1 idx1 Hb1). simpl. unfold moved.
    apply owns_insert_sorted; [by apply NoDup_dict_set | by right]. }
  destruct (cache_owner_listed db1 idx1 s B Hb1 Hidx1) as [listB HB1].
  rewrite (op_reassign_run w1 db1 idx1 step_raw seq_raw s B B listB) by done.
  by rewrite decide_True.
Qed.

Lemma op_gc_rerun w (db : document) :
  failing w = NoFailure ->
  load_db w = (Ok db, w) ->
  NoDup (dict_keys (dmap db)) ->
  rerun op_gc w =
  (Ok tt, more_stdout [SayGC 0] (with_disk (disk (snd (op_gc w))) w)).
Proof.
  intros Hfail Hload Hnd. unfold rerun.
  rewrite (op_gc_run w db) by done. cbn zeta.
  destruct (decide (length (dmap db) = length (gc_map (dmap db)))) as [Heq | Hne].
  - simpl snd. simpl disk. rewrite with_disk_same, (op_gc_run w db) by done. cbn zeta.
    rewrite decide_True by done. by rewrite Heq, Z.sub_diag.
  - simpl snd. simpl disk.
    set (db1 := Document (version db) (gc_map (dmap db))).
    rewrite (op_gc_run _ db1); [| done | apply load_db_json | by apply NoDup_gc_map].
    cbn zeta. simpl dmap. rewrite gc_map_idem, decide_True by done.
    by rewrite Z.sub_diag.
Qed.

End Reruns.

(** C5, amended: a second run of the same invocation on the storage the
    first one left never changes it again, in these cases.  [op_add], when
    the first run read every line typed: the stored document stays; and when
    the step typed was in no list, the first run stores it under that name
    and the second one reports it as already present.  [op_reassign] with
    its step and sequence given and valid: the second run finds the step in
    place.  [op_rename] with both names given and valid, the old one known,
    the new one free, and no line typed: the second run does not find the
    old name and stops at end of input.  [op_remove]: the second run writes
    nothing, and after a removal reports the step as not found.  [op_gc]:
    the second run removes nothing. *)
Theorem reruns_change_nothing (w : world) (db : document) :
  failing w = NoFailure ->
  load_db w = (Ok db, w) ->
  NoDup (dict_keys (dmap db)) ->
  (stdin (snd (op_add w)) = [] ->
   disk (snd (rerun op_add w)) = disk (snd (op_add w))) /\
  (forall idx step raw_seq seq rest out,
     build_reverse_cache db = Ok idx ->
     prompt_valid_step_name_lines AskStepName (stdin w) = (Ok step, raw_seq :: rest, out) ->
     canonicalize_sequence (Py.strip raw_seq) = Ok seq ->
     idx !! step = None ->
     let after := Document (version db) (insert_sorted (dmap db) seq step) in
     fst (op_add w) = Ok tt /\
     stored (snd (op_add w)) = Some (json_of after) /\
     fst (rerun op_add w) = Ok tt /\
     stored (snd (rerun op_add w)) = Some (json_of after) /\
     SayAlreadyExists step seq ∈ stdout (snd (rerun op_add w))) /\
  (forall idx step_raw seq_raw s A B,
     build_reverse_cache db = Ok idx ->
     normalize_step_name step_raw = Ok s ->
     canonicalize_sequence seq_raw = Ok B ->
     idx !! s = Some A ->
     rerun (op_reassign (Some step_raw) (Some seq_raw)) w =
     (Ok tt,
      more_stdout [SayAlreadyUnder s B]
        (with_disk (disk (snd (op_reassign (Some step_raw) (Some seq_raw) w))) w))) /\
  (forall idx old_raw new_raw o n seq,
     build_reverse_cache db = Ok idx ->
     normalize_step_name old_raw = Ok o ->
     normalize_step_name new_raw = Ok n ->
     idx !! o = Some seq ->
     idx !! n = None ->
     stdin w = [] ->
     fst (op_rename (Some old_raw) (Some new_raw) w) = Ok tt /\
     disk (snd (op_rename (Some old_raw) (Some new_raw) w)) <> disk w /\
     rerun (op_rename (Some old_raw) (Some new_raw)) w =
       (Err EOFError,
        more_stdout [Prompt AskOldStepName]
          (more_stdout [SayNotFoundRetry o]
             (with_disk (disk (snd (op_rename (Some old_raw) (Some new_raw) w))) w)))) /\
  (forall step assume_yes,
     disk (snd (rerun (op_remove step assume_yes) w)) =
       disk (snd (op_remove step assume_yes w)) /\
     (disk (snd (op_remove step assume_yes w)) <> disk w ->
      exists s, normalize_step_name step = Ok s /\
        rerun (op_remove step assume_yes) w =
          (Ok tt, more_stdout [SayNotFound s]
                    (with_disk (disk (snd (op_remove step assume_yes w))) w)))) /\
  rerun op_gc w = (Ok tt, more_stdout [SayGC 0] (with_disk (disk (snd (op_gc w))) w)).
Proof.
  intros Hfail Hload Hnd. split_and!.
  - by apply (op_add_rerun w db).
  - intros idx step raw_seq seq rest out Hb Hstep Hseq Hfree.
    by apply (op_add_rerun_reports w db idx step raw_seq seq rest out).
  - intros idx step_raw seq_raw s A B Hb Hs HB Hidx.
    by apply (op_reassign_rerun w db idx step_raw seq_raw s A B).
  - intros idx old_raw new_raw o n seq Hb Ho Hn Hio Hin Hstdin.
    by apply (op_rename_rerun w db idx old_raw new_raw o n seq).
  - intros step assume_yes. by apply (op_remove_rerun w db).
  - by apply (op_gc_rerun w db).
Qed.

Lemma reruns_change_nothing_witness :
  let w := fresh (Some (Document 1 [])) ["open menu"; "DOWN, DOWN"] in
  disk (snd (rerun op_add w)) = disk (snd (op_add w)) /\
  stored (snd (op_add w)) = Some (json_of (Document 1 [("DOWN,DOWN", ["open menu"])])) /\
  fst (rerun op_add w) = Ok tt.
Proof.
  intros w.
  destruct (reruns_change_nothing w (Document 1 [])) as (Hadd & _);
    [reflexivity | reflexivity | apply NoDup_nil_2 |].
  split; [apply Hadd; reflexivity | by vm_compute].
Defined.

(** * Further properties *)

(** ** Step names: normal forms and verdicts *)

(** [str.split] and [str.strip] on text made of words, and the regular
    expression on words joined by single spaces. *)
Section Words.

Implicit Types (s t w : string) (c : ascii) (ws : list string).

Lemma split_unfold c s :
  Py.split (String c s) =
  if Py.isspace c then Py.split s
  else match Py.split s with
       | w :: ws =>
           match s with
           | String c' _ =>
               if Py.isspace c' then String c EmptyString :: w :: ws
               else String c w :: ws
           | EmptyString => [String c EmptyString]
           end
       | [] => [String c EmptyString]
       end.
Proof. done. Qed.

Lemma split_space c s : Py.isspace c = true -> Py.split (String c s) = Py.split s.
Proof. intros H. simpl. by rewrite H. Qed.

Lemma split_all_space s : Py.all Py.isspace s = true -> Py.split s = [].
Proof.
  induction s as [|c s IH]; [done|]. simpl. intros [Hc Hs]%andb_prop.
  rewrite Hc. auto.
Qed.

Lemma split_word w rest :
  solid w ->
  (rest = EmptyString \/ exists c r, rest = String c r /\ Py.isspace c = true) ->
  Py.split (w +:+ rest) = w :: Py.split rest.
Proof.
  intros [Hne Hall] Hrest. induction w as [|c w IH]; [done|].
  simpl in Hall. apply andb_prop in Hall as [Hc Hw].
  apply negb_true_iff in Hc.
  destruct w as [|c2 w].
  - change (String c EmptyString +:+ rest) with (String c rest).
    simpl. rewrite Hc.
    destruct Hrest as [-> | (c' & r & -> & Hc')]; [done|].
    rewrite (split_space _ _ Hc'). rewrite Hc'. by destruct (Py.split r).
  - change (String c (String c2 w) +:+ rest) with (String c (String c2 w +:+ rest)).
    assert (IH' := IH ltac:(done) Hw).
    change (Py.split (String c (String c2 w +:+ rest))) with
      (if Py.isspace c then Py.split (String c2 w +:+ rest)
       else match Py.split (String c2 w +:+ rest) with
            | w0 :: ws =>
                match String c2 w +:+ rest with
                | String c' _ =>
                    if Py.isspace c' then String c EmptyString :: w0 :: ws
                    else String c w0 :: ws
                | EmptyString => [String c EmptyString]
                end
            | [] => [String c EmptyString]
            end).
    rewrite Hc, IH'.
    change (String c2 w +:+ rest) with (String c2 (w +:+ rest)).
    cbn beta iota. simpl in Hw. apply andb_prop in Hw as [Hc2 _].
    apply negb_true_iff in Hc2. by rewrite Hc2.
Qed.

Lemma split_lstrip s : Py.split (Py.lstrip s) = Py.split s.
Proof.
  induction s as [|c s IH]; [done|].
  change (Py.lstrip (String c s)) with (if Py.isspace c then Py.lstrip s else String c s).
  destruct (Py.isspace c) eqn:Hc; [|done].
  by rewrite IH, (split_space _ _ Hc).
Qed.

Lemma rstrip_head s c r : Py.rstrip s = String c r -> exists s', s = String c s'.
Proof.
  destruct s as [|a s]; [done|]. simpl.
  destruct (Py.rstrip s); [destruct (Py.isspace a)|]; intros [= -> _]; eauto.
Qed.

Lemma rstrip_empty s : Py.rstrip s = EmptyString -> Py.all Py.isspace s = true.
Proof.
  induction s as [|a s IH]; [done|]. simpl.
  destruct (Py.rstrip s); [|done].
  destruct (Py.isspace a); [|done]. intros _. by apply IH.
Qed.

Lemma split_rstrip s : Py.split (Py.rstrip s) = Py.split s.
Proof.
  induction s as [|c s IH]; [done|].
  change (Py.rstrip (String c s)) with
    (match Py.rstrip s with
     | EmptyString => if Py.isspace c then EmptyString else String c EmptyString
     | r => String c r
     end).
  destruct (Py.rstrip s) as [|c' r] eqn:Hr.
  - apply rstrip_empty, split_all_space in Hr.
    rewrite (split_unfold c s), Hr.
    destruct (Py.isspace c) eqn:Hc; [done|]. by rewrite split_unfold, Hc.
  - destruct (rstrip_head _ _ _ Hr) as [s' ->].
    rewrite !(split_unfold c), IH. done.
Qed.

Lemma split_strip s : Py.split (Py.strip s) = Py.split s.
Proof. unfold Py.strip. by rewrite split_rstrip, split_lstrip. Qed.

Lemma name_char_not_space c : name_char c = true -> Py.isspace c = false.
Proof. destruct c as [[] [] [] [] [] [] [] []]; by vm_compute. Qed.

Lemma name_word_solid w : name_word w -> solid w.
Proof.
  intros [Hne Hall]. split; [done|]. clear Hne.
  induction w as [|c w IH]; [done|]. simpl in *.
  apply andb_prop in Hall as [Hc Hw]. by rewrite (name_char_not_space _ Hc), IH.
Qed.

Lemma split_lead lead rest : space_run lead -> Py.split (lead +:+ rest) = Py.split rest.
Proof.
  unfold space_run. induction lead as [|c lead IH]; [done|]. simpl.
  intros [Hc Hl]%andb_prop. rewrite Hc. auto.
Qed.

Lemma split_spell body :
  well_worded body -> Py.split (spell body) = map fst body.
Proof.
  induction body as [|[w sp] body IH]; [done|].
  intros (Hw & Hsp & Hne & Hbody). simpl.
  rewrite split_word, (split_lead _ _ Hsp), (IH Hbody); [done| by apply name_word_solid |].
  destruct sp as [|c r].
  - left. destruct body; [done|]. by destruct Hne.
  - right. exists c, (r +:+ spell body). split; [done|].
    unfold space_run in Hsp. simpl in Hsp. by apply andb_prop in Hsp as [-> _].
Qed.

Lemma join_cons sep w w' ws :
  Py.join sep (w :: w' :: ws) = w +:+ sep +:+ Py.join sep (w' :: ws).
Proof. done. Qed.

Lemma split_join ws : Forall solid ws -> Py.split (Py.join " " ws) = ws.
Proof.
  induction 1 as [|w ws Hw Hws IH]; [done|].
  destruct ws as [|w' ws].
  - change (Py.join " " [w]) with w. rewrite <- (app_empty_r w) at 1.
    rewrite split_word; [done | done | by left].
  - rewrite join_cons, split_word; [| done | right; by exists " "%char, (Py.join " " (w' :: ws))].
    change (" " +:+ Py.join " " (w' :: ws)) with (String " " (Py.join " " (w' :: ws))).
    by rewrite split_space, IH.
Qed.

Lemma fullmatch_word_then w t :
  name_word w ->
  step_name_fullmatch w = true /\
  step_name_fullmatch (w +:+ String " " t) = step_name_fullmatch t.
Proof.
  intros [Hne Hall]. induction w as [|c w IH]; [done|].
  simpl in Hall. apply andb_prop in Hall as [Hc Hw].
  destruct w as [|c2 w].
  - simpl. by rewrite Hc.
  - destruct (IH ltac:(done) Hw) as [IH1 IH2].
    assert (Hc2 : Ascii.eqb c2 " " = false).
    { simpl in Hw. apply andb_prop in Hw as [Hc2 _].
      apply Ascii.eqb_neq. intros ->. by vm_compute in Hc2. }
    split.
    + change (step_name_fullmatch (String c (String c2 w))) with
        (name_char c && (if Ascii.eqb c2 " " then step_name_fullmatch w
                         else step_name_fullmatch (String c2 w))).
      by rewrite Hc, Hc2.
    + change (step_name_fullmatch (String c (String c2 w) +:+ String " " t)) with
        (name_char c && (if Ascii.eqb c2 " " then step_name_fullmatch (w +:+ String " " t)
                         else step_name_fullmatch (String c2 w +:+ String " " t))).
      by rewrite Hc, Hc2.
Qed.

Lemma fullmatch_join ws :
  ws <> [] -> Forall name_word ws -> step_name_fullmatch (Py.join " " ws) = true.
Proof.
  intros Hne Hall. induction Hall as [|w ws Hw Hws IH]; [done|].
  destruct ws as [|w' ws].
  - by apply (fullmatch_word_then w EmptyString).
  - rewrite join_cons.
    change (" " +:+ Py.join " " (w' :: ws)) with (String " " (Py.join " " (w' :: ws))).
    rewrite (proj2 (fullmatch_word_then w _ Hw)). by apply IH.
Qed.

Lemma fullmatch_words s :
  step_name_fullmatch s = true ->
  exists ws, ws <> [] /\ Forall name_word ws /\ s = Py.join " " ws.
Proof.
  remember (String.length s) as n eqn:Hn.
  revert s Hn. induction n as [n IH] using lt_wf_ind. intros s Hn Hm.
  destruct s as [|c s]; [done|].
  simpl in Hm. apply andb_prop in Hm as [Hc Hm].
  destruct s as [|c' s].
  - exists [String c EmptyString]. split; [done|]. split; [|done].
    constructor; [|done]. split; [done|]. simpl. by rewrite Hc.
  - destruct (Ascii.eqb c' " ") eqn:Hsp.
    + apply Ascii.eqb_eq in Hsp as ->.
      destruct (IH (String.length s) ltac:(subst n; simpl; lia) s eq_refl Hm)
        as (ws & Hne & Hws & ->).
      exists (String c EmptyString :: ws). split; [done|]. split.
      * constructor; [|done]. split; [done|]. simpl. by rewrite Hc.
      * by destruct ws.
    + destruct (IH (String.length (String c' s)) ltac:(subst n; simpl; lia)
                  (String c' s) eq_refl Hm) as (ws & Hne & Hws & Heq).
      destruct ws as [|w ws]; [done|].
      apply Forall_cons in Hws as [[Hwne Hw] Hws].
      exists (String c w :: ws). split; [done|]. split.
      * constructor; [|done]. split; [done|]. simpl. by rewrite Hc, Hw.
      * rewrite Heq. by destruct ws.
Qed.

Lemma join_truthy ws w : Forall solid (w :: ws) -> Py.truthy (Py.join " " (w :: ws)) = true.
Proof.
  intros [[Hne _] _]%Forall_cons. destruct w as [|c w]; [done|]. by destruct ws.
Qed.

Lemma normalize_of_words raw ws :
  Py.split raw = ws -> ws <> [] -> Forall name_word ws ->
  normalize_step_name raw = Ok (Py.join " " ws).
Proof.
  intros Hsplit Hne Hws. unfold normalize_step_name.
  rewrite split_strip, Hsplit. cbn zeta.
  destruct ws as [|w ws]; [done|].
  rewrite join_truthy, fullmatch_join; [done | done | done |].
  eapply Forall_impl; [exact Hws|]. apply name_word_solid.
Qed.

Lemma normalize_ok_fullmatch raw s :
  normalize_step_name raw = Ok s -> step_name_fullmatch s = true.
Proof.
  unfold normalize_step_name. cbn zeta.
  destruct (negb (Py.truthy _)); [done|].
  destruct (step_name_fullmatch _) eqn:Hm; simpl.
  - by intros [= <-].
  - by repeat case_match.
Qed.

Lemma fullmatch_normalize s :
  step_name_fullmatch s = true -> normalize_step_name s = Ok s.
Proof.
  intros (ws & Hne & Hws & ->)%fullmatch_words.
  apply normalize_of_words; [|done|done].
  apply split_join. eapply Forall_impl; [exact Hws|]. apply name_word_solid.
Qed.

End Words.

(** X3: the names [normalize_step_name] returns are the strings the regular
    expression matches, and each of them is its own normal form: normalizing
    twice gives what normalizing once gave. *)
Theorem normalize_step_name_fixed_points (raw s : string) :
  (normalize_step_name raw = Ok s -> normalize_step_name s = Ok s) /\
  (normalize_step_name s = Ok s <-> step_name_fullmatch s = true).
Proof.
  split; [|split].
  - intros H. by apply fullmatch_normalize, (normalize_ok_fullmatch raw).
  - apply normalize_ok_fullmatch.
  - apply fullmatch_normalize.
Qed.

(** X4: words of lowercase letters and digits, separated by any runs of
    whitespace (tabs and newlines included) and with whitespace around
    them, normalize to the words joined by single spaces. *)
Theorem normalize_step_name_collapses_whitespace
    (lead : string) (body : list (string * string)) :
  space_run lead -> well_worded body -> body <> [] ->
  normalize_step_name (lead +:+ spell body) = Ok (Py.join " " (map fst body)).
Proof.
  intros Hlead Hbody Hne. apply normalize_of_words.
  - by rewrite (split_lead _ _ Hlead), split_spell.
  - by destruct body.
  - clear Hne. induction body as [|[w sp] body IH]; [done|].
    destruct Hbody as (Hw & _ & _ & Hbody). constructor; [done | by apply IH].
Qed.

Lemma normalize_step_name_collapses_whitespace_witness :
  let tab := String "009" EmptyString in
  normalize_step_name (tab +:+ "open   the" +:+ tab +:+ "menu  ") = Ok "open the menu".
Proof.
  apply (normalize_step_name_collapses_whitespace (String "009" EmptyString)
           [("open", "   "); ("the", String "009" EmptyString); ("menu", "  ")]).
  - by vm_compute.
  - by vm_compute.
  - done.
Defined.

(** What [str.split] keeps of any text: every character that is not
    whitespace, in words that have no whitespace in them. *)
Section Verdict.

Implicit Types (s t w : string) (c : ascii) (ws : list string).

Lemma split_words (P : ascii -> bool) s :
  Py.all (fun c => Py.isspace c || P c) s = true ->
  Forall (fun w => w <> EmptyString /\ Py.all P w = true) (Py.split s).
Proof.
  induction s as [|c s IH]; [constructor|].
  simpl Py.all. intros [Hc Hs]%andb_prop. specialize (IH Hs).
  rewrite split_unfold. destruct (Py.isspace c) eqn:Hsp; [done|].
  simpl in Hc.
  assert (Hone : String c EmptyString <> EmptyString /\ Py.all P (String c EmptyString) = true).
  { split; [done|]. simpl. by rewrite Hc. }
  destruct (Py.split s) as [|w ws]; [by constructor|].
  destruct s as [|c' s']; [by constructor|].
  destruct (Py.isspace c'); [by constructor|].
  apply Forall_cons in IH as [[Hne Hw] Hws].
  constructor; [|done]. split; [done|]. simpl. by rewrite Hc, Hw.
Qed.

Lemma split_keeps (Q : ascii -> bool) s :
  (forall c, Q c = true -> Py.isspace c = false) ->
  Py.any Q s = true -> Exists (fun w => Py.any Q w = true) (Py.split s).
Proof.
  intros HQ. induction s as [|c s IH]; [done|].
  simpl Py.any. rewrite split_unfold. intros [Hc|Hs]%orb_prop.
  - rewrite (HQ _ Hc).
    assert (Hone : Py.any Q (String c EmptyString) = true) by (simpl; by rewrite Hc).
    destruct (Py.split s) as [|w ws]; [by constructor|].
    destruct s as [|c' s']; [by constructor|].
    destruct (Py.isspace c'); [by constructor|].
    constructor. simpl. by rewrite Hc.
  - specialize (IH Hs). destruct (Py.isspace c); [done|].
    destruct (Py.split s) as [|w ws]; [by apply Exists_nil in IH|].
    destruct s as [|c' s']; [done|].
    destruct (Py.isspace c'); [by apply Exists_cons_tl|].
    apply Exists_cons in IH as [Hw|Hws].
    + apply Exists_cons_hd. simpl. rewrite Hw. apply orb_true_r.
    + by apply Exists_cons_tl.
Qed.

Lemma any_app (Q : ascii -> bool) s t : Py.any Q (s +:+ t) = Py.any Q s || Py.any Q t.
Proof. induction s as [|c s IH]; [done|]. simpl. by rewrite IH, orb_assoc. Qed.

Lemma any_join (Q : ascii -> bool) ws :
  Exists (fun w => Py.any Q w = true) ws -> Py.any Q (Py.join " " ws) = true.
Proof.
  induction ws as [|w ws IH]; [by intros ?%Exists_nil|].
  intros H. destruct ws as [|w' ws].
  - apply Exists_cons in H as [H|H]; [done | by apply Exists_nil in H].
  - rewrite join_cons, !any_app. apply Exists_cons in H as [H|H].
    + by rewrite H.
    + rewrite (IH H). by rewrite !orb_true_r.
Qed.

Lemma fullmatch_chars s :
  step_name_fullmatch s = true ->
  Py.all (fun c => name_char c || Ascii.eqb c " ") s = true.
Proof.
  remember (String.length s) as n eqn:Hn.
  revert s Hn. induction n as [n IH] using lt_wf_ind. intros s Hn Hm.
  destruct s as [|c s]; [done|].
  simpl in Hm. apply andb_prop in Hm as [Hc Hm].
  simpl Py.all. rewrite Hc. simpl.
  destruct s as [|c' s]; [done|].
  destruct (Ascii.eqb c' " ") eqn:Hsp.
  - simpl Py.all. rewrite Hsp, orb_true_r. simpl.
    apply (IH (String.length s)); [subst n; simpl; lia | done | done].
  - apply (IH (String.length (String c' s))); [subst n; simpl; lia | done | done].
Qed.

Lemma all_any_false (P Q : ascii -> bool) s :
  (forall c, P c = true -> Q c = false) ->
  Py.all P s = true -> Py.any Q s = false.
Proof.
  intros HPQ. induction s as [|c s IH]; [done|]. simpl.
  intros [Hc Hs]%andb_prop. by rewrite (HPQ _ Hc), IH.
Qed.

Lemma forbidden_not_name c :
  name_char c || Ascii.eqb c " " = true -> forbidden_char c = false.
Proof. destruct c as [[] [] [] [] [] [] [] []]; by vm_compute. Qed.

Lemma forbidden_not_space c : forbidden_char c = true -> Py.isspace c = false.
Proof. destruct c as [[] [] [] [] [] [] [] []]; by vm_compute. Qed.

Lemma allowed_or_forbidden c :
  forbidden_char c = false -> Py.isspace c || name_char c = true.
Proof. destruct c as [[] [] [] [] [] [] [] []]; by vm_compute. Qed.

Lemma any_false_all (Q P : ascii -> bool) s :
  (forall c, Q c = false -> P c = true) ->
  Py.any Q s = false -> Py.all P s = true.
Proof.
  intros HQP. induction s as [|c s IH]; [done|]. simpl.
  intros [Hc Hs]%orb_false_elim. by rewrite (HQP _ Hc), IH.
Qed.

Lemma split_nonempty s : Py.all Py.isspace s = false -> Py.split s <> [].
Proof.
  induction s as [|c s IH]; [done|]. simpl Py.all. rewrite split_unfold.
  destruct (Py.isspace c); simpl; [done|]. intros _.
  destruct (Py.split s); [done|]. destruct s as [|c' s']; [done|].
  by destruct (Py.isspace c').
Qed.

Lemma normalize_rejects_forbidden raw :
  Py.any forbidden_char raw = true ->
  step_name_fullmatch (Py.join " " (Py.split (Py.strip raw))) = false.
Proof.
  intros Hf. destruct (step_name_fullmatch _) eqn:Hm; [|done].
  apply fullmatch_chars in Hm.
  apply (all_any_false _ forbidden_char) in Hm; [|apply forbidden_not_name].
  rewrite any_join in Hm; [done|]. rewrite split_strip.
  apply split_keeps; [apply forbidden_not_space | done].
Qed.

End Verdict.

(** X5: which answer an ASCII input gets.  Whitespace alone is "empty"; an
    uppercase letter anywhere gives the combined message; otherwise any
    character that is not a lowercase letter, a digit or whitespace gives
    the punctuation message; every other input is accepted, as its words
    joined by single spaces.  The generic "Invalid step name" message is
    not produced for such input. *)
Theorem normalize_step_name_verdict (raw : string) :
  ascii_text raw ->
  normalize_step_name raw =
    if Py.all Py.isspace raw then Err EmptyStepName
    else if Py.any Py.isupper raw then Err UppercaseAndPunctuation
    else if Py.any forbidden_char raw then Err PunctuationOnly
    else Ok (Py.join " " (Py.split raw)).
Proof.
  intros _. destruct (Py.all Py.isspace raw) eqn:Hsp.
  - unfold normalize_step_name. by rewrite split_strip, (split_all_space _ Hsp).
  - destruct (Py.any forbidden_char raw) eqn:Hf.
    + unfold normalize_step_name. cbn zeta.
      rewrite (normalize_rejects_forbidden _ Hf), Hf, split_strip.
      pose proof (split_nonempty _ Hsp) as Hne.
      pose proof (split_words (fun _ => true) raw) as Hws.
      destruct (Py.split raw) as [|w ws] eqn:Hsplit; [done|].
      assert (Py.truthy (Py.join " " (w :: ws)) = true) as ->.
      { assert (w <> EmptyString) as Hw.
        { refine (proj1 (Forall_inv (Hws _))).
          clear. induction raw as [|c s IH]; [done|]. simpl. by rewrite orb_true_r. }
        destruct w; [done|]. by destruct ws. }
      simpl. by destruct (Py.any Py.isupper raw).
    + assert (Py.any Py.isupper raw = false) as ->.
      { destruct (Py.any Py.isupper raw) eqn:Hup; [|done].
        by rewrite (any_isupper_forbidden _ Hup) in Hf. }
      apply normalize_of_words; [done | by apply split_nonempty |].
      apply split_words.
      apply (any_false_all forbidden_char (fun c => Py.isspace c || name_char c));
        [apply allowed_or_forbidden | done].
Qed.

Lemma normalize_step_name_verdict_witness :
  normalize_step_name "open-menu" = Err PunctuationOnly.
Proof.
  apply (normalize_step_name_verdict "open-menu"). by vm_compute.
Defined.

(** ** Names out of canonical form pass lint *)

(** No canonical name is in the reverse cache of [loose_store]. *)
Lemma loose_store_cache (idx : gmap string string) (s : string) :
  build_reverse_cache loose_store = Ok idx ->
  step_name_fullmatch s = true -> idx !! s = None.
Proof.
  intros Hidx Hs. apply (cache_lookup_None loose_store idx s Hidx).
  intros a (steps & Hin%list_elem_of_singleton & Hmem). simpl in Hin.
  simplify_eq. apply list_elem_of_singleton in Hmem as ->. done.
Qed.

(** C9: [op_lint] does not report every malformed step name and sequence
    key.  It calls [normalize_step_name] and [canonicalize_sequence] on what
    is stored and looks only at whether they raise, never at the form they
    return.  On [loose_store], whose step name the regular expression
    refuses and whose key is not the key [canonicalize_sequence] returns,
    it prints "Lint OK" and returns normally; yet the operations look a step
    up under its normalized name, so no argument of [op_remove] finds the
    step.  In general [op_lint] returns normally on every document whose
    names the validators merely accept, each step being under one key. *)
Theorem lint_passes_names_out_of_form :
  let w := fresh (Some loose_store) [] in
  step_name_fullmatch "open  menu" = false /\
  canonicalize_sequence "down down" = Ok "DOWN,DOWN" /\
  op_lint w = (Ok tt, more_stdout [LintOK] w) /\
  (forall step assume_yes,
     op_remove step assume_yes w =
     (Ok tt, more_stdout [match normalize_step_name step with
                          | Ok step_n => SayNotFound step_n
                          | Err e => SayError (StepNameError e)
                          end] w)) /\
  (forall (v : world) (db : document),
     load_db v = (Ok db, v) ->
     (forall s a, owns (dmap db) s a -> exists n, normalize_step_name s = Ok n) ->
     (forall k, k ∈ dict_keys (dmap db) -> exists c, canonicalize_sequence k = Ok c) ->
     unique_owner (dmap db) ->
     fst (op_lint v) = Ok tt).
Proof.
  intros w. split; [reflexivity |]. split; [reflexivity |]. split; [reflexivity |]. split.
  - intros step assume_yes. unfold op_remove.
    rewrite bind_run. change (load_db w) with (Ok (A := document) (E := exn) loose_store, w).
    cbn beta iota. rewrite bind_run, lift_run.
    destruct (build_reverse_cache loose_store) as [idx | e] eqn:Hidx; [| by vm_compute in Hidx].
    cbn beta iota.
    destruct (normalize_step_name step) as [step_n | e] eqn:Hstep; [| reflexivity].
    by rewrite (loose_store_cache idx step_n Hidx (normalize_ok_fullmatch _ _ Hstep)).
  - intros v db Hload Hsteps Hkeys Hu.
    assert (~ lint_error (dmap db)) as Hclean.
    { intros [(s & a & e & Ha & He) | [(s & a & b & Ha & Hb & Hne) | (k & e & Hk & He)]].
      - destruct (Hsteps s a Ha) as [n Hn]. congruence.
      - by destruct Hne; apply (Hu s).
      - destruct (Hkeys k Hk) as [c Hc]. congruence. }
    rewrite <- lint_report_verdict in Hclean.
    unfold op_lint. rewrite bind_run, Hload.
    destruct (lint_report (dmap db)) as [[] out]; [reflexivity | done].
Qed.

(** ** Sequences: canonical keys *)

(** The allowed tokens joined by commas, read back by
    [canonicalize_sequence]. *)
Section Keys.

Implicit Types (s t tok : string) (c : ascii) (toks : list string).

Lemma allowed_token tok :
  tok ∈ ALLOWED_TOKENS -> token_text tok /\ Py.upper (Py.strip tok) = tok.
Proof.
  unfold ALLOWED_TOKENS. rewrite !elem_of_cons, elem_of_nil.
  intros H. repeat (destruct H as [-> | H]; [by vm_compute|]). done.
Qed.

(** Tokens joined by one separator character, as a spelling. *)
Lemma join_spelling c toks :
  sep_char c = true ->
  Forall token_text toks ->
  exists body, well_spelled body /\ map fst body = toks /\
               spell body = Py.join (String c EmptyString) toks.
Proof.
  intros Hc. induction 1 as [|tok toks Htok Htoks (body & Hbody & Hfst & Hspell)].
  - by exists [].
  - destruct toks as [|tok' toks].
    + exists [(tok, EmptyString)]. split; [done|]. split; [done|].
      simpl. by rewrite !app_empty_r.
    + exists ((tok, String c EmptyString) :: body). split; [|split].
      * split; [done|]. split; [|done]. unfold separator_run. simpl. by rewrite Hc.
      * simpl. by rewrite Hfst.
      * simpl spell. rewrite Hspell. done.
Qed.

Lemma canonicalize_ok_tokens raw k :
  canonicalize_sequence raw = Ok k ->
  exists toks, toks <> [] /\ Forall (fun t => t ∈ ALLOWED_TOKENS) toks /\
               k = Py.join "," toks.
Proof.
  unfold canonicalize_sequence, canonicalize_sequence_with. cbn zeta.
  destruct (tokens_of (re_split_seps raw)) as [|t toks] eqn:Htoks; [done|].
  change (match ALLOWED_TOKENS with
          | [] => []
          | _ :: _ => List.filter (fun t => negb (Py.mem t ALLOWED_TOKENS)) (t :: toks)
          end) with (List.filter (fun t => negb (Py.mem t ALLOWED_TOKENS)) (t :: toks)).
  destruct (List.filter _ (t :: toks)) as [|u us] eqn:Hunknown; [|done].
  intros [= <-]. exists (t :: toks). split; [done|]. split; [|done].
  apply Forall_forall. intros x Hx.
  destruct (decide (x ∈ ALLOWED_TOKENS)) as [|Hno]; [done|].
  assert (x ∈ List.filter (fun t => negb (Py.mem t ALLOWED_TOKENS)) (t :: toks)) as Hin.
  { apply list_elem_of_In, List.filter_In. split; [by apply list_elem_of_In|].
    apply negb_true_iff. by apply mem_false. }
  rewrite Hunknown in Hin. by apply elem_of_nil in Hin.
Qed.

Lemma tokens_of_join toks :
  Forall (fun t => t ∈ ALLOWED_TOKENS) toks ->
  tokens_of (re_split_seps (Py.join "," toks)) = toks.
Proof.
  intros Hall.
  destruct (join_spelling "," toks eq_refl) as (body & Hbody & Hfst & Hspell).
  { eapply Forall_impl; [exact Hall|]. intros t Ht. by apply allowed_token. }
  pose proof (tokens_of_spelling EmptyString body eq_refl Hbody) as Htoks.
  change (EmptyString +:+ spell body) with (spell body) in Htoks.
  rewrite <- Hspell, Htoks, Hfst.
  clear -Hall. induction Hall as [|t toks Ht _ IH]; [done|].
  simpl. by rewrite IH, (proj2 (allowed_token t Ht)).
Qed.

Lemma canonicalize_of_tokens toks :
  toks <> [] -> Forall (fun t => t ∈ ALLOWED_TOKENS) toks ->
  canonicalize_sequence (Py.join "," toks) = Ok (Py.join "," toks).
Proof.
  intros Hne Hall.
  unfold canonicalize_sequence, canonicalize_sequence_with. cbn zeta.
  rewrite (tokens_of_join toks Hall).
  destruct toks as [|t toks]; [done|].
  change (match ALLOWED_TOKENS with
          | [] => []
          | _ :: _ => List.filter (fun t => negb (Py.mem t ALLOWED_TOKENS)) (t :: toks)
          end) with (List.filter (fun t => negb (Py.mem t ALLOWED_TOKENS)) (t :: toks)).
  assert (List.filter (fun t => negb (Py.mem t ALLOWED_TOKENS)) (t :: toks) = []) as ->; [|done].
  clear -Hall. induction Hall as [|x xs Hx _ IH]; [done|].
  simpl. apply mem_true in Hx. by rewrite Hx.
Qed.

End Keys.

(** X6: a key [canonicalize_sequence] returns is a fixed point of it:
    canonicalizing a canonical key gives the same key. *)
Theorem canonicalize_sequence_idempotent (raw k : string) :
  canonicalize_sequence raw = Ok k -> canonicalize_sequence k = Ok k.
Proof.
  intros (toks & Hne & Hall & ->)%canonicalize_ok_tokens.
  by apply canonicalize_of_tokens.
Qed.

Lemma canonicalize_sequence_idempotent_witness :
  canonicalize_sequence "DOWN,DOWN,ENTER" = Ok "DOWN,DOWN,ENTER".
Proof.
  apply (canonicalize_sequence_idempotent " down  down, enter"). by vm_compute.
Defined.

(** Upper-casing commutes with splitting and stripping. *)
Section Case.

Implicit Types (s t tok : string) (c : ascii) (toks : list string).

Lemma upper_char_facts c :
  sep_char (Py.upper_char c) = sep_char c /\
  Py.isspace (Py.upper_char c) = Py.isspace c /\
  Py.upper_char (Py.upper_char c) = Py.upper_char c /\
  Py.upper_char (Py.lower_char c) = Py.upper_char c.
Proof. destruct c as [[] [] [] [] [] [] [] []]; by vm_compute. Qed.

Lemma upper_upper s : Py.upper (Py.upper s) = Py.upper s.
Proof.
  induction s as [|c s IH]; [done|]. simpl.
  by rewrite IH, (proj1 (proj2 (proj2 (upper_char_facts c)))).
Qed.

Lemma upper_lower s : Py.upper (Py.lower s) = Py.upper s.
Proof.
  induction s as [|c s IH]; [done|]. simpl.
  by rewrite IH, (proj2 (proj2 (proj2 (upper_char_facts c)))).
Qed.

Lemma re_split_seps_unfold c s :
  re_split_seps (String c s) =
  if sep_char c then
    match s with
    | String c' _ =>
        if sep_char c' then re_split_seps s else EmptyString :: re_split_seps s
    | EmptyString => [EmptyString; EmptyString]
    end
  else
    match re_split_seps s with
    | f :: fs => String c f :: fs
    | [] => [String c EmptyString]
    end.
Proof. done. Qed.

Lemma re_split_seps_upper s :
  re_split_seps (Py.upper s) = map Py.upper (re_split_seps s).
Proof.
  induction s as [|c s IH]; [done|].
  change (Py.upper (String c s)) with (String (Py.upper_char c) (Py.upper s)).
  rewrite !re_split_seps_unfold, (proj1 (upper_char_facts c)), IH.
  destruct (sep_char c).
  - destruct s as [|c' s]; [done|].
    change (Py.upper (String c' s)) with (String (Py.upper_char c') (Py.upper s)).
    cbn beta iota. rewrite (proj1 (upper_char_facts c')).
    by destruct (sep_char c').
  - by destruct (re_split_seps_cons s) as (f & fs & ->).
Qed.

Lemma lstrip_upper s : Py.lstrip (Py.upper s) = Py.upper (Py.lstrip s).
Proof.
  induction s as [|c s IH]; [done|]. simpl.
  rewrite (proj1 (proj2 (upper_char_facts c))). by destruct (Py.isspace c).
Qed.

Lemma rstrip_upper s : Py.rstrip (Py.upper s) = Py.upper (Py.rstrip s).
Proof.
  induction s as [|c s IH]; [done|]. simpl.
  rewrite IH, (proj1 (proj2 (upper_char_facts c))).
  destruct (Py.rstrip s); [by destruct (Py.isspace c) | done].
Qed.

Lemma strip_upper s : Py.strip (Py.upper s) = Py.upper (Py.strip s).
Proof. unfold Py.strip. by rewrite lstrip_upper, rstrip_upper. Qed.

Lemma truthy_upper s : Py.truthy (Py.upper s) = Py.truthy s.
Proof. by destruct s. Qed.

Lemma live_upper pieces : live (map Py.upper pieces) = map Py.upper (live pieces).
Proof.
  unfold live. induction pieces as [|p pieces IH]; [done|].
  cbn [map List.filter]. rewrite strip_upper, truthy_upper, IH.
  by destruct (Py.truthy (Py.strip p)).
Qed.

Lemma tokens_of_upper pieces : tokens_of (map Py.upper pieces) = tokens_of pieces.
Proof.
  unfold tokens_of. fold (live (map Py.upper pieces)). fold (live pieces).
  rewrite live_upper, List.map_map. apply List.map_ext. intros t.
  by rewrite strip_upper, upper_upper.
Qed.

Lemma canonicalize_upper s : canonicalize_sequence (Py.upper s) = canonicalize_sequence s.
Proof.
  unfold canonicalize_sequence, canonicalize_sequence_with.
  by rewrite re_split_seps_upper, tokens_of_upper.
Qed.

Lemma rstrip_solid_head c s : Py.isspace c = false -> Py.rstrip (String c s) <> EmptyString.
Proof. intros Hc. simpl. rewrite Hc. by destruct (Py.rstrip s). Qed.

Lemma live_nonempty s : Py.all sep_char s = false -> live (re_split_seps s) <> [].
Proof.
  induction s as [|c s IH]; [done|].
  change (Py.all sep_char (String c s)) with (sep_char c && Py.all sep_char s).
  destruct (sep_char c) eqn:Hc.
  - rewrite andb_true_l. intros Hs. rewrite (live_skips_separator _ _ Hc). by apply IH.
  - intros _. rewrite re_split_seps_unfold, Hc.
    destruct (re_split_seps_cons s) as (f & fs & ->).
    assert (Py.isspace c = false) as Hsp by (apply not_sep_not_space; by rewrite Hc).
    unfold live. simpl List.filter.
    assert (Py.truthy (Py.strip (String c f)) = true) as ->; [|done].
    unfold Py.strip. simpl Py.lstrip. rewrite Hsp.
    pose proof (rstrip_solid_head c f Hsp). by destruct (Py.rstrip (String c f)).
Qed.

Lemma live_all_separators s : Py.all sep_char s = true -> live (re_split_seps s) = [].
Proof.
  intros Hs. rewrite <- (app_empty_r s). by rewrite (live_skips_run s EmptyString Hs).
Qed.

End Case.

(** X7: letter case does not matter to [canonicalize_sequence]: two ASCII
    inputs that are equal once upper-cased get the same answer, be it a key
    or an error. *)
Theorem canonicalize_sequence_case_blind (raw1 raw2 : string) :
  ascii_text raw1 -> ascii_text raw2 ->
  Py.upper raw1 = Py.upper raw2 ->
  canonicalize_sequence raw1 = canonicalize_sequence raw2.
Proof.
  intros _ _ Heq. by rewrite <- (canonicalize_upper raw1), Heq, canonicalize_upper.
Qed.

Lemma canonicalize_sequence_case_blind_witness :
  canonicalize_sequence "Down, enter" = canonicalize_sequence "DOWN, Enter".
Proof.
  apply canonicalize_sequence_case_blind; by vm_compute.
Defined.

(** X8: what [canonicalize_sequence] can answer to an ASCII input.  It
    reports an empty sequence exactly for inputs made of commas and
    whitespace only; a key it returns is a non-empty list of allowed tokens
    joined by single commas; and the tokens an error lists are not allowed
    ones. *)
Theorem canonicalize_sequence_outcomes (raw : string) :
  ascii_text raw ->
  (canonicalize_sequence raw = Err EmptySequence <-> Py.all sep_char raw = true) /\
  (forall k, canonicalize_sequence raw = Ok k ->
     exists toks, toks <> [] /\ Forall (fun t => t ∈ ALLOWED_TOKENS) toks /\
                  k = Py.join "," toks) /\
  (forall unknown, canonicalize_sequence raw = Err (UnknownTokens unknown) ->
     unknown <> [] /\ Forall (fun t => t ∉ ALLOWED_TOKENS) unknown).
Proof.
  intros _. split; [|split].
  - unfold canonicalize_sequence, canonicalize_sequence_with, tokens_of. cbn zeta.
    fold (live (re_split_seps raw)). split.
    + intros H. destruct (Py.all sep_char raw) eqn:Hs; [done|].
      apply live_nonempty in Hs. destruct (live (re_split_seps raw)); [done|].
      cbn [map] in H.
      change (match ALLOWED_TOKENS with
              | [] => []
              | _ :: _ => ?f
              end) with f in H.
      by destruct (List.filter _ _) in H.
    + intros Hs. by rewrite (live_all_separators _ Hs).
  - apply canonicalize_ok_tokens.
  - unfold canonicalize_sequence, canonicalize_sequence_with. cbn zeta.
    destruct (tokens_of (re_split_seps raw)) as [|t toks]; [done|].
    change (match ALLOWED_TOKENS with
            | [] => []
            | _ :: _ => List.filter (fun t => negb (Py.mem t ALLOWED_TOKENS)) (t :: toks)
            end) with (List.filter (fun t => negb (Py.mem t ALLOWED_TOKENS)) (t :: toks)).
    intros unknown H.
    destruct (List.filter _ (t :: toks)) as [|u us] eqn:Hu; [done|].
    injection H as <-. split; [done|].
    apply Forall_forall. intros x Hx. rewrite <- Hu in Hx.
    apply list_elem_of_In, List.filter_In in Hx as [_ Hx].
    by apply negb_true_iff, mem_false in Hx.
Qed.

Lemma canonicalize_sequence_outcomes_witness :
  canonicalize_sequence " , ,, " = Err EmptySequence.
Proof.
  apply (canonicalize_sequence_outcomes " , ,, "); by vm_compute.
Defined.

(** ** The integrity check and the prompts *)

(** X9: the integrity check is exact.  [build_reverse_cache] succeeds if and
    only if no step is listed under two different keys; the index it
    returns maps a step to a key exactly when the step is listed under that
    key; and the exception it raises names a step and two different keys
    that both list it. *)
Theorem build_reverse_cache_decides_uniqueness (db : document) :
  (unique_owner (dmap db) <-> exists idx, build_reverse_cache db = Ok idx) /\
  (forall idx, build_reverse_cache db = Ok idx ->
     forall s a, idx !! s = Some a <-> owns (dmap db) s a) /\
  (forall e, build_reverse_cache db = Err e ->
     exists s a b, e = InconsistentJSON s a b /\ a <> b /\
       owns (dmap db) s a /\ owns (dmap db) s b).
Proof.
  split; [|split].
  - split; [apply build_reverse_cache_ok|].
    intros [idx Hidx]. by apply (build_reverse_cache_unique db idx).
  - apply build_reverse_cache_lookup.
  - apply build_reverse_cache_err.
Qed.

(** X11: [prompt_valid_step_name] returns the first line that normalizes.
    The lines before it are consumed, each answered by the prompt and the
    complaint; the lines after it are left for the next [input].  If no
    line normalizes the loop ends in [EOFError]. *)
Theorem prompt_valid_step_name_returns_first_valid (p : prompt_text)
    (bad rest : list string) (w : world) :
  Forall (fun raw => exists e, normalize_step_name (Py.strip raw) = Err e) bad ->
  (forall good s,
     normalize_step_name (Py.strip good) = Ok s ->
     stdin w = bad ++ good :: rest ->
     prompt_valid_step_name p w =
       (Ok s, with_stdin rest (more_stdout (step_rejections p bad ++ [Prompt p]) w))) /\
  (stdin w = bad ->
   prompt_valid_step_name p w =
     (Err EOFError, with_stdin [] (more_stdout (step_rejections p bad ++ [Prompt p]) w))).
Proof.
  intros Hbad.
  assert (forall tail r,
    prompt_valid_step_name_lines p tail = r ->
    prompt_valid_step_name_lines p (bad ++ tail) = said (step_rejections p bad) r) as Hloop.
  { intros tail r <-. induction Hbad as [|raw bad [e He] _ IH].
    - simpl. by destruct (prompt_valid_step_name_lines p tail) as [[? ?] ?].
    - simpl. unfold step_rejections. simpl. rewrite He, IH.
      by destruct (prompt_valid_step_name_lines p tail) as [[? ?] ?]. }
  split.
  - intros good s Hgood Hin. unfold prompt_valid_step_name.
    rewrite run_reading_run, Hin, (Hloop (good :: rest) _ eq_refl).
    simpl. by rewrite Hgood.
  - intros Hin. unfold prompt_valid_step_name.
    rewrite run_reading_run, Hin, <- (app_nil_r bad) at 1.
    by rewrite (Hloop [] _ eq_refl).
Qed.

Lemma prompt_valid_step_name_returns_first_valid_witness :
  prompt_valid_step_name AskStepName (fresh None ["Open menu"; ""; " open  menu "; "DOWN"]) =
    (Ok "open menu",
     World (Storage None None) NoFailure ["DOWN"]
       [Prompt AskStepName; SayRenameHint UppercaseAndPunctuation;
        Prompt AskStepName; SayRenameHint EmptyStepName; Prompt AskStepName]).
Proof.
  pose proof (prompt_valid_step_name_returns_first_valid AskStepName
                ["Open menu"; EmptyString] ["DOWN"]
                (fresh None ["Open menu"; EmptyString; " open  menu "; "DOWN"])) as [H _].
  - repeat constructor; eexists; by vm_compute.
  - apply (H " open  menu " "open menu"); [by vm_compute | done].
Defined.

(** X12: [prompt_sequence] returns the key of the first line that
    canonicalizes, in the same way: rejected lines are consumed and
    answered, later lines are left, and running out of lines is
    [EOFError]. *)
Theorem prompt_sequence_returns_first_valid (p : prompt_text)
    (bad rest : list string) (w : world) :
  Forall (fun raw => exists e, canonicalize_sequence (Py.strip raw) = Err e) bad ->
  (forall good k,
     canonicalize_sequence (Py.strip good) = Ok k ->
     stdin w = bad ++ good :: rest ->
     prompt_sequence p w =
       (Ok k, with_stdin rest (more_stdout (sequence_rejections p bad ++ [Prompt p]) w))) /\
  (stdin w = bad ->
   prompt_sequence p w =
     (Err EOFError,
      with_stdin [] (more_stdout (sequence_rejections p bad ++ [Prompt p]) w))).
Proof.
  intros Hbad.
  assert (forall tail r,
    prompt_sequence_lines p tail = r ->
    prompt_sequence_lines p (bad ++ tail) = said (sequence_rejections p bad) r) as Hloop.
  { intros tail r <-. induction Hbad as [|raw bad [e He] _ IH].
    - simpl. by destruct (prompt_sequence_lines p tail) as [[? ?] ?].
    - simpl. unfold sequence_rejections. simpl. rewrite He, IH.
      by destruct (prompt_sequence_lines p tail) as [[? ?] ?]. }
  split.
  - intros good k Hgood Hin. unfold prompt_sequence.
    rewrite run_reading_run, Hin, (Hloop (good :: rest) _ eq_refl).
    simpl. by rewrite Hgood.
  - intros Hin. unfold prompt_sequence.
    rewrite run_reading_run, Hin, <- (app_nil_r bad) at 1.
    by rewrite (Hloop [] _ eq_refl).
Qed.

Lemma prompt_sequence_returns_first_valid_witness :
  prompt_sequence AskNewSequence (fresh None ["down, jump"]) =
    (Err EOFError,
     World (Storage None None) NoFailure []
       [Prompt AskNewSequence; SayError (SequenceError (UnknownTokens ["JUMP"]));
        Prompt AskNewSequence]).
Proof.
  pose proof (prompt_sequence_returns_first_valid AskNewSequence ["down, jump"] []
                (fresh None ["down, jump"])) as [_ H].
  - repeat constructor; eexists; by vm_compute.
  - by apply H.
Defined.

(** ** What a run may touch *)

(** The three footprints ([prints_only], [reads_only], [commits]) are kept
    by sequencing. *)
Section Effects.

Context {A B : Type}.

Lemma more_stdout_nil w : more_stdout [] w = w.
Proof. destruct w. unfold more_stdout. simpl. by rewrite app_nil_r. Qed.

Lemma more_stdout_more xs ys w :
  more_stdout ys (more_stdout xs w) = more_stdout (xs ++ ys) w.
Proof. unfold more_stdout. simpl. by rewrite app_assoc. Qed.

Lemma prints_only_ret (a : A) : prints_only (mret a : M A).
Proof. intros w. exists []. by rewrite more_stdout_nil. Qed.

Lemma prints_only_raise (e : exn) : prints_only (raise e : M A).
Proof. intros w. exists []. by rewrite more_stdout_nil. Qed.

Lemma prints_only_lift (r : result exn A) : prints_only (lift r).
Proof. intros w. exists []. by rewrite more_stdout_nil. Qed.

Lemma prints_only_print l : prints_only (print l).
Proof. intros w. by exists [l]. Qed.

Lemma prints_only_print_lines ls : prints_only (print_lines ls).
Proof. intros w. by exists ls. Qed.

Lemma prints_only_load_db : prints_only load_db.
Proof.
  intros w. exists []. rewrite more_stdout_nil. unfold load_db.
  by destruct (target (disk w)) as [[]|].
Qed.

Lemma prints_only_bind (m : M A) (k : A -> M B) :
  prints_only m -> (forall a, prints_only (k a)) -> prints_only (m ≫= k).
Proof.
  intros Hm Hk w. rewrite bind_run. destruct (Hm w) as [out Hout].
  destruct (m w) as [[a|e] w1]; simpl in Hout; subst w1.
  - destruct (Hk a (more_stdout out w)) as [out' Hout'].
    exists (out ++ out'). by rewrite Hout', more_stdout_more.
  - by exists out.
Qed.

Lemma reads_only_ret (a : A) : reads_only (mret a : M A).
Proof. done. Qed.

Lemma reads_only_raise (e : exn) : reads_only (raise e : M A).
Proof. done. Qed.

Lemma reads_only_lift (r : result exn A) : reads_only (lift r).
Proof. done. Qed.

Lemma reads_only_run_reading (f : list string -> reading A) : reads_only (run_reading f).
Proof. intros w. rewrite run_reading_run. by destruct (f (stdin w)) as [[r rest] out]. Qed.

Lemma reads_only_bind (m : M A) (k : A -> M B) :
  reads_only m -> (forall a, reads_only (k a)) -> reads_only (m ≫= k).
Proof.
  intros Hm Hk w. rewrite bind_run. destruct (Hm w) as [Hd Hf].
  destruct (m w) as [[a|e] w1]; simpl in Hd, Hf; [|done].
  destruct (Hk a w1) as [Hd' Hf']. by rewrite Hd', Hf'.
Qed.

Lemma commits_reads_only (m : M A) : reads_only m -> commits m.
Proof. intros Hm w. destruct (Hm w) as [Hd Hf]. split; [done | left; by rewrite Hd]. Qed.

Lemma commits_bind (m : M A) (k : A -> M B) :
  commits m -> (forall a, commits (k a)) -> commits (m ≫= k).
Proof.
  intros Hm Hk w. rewrite bind_run. destruct (Hm w) as [Hf Hcases].
  destruct (m w) as [[a|e] w1]; simpl in Hf, Hcases |- *; [| by split].
  destruct (Hk a w1) as [Hf' Hcases']. split; [congruence |].
  destruct Hcases' as [-> | [Hnf Hdb]]; [done |]. right. by rewrite <- Hf.
Qed.

End Effects.

Lemma reads_only_print l : reads_only (print l).
Proof. done. Qed.

Lemma reads_only_input p : reads_only (input p).
Proof. intros w. unfold input. by destruct (stdin w). Qed.

Lemma reads_only_load_db : reads_only load_db.
Proof. intros w. unfold load_db. by destruct (target (disk w)) as [[]|]. Qed.

Lemma commits_atomic_save db : commits (atomic_save db).
Proof.
  intros w. unfold atomic_save, settled. destruct w as [d f i o].
  destruct f; simpl; (split; [done |]); try by left.
  right. split; [done | by exists db].
Qed.

Lemma reads_only_confirm p : reads_only (confirm p).
Proof. intros w. rewrite confirm_run. by destruct (stdin w). Qed.

Lemma reads_only_getitem m k : reads_only (getitem m k).
Proof. intros w. unfold getitem. by destruct (dict_get m k). Qed.

Lemma prints_only_getitem m k : prints_only (getitem m k).
Proof.
  intros w. exists []. rewrite more_stdout_nil. unfold getitem.
  by destruct (dict_get m k).
Qed.

(** Each footprint of a computation follows its syntax. *)
Ltac read_only :=
  repeat first
    [ apply reads_only_ret | apply reads_only_raise | apply reads_only_lift
    | apply reads_only_print | apply reads_only_input | apply reads_only_load_db
    | apply reads_only_run_reading | apply reads_only_confirm | apply reads_only_getitem
    | apply reads_only_bind; [| intros ?]
    | match goal with
      | |- reads_only (match ?x with _ => _ end) => destruct x
      end
    | progress cbn beta iota zeta ].

Ltac only_prints :=
  repeat first
    [ apply prints_only_ret | apply prints_only_raise | apply prints_only_lift
    | apply prints_only_print | apply prints_only_print_lines | apply prints_only_load_db
    | apply prints_only_getitem
    | apply prints_only_bind; [| intros ?]
    | match goal with
      | |- prints_only (match ?x with _ => _ end) => destruct x
      end
    | progress cbn beta iota zeta ].

Ltac commit :=
  repeat first
    [ apply commits_atomic_save
    | apply commits_reads_only; solve [read_only]
    | apply commits_bind; [| intros ?]
    | match goal with
      | |- commits (match ?x with _ => _ end) => destruct x
      end
    | progress cbn beta iota zeta ].

(** The footprint of each operation. *)
Section Operations.

Lemma prints_only_for_M {X : Type} (xs : list X) (body : X -> M unit) :
  (forall x, prints_only (body x)) -> prints_only (for_M xs body).
Proof. intros Hbody. induction xs as [|x xs IH]; simpl; only_prints; auto. Qed.

Lemma commits_op_add : commits op_add.
Proof. unfold op_add, prompt_valid_step_name. commit. Qed.

Lemma commits_op_reassign step new_seq_raw : commits (op_reassign step new_seq_raw).
Proof.
  unfold op_reassign, step_argument, prompt_step, prompt_sequence, prompt_valid_step_name.
  commit.
Qed.

Lemma commits_op_rename old new : commits (op_rename old new).
Proof.
  unfold op_rename, step_argument, prompt_step, prompt_valid_step_name.
  commit.
Qed.

Lemma commits_op_remove step assume_yes : commits (op_remove step assume_yes).
Proof. unfold op_remove. commit. Qed.

Lemma commits_op_gc : commits op_gc.
Proof. unfold op_gc. commit. Qed.

Lemma prints_only_op_list : prints_only op_list.
Proof. unfold op_list. only_prints. apply prints_only_for_M. intros x. only_prints. Qed.

Lemma prints_only_op_show query : prints_only (op_show query).
Proof. unfold op_show. only_prints. Qed.

Lemma prints_only_op_lint : prints_only op_lint.
Proof. unfold op_lint. only_prints. Qed.

Lemma prints_only_reads_only {A : Type} (m : M A) : prints_only m -> reads_only m.
Proof. intros Hm w. destruct (Hm w) as [out ->]. done. Qed.

Lemma operation_commits op : operation op -> commits op.
Proof.
  destruct 1;
    [ apply commits_op_add | apply commits_op_reassign | apply commits_op_rename
    | apply commits_op_remove
    | apply commits_reads_only, prints_only_reads_only, prints_only_op_list
    | apply commits_reads_only, prints_only_reads_only, prints_only_op_show
    | apply commits_reads_only, prints_only_reads_only, prints_only_op_lint
    | apply commits_op_gc ].
Qed.

End Operations.

(** X13: list, show and lint only print.  Whatever the storage holds (a
    document, a torn file, nothing) and whatever their answer, the storage,
    the temporary file and the pending input are as they were. *)
Theorem query_operations_only_print (op : M unit) (w : world) :
  query_operation op ->
  exists out, snd (op w) = more_stdout out w.
Proof.
  destruct 1;
    [ apply prints_only_op_list | apply prints_only_op_show | apply prints_only_op_lint ].
Qed.

Lemma query_operations_only_print_witness :
  exists out, snd (op_show "down down" (fresh (Some inconsistent_store) ["y"])) =
              more_stdout out (fresh (Some inconsistent_store) ["y"]).
Proof.
  apply (query_operations_only_print (op_show "down down")). constructor.
Defined.

(** X14: no operation leaves the registry half-written.  Whatever failure
    the save meets, the storage path holds after the run what it held before
    or a complete new document; and if a failure of the save was due, it
    holds what it held. *)
Theorem operations_settle_storage (op : M unit) (w : world) :
  operation op ->
  let w' := snd (op w) in
  (stored w' = stored w \/ exists db', stored w' = Some (json_of db')) /\
  (failing w <> NoFailure -> stored w' = stored w).
Proof.
  intros Hop. cbn zeta.
  destruct (operation_commits op Hop w) as [_ [Hsame | [Hnf [db Hdb]]]]; unfold stored.
  - by split; [left |].
  - split; [right; by exists db | done].
Qed.

Lemma operations_settle_storage_witness :
  let w := World (Storage (Some (json_of one_step_store)) None) (DumpFails 7)
                 ["close menu"; "DOWN"] [] in
  stored (snd (op_add w)) = stored w.
Proof.
  intros w. apply (operations_settle_storage op_add w operation_add). by vm_compute.
Defined.

(** ** Adding and renaming *)

(** The renaming loop of [op_add] over the lines it does not take. *)
Section Adding.

Lemma new_name_lines_skips (idx : gmap string string) (refused : list string)
    (good n : string) (rest : list string) :
  Forall (refused_name idx) refused ->
  normalize_step_name (Py.strip good) = Ok n ->
  idx !! n = None ->
  exists out, new_name_lines idx (refused ++ good :: rest) = (Ok n, rest, out).
Proof.
  intros Href Hgood Hfree. induction Href as [|raw refused Hraw _ (out & IH)].
  - simpl. rewrite Hgood. unfold in_cache. rewrite Hfree.
    rewrite bool_decide_false by (by intros [? ?]). by eexists.
  - simpl. unfold refused_name in Hraw.
    destruct (normalize_step_name (Py.strip raw)) as [name|e].
    + unfold in_cache. rewrite bool_decide_true by done. rewrite IH. by eexists.
    + rewrite IH. by eexists.
Qed.

End Adding.

(** X15: adding a step that is in no list.  Once a step name and a sequence
    have been typed, [op_add] writes the document with the step under the
    canonical key: every earlier listing is kept, the new one is the only
    addition, and no step is under two keys afterwards.  The list under
    the key is the sorted permutation of the old list and the step.  The
    input is read up to the line of the sequence, no further. *)
Theorem add_registers_new_step (w : world) (db : document) (idx : gmap string string)
    (step raw_seq seq : string) (rest : list string) (out : list line) :
  failing w = NoFailure ->
  load_db w = (Ok db, w) ->
  NoDup (dict_keys (dmap db)) ->
  build_reverse_cache db = Ok idx ->
  prompt_valid_step_name_lines AskStepName (stdin w) = (Ok step, raw_seq :: rest, out) ->
  canonicalize_sequence (Py.strip raw_seq) = Ok seq ->
  idx !! step = None ->
  exists m',
    fst (op_add w) = Ok tt /\
    stdin (snd (op_add w)) = rest /\
    stored (snd (op_add w)) = Some (json_of (Document (version db) m')) /\
    (forall s a, owns m' s a <-> owns (dmap db) s a \/ (s = step /\ a = seq)) /\
    unique_owner m' /\
    (forall k, k <> seq -> dict_get m' k = dict_get (dmap db) k) /\
    (exists steps,
       dict_get m' seq = Some steps /\ Sorted String.le steps /\
       steps ≡ₚ step :: default [] (dict_get (dmap db) seq)).
Proof.
  intros Hfail Hload Hnd Hb Hstep Hseq Hfree.
  exists (insert_sorted (dmap db) seq step).
  rewrite (op_add_prompts w db idx step raw_seq seq rest out) by done.
  unfold add_tail. rewrite Hfree. rewrite bool_decide_false by done. exec.
  rewrite atomic_save_ok by done. exec.
  split_and!; try done.
  - intros s a. by apply owns_insert_sorted.
  - by apply (inserted_unique db idx).
  - intros k Hk. rewrite dict_get_insert_sorted. by rewrite decide_False.
  - assert (step ∉ default [] (dict_get (dmap db) seq)) as Hnew.
    { intros Hin%(owns_get _ _ _ Hnd).
      apply (build_reverse_cache_lookup db idx Hb) in Hin. congruence. }
    apply mem_false in Hnew.
    exists (Py.sort (default [] (dict_get (dmap db) seq) ++ [step])). split_and!.
    + rewrite dict_get_insert_sorted, decide_True by done. cbn zeta. by rewrite Hnew.
    + apply sort_sorted.
    + unfold Py.sort. rewrite merge_sort_Permutation. by rewrite Permutation_app_comm.
Qed.

Lemma add_registers_new_step_witness :
  exists m',
    stored (snd (op_add (fresh (Some one_step_store) ["close menu"; "up"]))) =
      Some (json_of (Document 1 m')) /\
    owns m' "close menu" "UP" /\ unique_owner m'.
Proof.
  destruct (add_registers_new_step (fresh (Some one_step_store) ["close menu"; "up"])
              one_step_store {["open menu" := "UP"]} "close menu" "up" "UP" []
              [Prompt AskStepName])
    as (m' & _ & _ & Hstored & Howns & Huniq & _); try by vm_compute.
  - apply (bool_decide_unpack _). by vm_compute.
  - exists m'. split_and!; [done | | done]. apply Howns. by right.
Defined.

(** X16: adding a step that belongs to another sequence.  [op_add] says so
    and asks for a new name until a line is typed that normalizes to a name
    not in the registry; that name is registered under the key, and the step
    first typed stays where it was. *)
Theorem add_asks_until_name_is_free (w : world) (db : document)
    (idx : gmap string string) (step raw_seq seq owner good n : string)
    (refused rest : list string) (out : list line) :
  failing w = NoFailure ->
  load_db w = (Ok db, w) ->
  NoDup (dict_keys (dmap db)) ->
  build_reverse_cache db = Ok idx ->
  prompt_valid_step_name_lines AskStepName (stdin w) =
    (Ok step, raw_seq :: refused ++ good :: rest, out) ->
  canonicalize_sequence (Py.strip raw_seq) = Ok seq ->
  idx !! step = Some owner -> owner <> EmptyString -> owner <> seq ->
  Forall (refused_name idx) refused ->
  normalize_step_name (Py.strip good) = Ok n ->
  idx !! n = None ->
  exists m',
    fst (op_add w) = Ok tt /\
    stdin (snd (op_add w)) = rest /\
    SayChooseNewName step owner ∈ stdout (snd (op_add w)) /\
    stored (snd (op_add w)) = Some (json_of (Document (version db) m')) /\
    (forall s a, owns m' s a <-> owns (dmap db) s a \/ (s = n /\ a = seq)) /\
    unique_owner m'.
Proof.
  intros Hfail Hload Hnd Hb Hstep Hseq Howner Hne Hdiff Href Hgood Hfree.
  exists (insert_sorted (dmap db) seq n).
  destruct (new_name_lines_skips idx refused good n rest Href Hgood Hfree) as [out' Hnew].
  rewrite (op_add_prompts w db idx step raw_seq seq _ out) by done.
  unfold add_tail. rewrite Howner.
  rewrite bool_decide_false by congruence.
  rewrite (truthy_nonempty _ Hne). unfold andb.
  rewrite bool_decide_true by done. exec.
  rewrite run_reading_run. simpl stdin. rewrite Hnew. exec.
  rewrite atomic_save_ok by done. exec.
  split_and!; try done.
  - cbn. rewrite !elem_of_app, !elem_of_cons. naive_solver.
  - intros s a. by apply owns_insert_sorted.
  - by apply (inserted_unique db idx).
Qed.

Lemma add_asks_until_name_is_free_witness :
  exists m',
    stored (snd (op_add (fresh (Some one_step_store)
                           ["open menu"; "down"; "Open"; "open menu"; "close menu"]))) =
      Some (json_of (Document 1 m')) /\
    owns m' "close menu" "DOWN" /\ owns m' "open menu" "UP".
Proof.
  destruct (add_asks_until_name_is_free
              (fresh (Some one_step_store)
                 ["open menu"; "down"; "Open"; "open menu"; "close menu"])
              one_step_store {["open menu" := "UP"]} "open menu" "down" "DOWN" "UP"
              "close menu" "close menu" ["Open"; "open menu"] [] [Prompt AskStepName])
    as (m' & _ & _ & _ & Hstored & Howns & _); try by vm_compute.
  - apply (bool_decide_unpack _). by vm_compute.
  - repeat apply Forall_cons_2; [by vm_compute | vm_compute; by eexists | constructor].
  - exists m'. split_and!; [done | |]; apply Howns.
    + by right.
    + left. exists ["open menu"]. split; apply list_elem_of_here.
Defined.

(** X17: renaming.  With an old name the registry has and a new name it does
    not have, [op_rename] writes the document in which the new name stands
    for the old one under the same key: the keys and their order are as
    before, the other lists are untouched, the renamed list is sorted and as
    long as it was, and the old name is under no key. *)
Theorem rename_replaces_name (w : world) (db : document) (idx : gmap string string)
    (old_raw new_raw o n seq : string) :
  failing w = NoFailure ->
  load_db w = (Ok db, w) ->
  NoDup (dict_keys (dmap db)) ->
  build_reverse_cache db = Ok idx ->
  normalize_step_name old_raw = Ok o ->
  normalize_step_name new_raw = Ok n ->
  idx !! o = Some seq ->
  idx !! n = None ->
  exists m' steps steps',
    fst (op_rename (Some old_raw) (Some new_raw) w) = Ok tt /\
    stdin (snd (op_rename (Some old_raw) (Some new_raw) w)) = stdin w /\
    stored (snd (op_rename (Some old_raw) (Some new_raw) w)) =
      Some (json_of (Document (version db) m')) /\
    dict_keys m' = dict_keys (dmap db) /\
    dict_get (dmap db) seq = Some steps /\
    dict_get m' seq = Some steps' /\
    Sorted String.le steps' /\ length steps' = length steps /\
    (forall k, k <> seq -> dict_get m' k = dict_get (dmap db) k) /\
    (forall x a, owns m' x a <-> (x = n /\ a = seq) \/ (x <> o /\ owns (dmap db) x a)).
Proof.
  intros Hfail Hload Hnd Hb Ho Hn Hio Hin.
  destruct (cache_owner_listed db idx o seq Hb Hio) as [steps Hget].
  set (steps' := Py.sort (map (fun s => if bool_decide (s = o) then n else s) steps)).
  exists (renamed (dmap db) o n seq steps), steps, steps'.
  rewrite (op_rename_run w db idx old_raw new_raw o n seq steps) by done.
  assert (seq ∈ dict_keys (dmap db)) as Hkey.
  { apply dict_get_is_Some. by rewrite Hget. }
  assert (o ∈ steps) as Hin_o.
  { pose proof (proj1 (build_reverse_cache_lookup db idx Hb o seq) Hio) as Hown.
    apply (owns_get _ _ _ Hnd) in Hown. by rewrite Hget in Hown. }
  split_and!; try done.
  - unfold renamed. rewrite dict_keys_set. by rewrite bool_decide_true.
  - unfold renamed. rewrite dict_get_set. by rewrite decide_True.
  - apply sort_sorted.
  - unfold steps', Py.sort. rewrite merge_sort_Permutation. by rewrite length_map.
  - intros k Hk. unfold renamed. rewrite dict_get_set. by rewrite decide_False.
  - intros x a. unfold renamed. rewrite (owns_dict_set _ _ _ _ _ Hnd), sort_elem, rename_elem.
    split.
    + intros [[-> [[-> _] | [Hx Hxo]]] | [Ha Hown]].
      * by left.
      * right. split; [done|]. apply (owns_get _ _ _ Hnd). by rewrite Hget.
      * right. split; [|done]. intros ->.
        apply Ha. symmetry.
        apply (proj1 (build_reverse_cache_lookup db idx Hb o seq)) in Hio.
        by apply (build_reverse_cache_unique db idx Hb o).
    + intros [[-> ->] | [Hxo Hown]].
      * left. split; [done|]. by left.
      * destruct (decide (a = seq)) as [-> | Ha].
        -- left. split; [done|]. right. split; [|done].
           apply (owns_get _ _ _ Hnd) in Hown. by rewrite Hget in Hown.
        -- by right.
Qed.

Lemma rename_replaces_name_witness :
  exists m',
    stored (snd (op_rename (Some "open menu") (Some "main menu")
                   (fresh (Some one_step_store) []))) =
      Some (json_of (Document 1 m')) /\
    owns m' "main menu" "UP" /\ ~ owns m' "open menu" "UP".
Proof.
  destruct (rename_replaces_name (fresh (Some one_step_store) []) one_step_store
              {["open menu" := "UP"]} "open menu" "main menu" "open menu" "main menu" "UP")
    as (m' & steps & steps' & _ & _ & Hstored & _ & _ & _ & _ & _ & _ & Howns);
    try by vm_compute.
  - apply (bool_decide_unpack _). by vm_compute.
  - exists m'. split_and!; [done | |].
    + apply Howns. by left.
    + intros [[? _] | [? _]]%Howns; done.
Defined.

(** ** Refusals and retries *)

(** X18: a name that is taken is refused, twice at most.  When the new name
    given to [op_rename] is a step of the registry (the old name itself
    included), one more name is asked for; if that one is taken too the
    operation says so and ends, with nothing written. *)
Theorem rename_refuses_taken_name (w : world) (db : document) (idx : gmap string string)
    (old_raw new_raw o n again n2 : string) (rest : list string) :
  load_db w = (Ok db, w) ->
  build_reverse_cache db = Ok idx ->
  normalize_step_name old_raw = Ok o ->
  normalize_step_name new_raw = Ok n ->
  is_Some (idx !! o) ->
  is_Some (idx !! n) ->
  stdin w = again :: rest ->
  normalize_step_name (Py.strip again) = Ok n2 ->
  is_Some (idx !! n2) ->
  op_rename (Some old_raw) (Some new_raw) w =
    (Ok tt,
     with_stdin rest
       (more_stdout [SayTakenRetry n; Prompt AskNewStepName; SayTaken n2] w)).
Proof.
  intros Hload Hb Ho Hn Hio Hin Hstdin Hagain Hin2.
  unfold op_rename, step_argument, prompt_step, prompt_valid_step_name, in_cache.
  rewrite (normalize_ok_nonempty _ _ Ho), Ho, (normalize_ok_nonempty _ _ Hn), Hn.
  exec. rewrite Hload. exec. rewrite Hb. exec.
  rewrite (bool_decide_true _ Hio). exec.
  rewrite (bool_decide_true _ Hin). exec.
  rewrite run_reading_run. cbn [stdin more_stdout]. rewrite Hstdin.
  cbn [prompt_valid_step_name_lines]. rewrite Hagain. exec.
  rewrite (bool_decide_true _ Hin2). exec.
  unfold with_stdin, more_stdout. cbn. by rewrite <- !app_assoc.
Qed.

Lemma rename_refuses_taken_name_witness :
  let w := fresh (Some one_step_store) ["open  menu"; "main menu"] in
  op_rename (Some "open menu") (Some "open menu") w =
    (Ok tt,
     with_stdin ["main menu"]
       (more_stdout [SayTakenRetry "open menu"; Prompt AskNewStepName;
                     SayTaken "open menu"] w)).
Proof.
  apply (rename_refuses_taken_name _ one_step_store {["open menu" := "UP"]}
           "open menu" "open menu" "open menu" "open menu" "open  menu" "open menu"
           ["main menu"]); try by vm_compute.
  all: vm_compute; by eexists.
Defined.

(** X19: a step that is not found gets one more try.  When the step given to
    [op_reassign] or the old name given to [op_rename] is not in the
    registry, the name is asked for once; if the answer is not in the
    registry either, the operation says so and ends, with nothing written
    and the other argument unread. *)
Theorem unknown_step_gets_one_retry (w : world) (db : document)
    (idx : gmap string string) (step_raw s again s2 : string) (rest : list string)
    (other : option string) :
  load_db w = (Ok db, w) ->
  build_reverse_cache db = Ok idx ->
  normalize_step_name step_raw = Ok s ->
  idx !! s = None ->
  stdin w = again :: rest ->
  normalize_step_name (Py.strip again) = Ok s2 ->
  idx !! s2 = None ->
  op_reassign (Some step_raw) other w =
    (Ok tt,
     with_stdin rest
       (more_stdout [SayNotFoundRetry s; Prompt AskStepToReassign; SayNotFound s2] w)) /\
  op_rename (Some step_raw) other w =
    (Ok tt,
     with_stdin rest
       (more_stdout [SayNotFoundRetry s; Prompt AskOldStepName; SayNotFound s2] w)).
Proof.
  intros Hload Hb Hs Hi Hstdin Hagain Hi2.
  assert (forall k, idx !! k = None -> bool_decide (is_Some (idx !! k)) = false) as Hno.
  { intros k ->. apply bool_decide_false. by intros [? ?]. }
  split.
  - unfold op_reassign, step_argument, prompt_step, prompt_valid_step_name, in_cache.
    rewrite (normalize_ok_nonempty _ _ Hs), Hs.
    exec. rewrite Hload. exec. rewrite Hb. exec.
    rewrite (Hno _ Hi). exec.
    rewrite run_reading_run. cbn [stdin more_stdout]. rewrite Hstdin.
    cbn [prompt_valid_step_name_lines]. rewrite Hagain. exec.
    rewrite (Hno _ Hi2). exec.
    unfold with_stdin, more_stdout. cbn. by rewrite <- !app_assoc.
  - unfold op_rename, step_argument, prompt_step, prompt_valid_step_name, in_cache.
    rewrite (normalize_ok_nonempty _ _ Hs), Hs.
    exec. rewrite Hload. exec. rewrite Hb. exec.
    rewrite (Hno _ Hi). exec.
    rewrite run_reading_run. cbn [stdin more_stdout]. rewrite Hstdin.
    cbn [prompt_valid_step_name_lines]. rewrite Hagain. exec.
    rewrite (Hno _ Hi2). exec.
    unfold with_stdin, more_stdout. cbn. by rewrite <- !app_assoc.
Qed.

Lemma unknown_step_gets_one_retry_witness :
  let w := fresh (Some one_step_store) ["main menu"; "open menu"] in
  op_reassign (Some "close menu") (Some "down") w =
    (Ok tt,
     with_stdin ["open menu"]
       (more_stdout [SayNotFoundRetry "close menu"; Prompt AskStepToReassign;
                     SayNotFound "main menu"] w)).
Proof.
  cbn zeta.
  destruct (unknown_step_gets_one_retry
              (fresh (Some one_step_store) ["main menu"; "open menu"]) one_step_store
              {["open menu" := "UP"]} "close menu" "close menu" "main menu" "main menu"
              ["open menu"] (Some "down")) as [H _]; [done | by vm_compute..| done | | |].
  - by vm_compute.
  - by vm_compute.
  - exact H.
Defined.

(** X20: anything but yes cancels a removal.  Without [--yes], [op_remove]
    asks once; an answer that is not [y] or [yes] (in any letter case, with
    any whitespace around it), the empty answer included, ends the
    operation with "Cancelled." and nothing written. *)
Theorem remove_cancelled_unless_yes (w : world) (db : document)
    (idx : gmap string string) (step s seq answer : string) (rest : list string) :
  load_db w = (Ok db, w) ->
  build_reverse_cache db = Ok idx ->
  normalize_step_name step = Ok s ->
  idx !! s = Some seq ->
  seq <> EmptyString ->
  stdin w = answer :: rest ->
  Py.lower (Py.strip answer) ∉ ["y"; "yes"] ->
  op_remove step false w =
    (Ok tt,
     with_stdin rest (more_stdout [Prompt (AskDeleteStep s seq); SayCancelled] w)).
Proof.
  intros Hload Hb Hs Hi Hseq Hstdin Hno.
  assert (affirmative answer = false) as Haff.
  { unfold affirmative. destruct (negb _); [done|]. by apply mem_false. }
  unfold op_remove, given.
  exec. rewrite Hload. exec. rewrite Hb. exec. rewrite Hs. exec. rewrite Hi.
  rewrite (truthy_nonempty _ Hseq). exec. unfold negb at 1. exec.
  rewrite confirm_run, Hstdin. exec. rewrite Haff. unfold negb. exec.
  unfold with_stdin, more_stdout. cbn. by rewrite <- !app_assoc.
Qed.

Lemma remove_cancelled_unless_yes_witness :
  let w := fresh (Some one_step_store) [EmptyString] in
  op_remove "open menu" false w =
    (Ok tt,
     with_stdin [] (more_stdout [Prompt (AskDeleteStep "open menu" "UP"); SayCancelled] w)).
Proof.
  apply (remove_cancelled_unless_yes _ one_step_store {["open menu" := "UP"]}
           "open menu" "open menu" "UP" EmptyString []); try by vm_compute.
  apply (bool_decide_unpack _). by vm_compute.
Defined.

(** ** Arguments asked for at the prompts *)

(** One line read at a prompt, against the argument given outright. *)
Section Prompted.

Lemma load_db_answered p rest w db :
  load_db w = (Ok db, w) -> load_db (answered p rest w) = (Ok db, answered p rest w).
Proof.
  unfold load_db, answered. cbn [disk with_stdin more_stdout].
  destruct (target (disk w)) as [[]|]; by intros [= <-].
Qed.

Lemma prompt_step_answered p good s rest w :
  stdin w = good :: rest ->
  normalize_step_name (Py.strip good) = Ok s ->
  prompt_step p w = (Ok s, answered p rest w).
Proof.
  intros Hin Hgood. unfold prompt_step, prompt_valid_step_name.
  rewrite run_reading_run, Hin. cbn [prompt_valid_step_name_lines]. by rewrite Hgood.
Qed.

Lemma prompt_sequence_answered p good k rest w :
  stdin w = good :: rest ->
  canonicalize_sequence (Py.strip good) = Ok k ->
  prompt_sequence p w = (Ok k, answered p rest w).
Proof.
  intros Hin Hgood. unfold prompt_sequence.
  rewrite run_reading_run, Hin. cbn [prompt_sequence_lines]. by rewrite Hgood.
Qed.

Lemma step_argument_given s p w :
  step_name_fullmatch s = true -> step_argument (Some s) p w = (Ok s, w).
Proof.
  intros Hs%fullmatch_normalize. unfold step_argument.
  by rewrite (normalize_ok_nonempty _ _ Hs), Hs.
Qed.

End Prompted.

(** X21: a first argument typed at the prompt counts as if it had been
    given.  When [op_reassign] or [op_rename] is called without its step (or
    with the empty string for it) and the line typed at the prompt
    normalizes, the run goes on exactly as the run that is given the
    normalized name, from the point where the line has been read. *)
Theorem prompted_step_as_if_given (w : world) (db : document) (idx : gmap string string)
    (good s : string) (rest : list string) (other : option string) :
  load_db w = (Ok db, w) ->
  build_reverse_cache db = Ok idx ->
  stdin w = good :: rest ->
  normalize_step_name (Py.strip good) = Ok s ->
  op_reassign None other w =
    op_reassign (Some s) other (answered AskStepToReassign rest w) /\
  op_reassign (Some EmptyString) other w = op_reassign None other w /\
  op_rename None other w = op_rename (Some s) other (answered AskOldStepName rest w) /\
  op_rename (Some EmptyString) other w = op_rename None other w.
Proof.
  intros Hload Hb Hin Hgood.
  pose proof (normalize_ok_fullmatch _ _ Hgood) as Hs.
  split_and!.
  - unfold op_reassign. rewrite !bind_run, Hload, (load_db_answered _ _ _ _ Hload).
    cbn beta iota. rewrite !bind_run, !lift_run, Hb. cbn beta iota.
    rewrite !(bind_run (step_argument _ _)), (step_argument_given _ _ _ Hs).
    unfold step_argument, given.
    by rewrite (prompt_step_answered _ _ _ _ _ Hin Hgood).
  - done.
  - unfold op_rename. rewrite !bind_run, Hload, (load_db_answered _ _ _ _ Hload).
    cbn beta iota. rewrite !bind_run, !lift_run, Hb. cbn beta iota.
    rewrite !(bind_run (step_argument _ _)), (step_argument_given _ _ _ Hs).
    unfold step_argument, given.
    by rewrite (prompt_step_answered _ _ _ _ _ Hin Hgood).
  - done.
Qed.

Lemma prompted_step_as_if_given_witness :
  let w := fresh (Some one_step_store) [" open  menu "; "down"] in
  op_reassign None None w =
    op_reassign (Some "open menu") None (answered AskStepToReassign ["down"] w).
Proof.
  cbn zeta.
  destruct (prompted_step_as_if_given
              (fresh (Some one_step_store) [" open  menu "; "down"]) one_step_store
              {["open menu" := "UP"]} " open  menu " "open menu" ["down"] None)
    as (H & _); [done | by vm_compute | done | by vm_compute | exact H].
Defined.

(** X22: a second argument typed at the prompt counts as if it had been
    given.  With a step that is found at once, [op_reassign] without its
    sequence goes on, once a line that canonicalizes has been typed, as the
    run that is given the canonical key; and so does [op_rename] without its
    new name, with the normalized name. *)
Theorem prompted_second_argument_as_if_given (w : world) (db : document)
    (idx : gmap string string) (step_raw s : string) (good : string) (rest : list string) :
  load_db w = (Ok db, w) ->
  build_reverse_cache db = Ok idx ->
  normalize_step_name step_raw = Ok s ->
  is_Some (idx !! s) ->
  stdin w = good :: rest ->
  (forall k, canonicalize_sequence (Py.strip good) = Ok k ->
     op_reassign (Some step_raw) None w =
       op_reassign (Some step_raw) (Some k) (answered AskNewSequence rest w)) /\
  (forall n, normalize_step_name (Py.strip good) = Ok n ->
     op_rename (Some step_raw) None w =
       op_rename (Some step_raw) (Some n) (answered AskNewStepName rest w)).
Proof.
  intros Hload Hb Hstep Hfound Hin. split.
  - intros k Hk.
    assert (canonicalize_sequence k = Ok k) as Hkk.
    { destruct (canonicalize_ok_tokens _ _ Hk) as (toks & Hne & Hall & ->).
      by apply canonicalize_of_tokens. }
    unfold op_reassign, step_argument, in_cache.
    rewrite (normalize_ok_nonempty _ _ Hstep), Hstep.
    rewrite !bind_run, Hload, (load_db_answered _ _ _ _ Hload).
    exec. rewrite Hb. exec. rewrite (bool_decide_true _ Hfound). exec.
    rewrite (canonicalize_ok_nonempty _ _ Hkk), Hkk.
    unfold given at 1. rewrite (prompt_sequence_answered _ _ _ _ _ Hin Hk). by exec.
  - intros n Hn.
    pose proof (fullmatch_normalize _ (normalize_ok_fullmatch _ _ Hn)) as Hnn.
    unfold op_rename, step_argument, in_cache.
    rewrite (normalize_ok_nonempty _ _ Hstep), Hstep.
    rewrite !bind_run, Hload, (load_db_answered _ _ _ _ Hload).
    exec. rewrite Hb. exec. rewrite (bool_decide_true _ Hfound). exec.
    rewrite (normalize_ok_nonempty _ _ Hnn), Hnn.
    unfold given at 1. fold (prompt_step AskNewStepName).
    rewrite (prompt_step_answered _ _ _ _ _ Hin Hn). by exec.
Qed.

Lemma prompted_second_argument_as_if_given_witness :
  let w := fresh (Some one_step_store) ["down, down"] in
  op_reassign (Some "open menu") None w =
    op_reassign (Some "open menu") (Some "DOWN,DOWN") (answered AskNewSequence [] w).
Proof.
  cbn zeta.
  destruct (prompted_second_argument_as_if_given
              (fresh (Some one_step_store) ["down, down"]) one_step_store
              {["open menu" := "UP"]} "open menu" "open menu" "down, down" [])
    as (H & _); [done | by vm_compute | by vm_compute | by eexists | done |].
  apply (H "DOWN,DOWN"). by vm_compute.
Defined.

(** ** Collecting and listing *)

(** The map [op_gc] leaves and the loop of [op_list]. *)
Section Collecting.

Implicit Types (m : dict) (k : string).

Lemma gc_map_get m k l :
  NoDup (dict_keys m) ->
  dict_get (gc_map m) k = Some l <-> dict_get m k = Some l /\ l <> [].
Proof.
  induction m as [|[k' v] m IH]; [naive_solver|].
  intros [Hk' Hnd]%NoDup_cons. specialize (IH Hnd).
  change (gc_map ((k', v) :: m)) with
    (if match v with [] => false | _ => true end then (k', v) :: gc_map m else gc_map m).
  change (dict_get ((k', v) :: m) k) with
    (if decide (k' = k) then Some v else dict_get m k).
  destruct v as [|x v].
  - destruct (decide (k' = k)) as [-> | Hk]; [|done].
    rewrite IH. split; [|naive_solver]. intros [Hget _].
    destruct Hk'. apply dict_get_is_Some. by exists l.
  - change (dict_get ((k', x :: v) :: gc_map m) k) with
      (if decide (k' = k) then Some (x :: v) else dict_get (gc_map m) k).
    destruct (decide (k' = k)); [naive_solver | done].
Qed.

Lemma gc_map_count m :
  length m = length (gc_map m) + length (empty_keys m).
Proof.
  unfold gc_map, empty_keys, dict_keys. rewrite length_map.
  induction m as [|[k v] m IH]; [done|]. simpl. destruct v; simpl; lia.
Qed.

Lemma for_M_entries m keys w :
  (forall k, k ∈ keys -> k ∈ dict_keys m) ->
  for_M keys (fun seq => steps ← getitem m seq; print (SayEntry seq steps)) w =
  (Ok tt, more_stdout (entries m keys) w).
Proof.
  revert w. induction keys as [|k keys IH]; intros w Hkeys.
  - simpl. exec. by rewrite more_stdout_nil.
  - simpl. exec. unfold getitem.
    destruct (proj2 (dict_get_is_Some m k)) as [steps Hget];
      [apply Hkeys, list_elem_of_here|].
    rewrite Hget. exec. rewrite IH.
    + by rewrite more_stdout_more.
    + intros k' Hk'. apply Hkeys. by apply list_elem_of_further.
Qed.

End Collecting.

(** X23: what [op_gc] removes.  On a loaded document, [op_gc] deletes the
    keys whose list is empty and nothing else: the kept keys have the lists
    they had, the count it prints is the number of deleted keys, and when
    there is nothing to delete the storage is not written at all. *)
Theorem gc_removes_empty_sequences (w : world) (db : document) :
  failing w = NoFailure ->
  load_db w = (Ok db, w) ->
  NoDup (dict_keys (dmap db)) ->
  let n := length (empty_keys (dmap db)) in
  exists m',
    fst (op_gc w) = Ok tt /\
    stdout (snd (op_gc w)) = stdout w ++ [SayGC (Z.of_nat n)] /\
    (n = 0 -> disk (snd (op_gc w)) = disk w) /\
    (n <> 0 -> stored (snd (op_gc w)) = Some (json_of (Document (version db) m'))) /\
    (forall k l, dict_get m' k = Some l <-> dict_get (dmap db) k = Some l /\ l <> []).
Proof.
  intros Hfail Hload Hnd n. exists (gc_map (dmap db)).
  rewrite (op_gc_run w db) by done. cbn zeta.
  pose proof (gc_map_count (dmap db)) as Hcount. fold n in Hcount.
  replace (Z.of_nat (length (dmap db)) - Z.of_nat (length (gc_map (dmap db))))%Z
    with (Z.of_nat n) by lia.
  destruct (decide (length (dmap db) = length (gc_map (dmap db)))) as [Heq | Hne].
  - split_and!; try done; [lia|]. intros k l. by apply gc_map_get.
  - split_and!; try done; [lia|]. intros k l. by apply gc_map_get.
Qed.

Lemma gc_removes_empty_sequences_witness :
  let w := fresh (Some (Document 1 [("DOWN", []); ("UP", ["open menu"]); ("ENTER", [])])) [] in
  exists m',
    stdout (snd (op_gc w)) = [SayGC 2] /\
    stored (snd (op_gc w)) = Some (json_of (Document 1 m')) /\
    dict_get m' "UP" = Some ["open menu"] /\ dict_get m' "DOWN" = None.
Proof.
  cbn zeta.
  destruct (gc_removes_empty_sequences
              (fresh (Some (Document 1 [("DOWN", []); ("UP", ["open menu"]); ("ENTER", [])])) [])
              (Document 1 [("DOWN", []); ("UP", ["open menu"]); ("ENTER", [])]))
    as (m' & _ & Hout & _ & Hstored & Hget); try by vm_compute.
  - apply (bool_decide_unpack _). by vm_compute.
  - exists m'. split_and!; [done | by apply Hstored | by apply Hget |].
    destruct (dict_get m' "DOWN") as [l|] eqn:Hl; [|done].
    by apply Hget in Hl as [[= <-] ?].
Defined.

(** X24: what [op_list] prints.  On a loaded document [op_list] prints the
    banner and then one line for every key, with the steps of that key, the
    keys in ascending order; it never raises and changes nothing but the
    output. *)
Theorem list_prints_every_sequence_sorted (w : world) (db : document) :
  load_db w = (Ok db, w) ->
  exists keys,
    keys ≡ₚ dict_keys (dmap db) /\
    Sorted String.le keys /\
    op_list w = (Ok tt, more_stdout (BannerList :: entries (dmap db) keys) w).
Proof.
  intros Hload. exists (Py.sort (dict_keys (dmap db))). split_and!.
  - apply merge_sort_Permutation.
  - apply sort_sorted.
  - unfold op_list. exec. rewrite Hload. exec. rewrite for_M_entries.
    + by rewrite more_stdout_more.
    + intros k. by rewrite sort_elem.
Qed.

Lemma list_prints_every_sequence_sorted_witness :
  let m := [("UP", ["open menu"]); ("DOWN", [])] in
  let w := fresh (Some (Document 1 m)) [] in
  exists keys,
    keys ≡ₚ ["UP"; "DOWN"] /\ Sorted String.le keys /\
    op_list w = (Ok tt, more_stdout (BannerList :: entries m keys) w).
Proof.
  exact (list_prints_every_sequence_sorted
           (fresh (Some (Document 1 [("UP", ["open menu"]); ("DOWN", [])])) [])
           (Document 1 [("UP", ["open menu"]); ("DOWN", [])]) eq_refl).
Defined.

(** ** Showing, and the exceptions that are caught *)

(** X25: what [op_show] answers.  A query that canonicalizes is answered as
    a sequence, with the steps of the key or the empty list, even when it
    is also the name of a step; a query that is neither a sequence nor a
    step name is answered with the step-name error; any other query is
    answered with the key the step is listed under, or [None].  In each
    case one line is printed and nothing else changes. *)
Theorem show_answers_sequence_first (w : world) (db : document) (query : string) :
  load_db w = (Ok db, w) ->
  let q := Py.strip query in
  (forall key, canonicalize_sequence q = Ok key ->
     op_show query w =
       (Ok tt, more_stdout [SayShowSeq key (default [] (dict_get (dmap db) key))] w)) /\
  (forall se e, canonicalize_sequence q = Err se -> normalize_step_name q = Err e ->
     op_show query w = (Ok tt, more_stdout [SayError (StepNameError e)] w)) /\
  (forall se qn, canonicalize_sequence q = Err se -> normalize_step_name q = Ok qn ->
     unique_owner (dmap db) ->
     exists owner,
       op_show query w = (Ok tt, more_stdout [SayShowStep qn owner] w) /\
       forall a, owner = Some a <-> owns (dmap db) qn a).
Proof.
  intros Hload q. split_and!.
  - intros key Hkey. unfold op_show. exec. rewrite Hload. exec. fold q. by rewrite Hkey.
  - intros se e Hse He. unfold op_show. exec. rewrite Hload. exec. fold q.
    by rewrite Hse, He.
  - intros se qn Hse Hqn Huniq.
    destruct (build_reverse_cache_ok db Huniq) as [idx Hb].
    exists (idx !! qn). split.
    + unfold op_show. exec. rewrite Hload. exec. fold q. rewrite Hse, Hqn. exec.
      rewrite Hb. by exec.
    + intros a. by apply build_reverse_cache_lookup.
Qed.

Lemma show_answers_sequence_first_witness :
  let db := Document 1 [("UP", ["enter"])] in
  let w := fresh (Some db) [] in
  op_show "enter" w = (Ok tt, more_stdout [SayShowSeq "ENTER" []] w).
Proof.
  cbn zeta.
  destruct (show_answers_sequence_first (fresh (Some (Document 1 [("UP", ["enter"])])) [])
              (Document 1 [("UP", ["enter"])]) "enter" eq_refl) as (H & _ & _).
  apply (H "ENTER"). by vm_compute.
Defined.

(** The one exception of each prompt loop and of a save. *)
Section Exceptions.

Lemma prompt_valid_step_name_lines_err p lines e rest out :
  prompt_valid_step_name_lines p lines = (Err e, rest, out) -> e = EOFError.
Proof.
  revert out. induction lines as [|raw lines IH]; intros out; simpl.
  - intros ?. by simplify_eq.
  - destruct (normalize_step_name (Py.strip raw)); [done|].
    destruct (prompt_valid_step_name_lines p lines) as [[r rest'] out'] eqn:Hl. simpl.
    intros ?. simplify_eq. by apply (IH out').
Qed.

Lemma prompt_sequence_lines_err p lines e rest out :
  prompt_sequence_lines p lines = (Err e, rest, out) -> e = EOFError.
Proof.
  revert out. induction lines as [|raw lines IH]; intros out; simpl.
  - intros ?. by simplify_eq.
  - destruct (canonicalize_sequence (Py.strip raw)); [done|].
    destruct (prompt_sequence_lines p lines) as [[r rest'] out'] eqn:Hl. simpl.
    intros ?. simplify_eq. by apply (IH out').
Qed.

Lemma new_name_lines_err idx lines e rest out :
  new_name_lines idx lines = (Err e, rest, out) -> e = EOFError.
Proof.
  revert out. induction lines as [|raw lines IH]; intros out; simpl.
  - intros ?. by simplify_eq.
  - destruct (new_name_lines idx lines) as [[r rest'] out'] eqn:Hl.
    destruct (normalize_step_name (Py.strip raw)).
    + destruct (in_cache _ _); [|done]. simpl. intros ?. simplify_eq. by apply (IH out').
    + simpl. intros ?. simplify_eq. by apply (IH out').
Qed.

Lemma atomic_save_err db w e w' : atomic_save db w = (Err e, w') -> e = OSError.
Proof. unfold atomic_save. destruct (failing w); simpl; by intros [= <- _]. Qed.

Lemma load_db_cases w :
  (exists db, load_db w = (Ok db, w)) \/ load_db w = (Err JSONDecodeError, w).
Proof. unfold load_db. destruct (target (disk w)) as [[]|]; eauto. Qed.

End Exceptions.

(** Closes a leaf of a run: the result is not an exception, or it is one of
    those that escape, or the leaf cannot be reached. *)
Ltac leaf :=
  intros [= <- <-] ? ?; simplify_eq; unfold escapes;
  first
    [ by left
    | by right; right; left
    | by right; right; right; left
    | by right; right; right; right
    | match goal with
      | H : build_reverse_cache _ = Err _ |- _ =>
          apply build_reverse_cache_err in H as (? & ? & ? & -> & _);
          right; left; by eexists _, _, _
      | H : prompt_valid_step_name_lines _ _ = (Err _, _, _) |- _ =>
          apply prompt_valid_step_name_lines_err in H as ->; by right; right; left
      | H : prompt_sequence_lines _ _ = (Err _, _, _) |- _ =>
          apply prompt_sequence_lines_err in H as ->; by right; right; left
      | H : new_name_lines _ _ = (Err _, _, _) |- _ =>
          apply new_name_lines_err in H as ->; by right; right; left
      | H : atomic_save _ _ = (Err _, _) |- _ =>
          apply atomic_save_err in H as ->; by right; right; right; left
      | H1 : bool_decide (is_Some (?i !! ?s)) = true, H2 : ?i !! ?s = None |- _ =>
          rewrite H2 in H1; apply bool_decide_eq_true in H1; by destruct H1
      | Hb : build_reverse_cache ?db = Ok ?i, H1 : ?i !! _ = Some ?k,
        H2 : dict_get (dmap ?db) ?k = None |- _ =>
          destruct (cache_owner_listed _ _ _ _ Hb H1) as [? ?]; congruence
      | Hb : build_reverse_cache ?db = Ok ?i, H1 : given (?i !! _) = Some ?k,
        H2 : dict_get (dmap ?db) ?k = None |- _ =>
          unfold given in H1; repeat case_match; simplify_eq;
          match goal with
          | H3 : i !! _ = Some _ |- _ =>
              destruct (cache_owner_listed _ _ _ _ Hb H3) as [? ?]; congruence
          end
      end ].

(** Runs to the leaves without assuming the save succeeds. *)
Ltac crunch_any :=
  repeat progress
    (exec; rewrite ?run_reading_run, ?confirm_run;
     cbn [stdin more_stdout with_stdin];
     try match goal with
         | |- context [match ?x with _ => _ end] => destruct_inner x
         end).

(** The exceptions of each operation on a loaded document. *)
Section Escaping.

Variable w : world.
Variable db : document.
Hypothesis Hload : load_db w = (Ok db, w).
Hypothesis Hnd : NoDup (dict_keys (dmap db)).

Lemma op_add_escapes e : fst (op_add w) = Err e -> escapes e.
Proof.
  destruct (op_add w) as [r w'] eqn:Hrun. simpl. revert Hrun e.
  unfold op_add, prompt_valid_step_name, input. exec. rewrite Hload. crunch_any.
  all: leaf.
Qed.

Lemma op_reassign_escapes step new_seq_raw e :
  fst (op_reassign step new_seq_raw w) = Err e -> escapes e.
Proof.
  destruct (op_reassign step new_seq_raw w) as [r w'] eqn:Hrun. simpl. revert Hrun e.
  unfold op_reassign, step_argument, prompt_step, prompt_valid_step_name, prompt_sequence,
    getitem, in_cache.
  exec. rewrite Hload. crunch_any.
  all: leaf.
Qed.

Lemma op_rename_escapes old new e : fst (op_rename old new w) = Err e -> escapes e.
Proof.
  destruct (op_rename old new w) as [r w'] eqn:Hrun. simpl. revert Hrun e.
  unfold op_rename, step_argument, prompt_step, prompt_valid_step_name, getitem, in_cache.
  exec. rewrite Hload. crunch_any.
  all: leaf.
Qed.

Lemma op_remove_escapes step assume_yes e :
  fst (op_remove step assume_yes w) = Err e -> escapes e.
Proof.
  destruct (op_remove step assume_yes w) as [r w'] eqn:Hrun. simpl. revert Hrun e.
  unfold op_remove, getitem.
  exec. rewrite Hload. crunch_any.
  all: leaf.
Qed.

Lemma op_list_escapes e : fst (op_list w) = Err e -> escapes e.
Proof.
  unfold op_list. exec. rewrite Hload. exec. rewrite for_M_entries; [done|].
  intros k. by rewrite sort_elem.
Qed.

Lemma op_show_escapes query e : fst (op_show query w) = Err e -> escapes e.
Proof.
  destruct (op_show query w) as [r w'] eqn:Hrun. simpl. revert Hrun e.
  unfold op_show. exec. rewrite Hload. crunch_any.
  all: leaf.
Qed.

Lemma op_lint_escapes e : fst (op_lint w) = Err e -> escapes e.
Proof.
  destruct (op_lint w) as [r w'] eqn:Hrun. simpl. revert Hrun e.
  unfold op_lint, print_lines. exec. rewrite Hload. crunch_any.
  all: leaf.
Qed.

Lemma op_gc_escapes e : fst (op_gc w) = Err e -> escapes e.
Proof.
  destruct (op_gc w) as [r w'] eqn:Hrun. simpl. revert Hrun e.
  unfold op_gc. exec. rewrite Hload. exec.
  pose proof (gc_loop [] (dmap db) Hnd eq_refl) as Hloop.
  change ([] ++ dmap db) with (dmap db) in Hloop.
  change ([] ++ gc_map (dmap db)) with (gc_map (dmap db)) in Hloop.
  rewrite Hloop. crunch_any.
  all: leaf.
Qed.

End Escaping.

(** On the documents of the embedding, the exceptions of an operation are
    among those of [escapes]. *)
Lemma operation_escapes (op : M unit) (w : world) (e : exn) :
  operation op ->
  (forall db, load_db w = (Ok db, w) -> NoDup (dict_keys (dmap db))) ->
  fst (op w) = Err e -> escapes e.
Proof.
  intros Hop Hnd He.
  destruct (load_db_cases w) as [[db Hload] | Hload].
  - specialize (Hnd db Hload).
    destruct Hop; eauto using op_add_escapes, op_reassign_escapes, op_rename_escapes,
      op_remove_escapes, op_list_escapes, op_show_escapes, op_lint_escapes, op_gc_escapes.
  - left. revert He.
    destruct Hop;
      unfold op_add, op_reassign, op_rename, op_remove, op_list, op_show, op_lint, op_gc;
      rewrite bind_run, Hload; simpl; congruence.
Qed.

(** X26: what an operation never ends in.  On a registry document, no
    dictionary lookup of an operation raises [KeyError], and the exceptions
    raised by [normalize_step_name] and [canonicalize_sequence] never leave
    an operation: each is caught where the validator is called. *)
Theorem operations_catch_lookup_and_validation_errors (op : M unit) (w : world) (e : exn) :
  operation op ->
  (forall db, load_db w = (Ok db, w) -> NoDup (dict_keys (dmap db))) ->
  fst (op w) = Err e ->
  (forall k, e <> KeyError k) /\
  (forall se, e <> StepNameError se) /\ (forall se, e <> SequenceError se).
Proof.
  intros Hop Hnd He.
  destruct (operation_escapes op w e Hop Hnd He)
    as [-> | [(s & a & b & ->) | [-> | [-> | ->]]]]; by split_and!.
Qed.

Lemma operations_catch_lookup_and_validation_errors_witness :
  (forall k, EOFError <> KeyError k) /\
  (forall se, EOFError <> StepNameError se) /\ (forall se, EOFError <> SequenceError se).
Proof.
  apply (operations_catch_lookup_and_validation_errors (op_rename None None)
           (fresh (Some one_step_store) []) EOFError).
  - constructor.
  - intros db [= <-]. apply (bool_decide_unpack _). by vm_compute.
  - by vm_compute.
Defined.

(** ** The command line *)

(** [args.index("--file")]. *)
Section CommandLine.

Implicit Types (args pre post : list string) (p : string).

Lemma list_index_none x args : x ∉ args -> list_index x args = None.
Proof.
  induction args as [|y ys IH]; [done|]. intros [Hy Hys]%not_elem_of_cons.
  simpl. rewrite decide_False by done. by rewrite IH.
Qed.

Lemma list_index_first x pre post :
  x ∉ pre -> list_index x (pre ++ x :: post) = Some (length pre).
Proof.
  induction pre as [|y ys IH]; simpl.
  - intros _. by rewrite decide_True.
  - intros [Hy Hys]%not_elem_of_cons. rewrite decide_False by done. by rewrite IH.
Qed.

End CommandLine.

(** X27: [--file PATH] may stand anywhere among the arguments: the first
    [--file] and the word after it are taken out and the rest is decoded as
    if they had not been there.  A [--file] that is the last word makes
    [main] raise [IndexError] before any operation runs; without [--file]
    the path is [sequences.json]. *)
Theorem main_file_option (pre post : list string) (p : string) :
  "--file" ∉ pre ->
  main (pre ++ "--file" :: p :: post) = Ok (dispatch p (pre ++ post)) /\
  main (pre ++ ["--file"]) = Err IndexError /\
  main pre = Ok (dispatch DEFAULT_FILE pre).
Proof.
  intros Hpre. unfold main, file_option. split; [|split].
  - rewrite (list_index_first _ _ _ Hpre).
    rewrite lookup_app_r by lia.
    replace (length pre + 1 - length pre) with 1 by lia. cbn [lookup list_lookup].
    rewrite take_app_length.
    by rewrite <- drop_drop, drop_app_length.
  - rewrite (list_index_first _ _ _ Hpre).
    rewrite lookup_ge_None_2; [done|]. rewrite length_app. simpl. lia.
  - by rewrite (list_index_none _ _ Hpre).
Qed.

Lemma main_file_option_witness :
  main ["list"; "--file"; "other.json"] = Ok (Call "other.json" CallList) /\
  main ["list"; "--file"] = Err IndexError.
Proof.
  pose proof (main_file_option ["list"] [] "other.json") as (H1 & H2 & _).
  { by intros ?%list_elem_of_singleton. }
  split; [exact H1 | exact H2].
Defined.

(** Arguments with no [--file] among them, and tokens joined by one
    separator or another. *)
Section Decoding.

Implicit Types (args rest words toks : list string) (p : string).

Lemma main_plain args : "--file" ∉ args -> main args = Ok (dispatch DEFAULT_FILE args).
Proof. intros H. unfold main, file_option. by rewrite (list_index_none _ _ H). Qed.

Lemma canonicalize_joined c1 c2 toks :
  sep_char c1 = true -> sep_char c2 = true -> Forall token_text toks ->
  canonicalize_sequence (Py.join (String c1 EmptyString) toks) =
  canonicalize_sequence (Py.join (String c2 EmptyString) toks).
Proof.
  intros H1 H2 Htoks.
  destruct (join_spelling c1 toks H1 Htoks) as (b1 & Hb1 & Hf1 & <-).
  destruct (join_spelling c2 toks H2 Htoks) as (b2 & Hb2 & Hf2 & <-).
  pose proof (tokens_of_spelling EmptyString b1 eq_refl Hb1) as T1.
  pose proof (tokens_of_spelling EmptyString b2 eq_refl Hb2) as T2.
  change (EmptyString +:+ spell b1) with (spell b1) in T1.
  change (EmptyString +:+ spell b2) with (spell b2) in T2.
  unfold canonicalize_sequence, canonicalize_sequence_with.
  by rewrite T1, T2, Hf1, Hf2.
Qed.

End Decoding.

(** X28: the new sequence of [reassign] may be given as separate
    command-line words: [main] joins the words after the step with spaces,
    and the operation reads that as it reads the same tokens joined by
    commas. *)
Theorem main_reassign_joins_tokens (step : string) (toks : list string) :
  "--file" ∉ step :: toks ->
  toks <> [] ->
  Forall token_text toks ->
  main ("reassign" :: step :: toks) =
    Ok (Call DEFAULT_FILE (CallReassign (Some step) (Some (Py.join " " toks)))) /\
  canonicalize_sequence (Py.join " " toks) = canonicalize_sequence (Py.join "," toks).
Proof.
  intros Hfile Hne Htoks. split.
  - rewrite main_plain.
    + unfold dispatch. destruct toks; [done|]. done.
    + apply not_elem_of_cons. by split.
  - by apply (canonicalize_joined " " ",").
Qed.

Lemma main_reassign_joins_tokens_witness :
  main ["reassign"; "open menu"; "down"; "down"; "enter"] =
    Ok (Call DEFAULT_FILE (CallReassign (Some "open menu") (Some "down down enter"))) /\
  canonicalize_sequence "down down enter" = canonicalize_sequence "down,down,enter".
Proof.
  apply (main_reassign_joins_tokens "open menu" ["down"; "down"; "enter"]).
  - apply (bool_decide_unpack _). by vm_compute.
  - done.
  - repeat constructor; by vm_compute.
Defined.

(** X29: a command word other than [add], [reassign], [rename], [rm] and
    [gc] changes nothing: [main] either prints a usage line or calls an
    operation that only prints. *)
Theorem main_other_commands_only_print (db_path cmd : string) (args : list string)
    (w : world) :
  args !! 0 = Some cmd ->
  cmd ∉ ["add"; "reassign"; "rename"; "rm"; "gc"] ->
  match dispatch db_path args with
  | Call _ c => exists out, snd (run_call c w) = more_stdout out w
  | Usage _ => True
  end.
Proof.
  intros Hcmd Hnot. unfold dispatch. rewrite Hcmd.
  repeat (apply not_elem_of_cons in Hnot as [? Hnot]).
  rewrite !decide_False by done.
  repeat case_decide; try done; simpl.
  - apply prints_only_op_list.
  - apply prints_only_op_show.
  - apply prints_only_op_lint.
Qed.

Lemma main_other_commands_only_print_witness :
  exists out, snd (op_lint (fresh (Some inconsistent_store) [])) =
              more_stdout out (fresh (Some inconsistent_store) []).
Proof.
  apply (main_other_commands_only_print DEFAULT_FILE "lint" ["lint"]
           (fresh (Some inconsistent_store) [])).
  - done.
  - apply (bool_decide_unpack _). by vm_compute.
Defined.

(** X30: for [rm], flags may stand anywhere; the step is the other words
    joined by single spaces and [--yes] among the flags skips the
    confirmations.  With flags only, the step is the empty string, which
    [op_remove] refuses: it prints the error and changes nothing. *)
Theorem main_rm_arguments (rest : list string) :
  "--file" ∉ rest ->
  rest <> [] ->
  let words := List.filter (fun a => negb (is_flag a)) rest in
  main ("rm" :: rest) =
    Ok (Call DEFAULT_FILE (CallRemove (Py.join " " words) (Py.mem "--yes" rest))) /\
  (words = [] ->
   forall w db idx assume_yes,
     load_db w = (Ok db, w) -> build_reverse_cache db = Ok idx ->
     op_remove (Py.join " " words) assume_yes w =
       (Ok tt, more_stdout [SayError (StepNameError EmptyStepName)] w)).
Proof.
  intros Hfile Hne. cbn zeta. split.
  - rewrite main_plain by (apply not_elem_of_cons; by split).
    unfold dispatch. simpl lookup.
    repeat case_decide; try discriminate; try congruence;
      try (exfalso; destruct rest; [done | simpl in *; lia]).
    cbn zeta. do 3 f_equal. unfold Py.mem. apply bool_decide_ext.
    rewrite elem_of_cons. naive_solver.
  - intros -> w db idx assume_yes Hload Hidx.
    unfold op_remove. exec. rewrite Hload. exec. rewrite Hidx. exec. done.
Qed.

Lemma main_rm_arguments_witness :
  main ["rm"; "--yes"; "open"; "menu"] =
    Ok (Call DEFAULT_FILE (CallRemove "open menu" true)).
Proof.
  apply (main_rm_arguments ["--yes"; "open"; "menu"]).
  - apply (bool_decide_unpack _). by vm_compute.
  - done.
Defined.
